(** * volume_archive_libarchive.cc: random-access reads over a forward-only codec

    A shallow embedding of [src/unpacker/cpp/volume_archive_libarchive.cc]:
    the four libarchive pull callbacks ([CustomArchiveRead], [CustomArchiveSkip],
    [CustomArchiveSeek], [CustomArchiveClose]) and the coordinator class
    [VolumeArchiveLibarchive] ([Init], [GetNextHeader], [DecompressData],
    [Cleanup], [ReadData], [MaybeDecompressAhead]).

    Conventions.
    - [int64_t], [ssize_t] and [int] values are [Z].  Signed overflow is
      undefined in C++ and the file never relies on it, so no wrap-around is
      written; the only unsigned conversion (the [size_t] length parameter of
      [archive_read_data]) is left to the codec that receives the value.
    - A [const char*] that may be [NULL] is an [option]; a buffer handed back
      through an out-parameter is the list of bytes it points to.
    - libarchive, the [VolumeReader], the [HeaderCache] and the [VolumeArchive]
      base class are not part of the file: they are interfaces (type classes)
      here, and every call the file makes on them is recorded in a log, so that
      the order of the calls can be stated.
    - [PP_DCHECK] is [assert]: it aborts in a debug build and is compiled out in
      a release build; the build is the parameter [dcheck]. *)

From Stdlib Require Import ZArith Lia.
From stdpp Require Import base list gmap strings.

Local Open Scope Z_scope.

Abbreviation byte := Byte.byte.

(** ** Constants of libarchive and of libc used by the file *)

Definition ARCHIVE_EOF : Z := 1.
Definition ARCHIVE_OK : Z := 0.
Definition ARCHIVE_FATAL : Z := -30.
Definition EIO : Z := 5.
Definition SEEK_SET : Z := 0.
Definition S_IFMT : Z := 61440.
Definition S_IFDIR : Z := 16384.
Definition S_ISDIR (m : Z) : bool := Z.land m S_IFMT =? S_IFDIR.

Definition kArchiveReadDataError : Z := -1.

(** [volume_archive_constants], declared in a header that is not part of the
    file: taken as a parameter. *)
Record volume_archive_constants := {
  kHeaderChunkSize : Z;
  kMinimumDataChunkSize : Z;
  kMaximumDataChunkSize : Z;
  kDummyBufferSize : Z;
  kDecompressBufferSize : Z;
  kVolumeReaderError : string;
  kArchiveReadNewError : string;
  kArchiveSupportErrorPrefix : string;
  kArchiveOpenErrorPrefix : string;
  kArchiveNextHeaderErrorPrefix : string;
  kArchiveReadDataErrorPrefix : string;
  kArchiveReadFreeErrorPrefix : string;
  kFileNotFound : string
}.

(** ** The pull callbacks (lines 26-113) *)

(** The abstract class [VolumeReader]. *)
Class VolumeReader (R : Type) := {
  GetOffset : R -> Z;
  Read : Z -> R -> Z * list byte * R;
  Skip : Z -> R -> Z * R;
  Seek : Z -> Z -> R -> Z * R;
  Close : R -> Z * R
}.

(** [HeaderCache]: [GetHeader] returns [NULL] or a buffer together with its
    size, [AddHeader offset buffer size] stores one. *)
Class HeaderCache (C : Type) := {
  GetHeader : Z -> C -> option (list byte);
  AddHeader : Z -> list byte -> Z -> C -> C
}.

Inductive bridge_event :=
| BSkip (request result : Z)
| BRead (bytes_to_read result : Z)
| BAddHeader (offset : Z) (buffer : list byte) (length : Z)
| BSeek (offset whence result : Z)
| BClose (result : Z)
| BSetError (errno : Z) (message : string).

(** What a callback can reach through [client_data] and [archive_object]:
    the reader, the header cache and the error channel of the codec
    ([archive_set_error] / [archive_error_string]). *)
Record bridge (R C : Type) := Bridge {
  reader : R;
  header_cache : C;
  archive_error : option (Z * string);
  calls : list bridge_event
}.
Arguments Bridge {R C}.
Arguments reader {R C}.
Arguments header_cache {R C}.
Arguments archive_error {R C}.
Arguments calls {R C}.

Section Callbacks.
Context {R C : Type} `{VolumeReader R} `{HeaderCache C}.
Variable K : volume_archive_constants.

Definition SetLibarchiveErrorToVolumeReaderError (b : bridge R C) : bridge R C :=
  Bridge (reader b) (header_cache b)
         (Some (EIO, kVolumeReaderError K))
         (calls b ++ [BSetError EIO (kVolumeReaderError K)]).

(** The read performed after the cache was missed or bypassed (lines 56-78). *)
Definition CustomArchiveRead_uncached (header_read : bool) (reader_data_size : Z)
    (b : bridge R C) : Z * list byte * bridge R C :=
  let offset := GetOffset (reader b) in
  let '(read_bytes, buffer, r) := Read reader_data_size (reader b) in
  let b := Bridge r (header_cache b) (archive_error b)
                  (calls b ++ [BRead reader_data_size read_bytes]) in
  if read_bytes =? ARCHIVE_FATAL then
    (ARCHIVE_FATAL, buffer, SetLibarchiveErrorToVolumeReaderError b)
  else if header_read && (0 <? read_bytes) then
    (read_bytes, buffer,
     Bridge (reader b) (AddHeader offset buffer read_bytes (header_cache b))
            (archive_error b)
            (calls b ++ [BAddHeader offset buffer read_bytes]))
  else (read_bytes, buffer, b).

Definition CustomArchiveRead (header_read : bool) (reader_data_size : Z)
    (b : bridge R C) : Z * list byte * bridge R C :=
  if header_read then
    match GetHeader (GetOffset (reader b)) (header_cache b) with
    | Some buffer =>
        let header_size := Z.of_nat (length buffer) in
        let '(skipped, r) := Skip header_size (reader b) in
        let b := Bridge r (header_cache b) (archive_error b)
                        (calls b ++ [BSkip header_size skipped]) in
        if skipped =? header_size then (header_size, buffer, b)
        else (ARCHIVE_FATAL, buffer, SetLibarchiveErrorToVolumeReaderError b)
    | None => CustomArchiveRead_uncached header_read reader_data_size b
    end
  else CustomArchiveRead_uncached header_read reader_data_size b.

Definition CustomArchiveSkip (request : Z) (b : bridge R C) : Z * bridge R C :=
  let '(skipped, r) := Skip request (reader b) in
  (skipped, Bridge r (header_cache b) (archive_error b)
                   (calls b ++ [BSkip request skipped])).

Definition CustomArchiveSeek (offset whence : Z) (b : bridge R C) : Z * bridge R C :=
  let '(new_offset, r) := Seek offset whence (reader b) in
  let b := Bridge r (header_cache b) (archive_error b)
                  (calls b ++ [BSeek offset whence new_offset]) in
  (new_offset,
   if new_offset =? ARCHIVE_FATAL then SetLibarchiveErrorToVolumeReaderError b else b).

Definition CustomArchiveClose (b : bridge R C) : Z * bridge R C :=
  let '(result, r) := Close (reader b) in
  let b := Bridge r (header_cache b) (archive_error b)
                  (calls b ++ [BClose result]) in
  (result,
   if result =? ARCHIVE_FATAL then SetLibarchiveErrorToVolumeReaderError b else b).
End Callbacks.

(** ** The coordinator [VolumeArchiveLibarchive] (lines 117-386) *)

(** The value of an [archive*]. *)
Definition handle := nat.

(** What libarchive's accessors return for an entry: [archive_entry_pathname]
    (which may be [NULL]), [archive_entry_size], [archive_entry_filetype] and
    [archive_entry_mtime].  [current_archive_entry_] holds the values of the
    entry object as the last [archive_read_next_header] left them; reading the
    object after [archive_read_free] is undefined in C++ and yields these last
    values here. *)
Record archive_entry := Entry {
  archive_entry_pathname : option string;
  archive_entry_size : Z;
  archive_entry_filetype : Z;
  archive_entry_mtime : Z
}.

(** The libarchive functions that return a status and take only the archive. *)
Inductive codec_call :=
| read_support_format_rar
| read_support_format_zip
| read_set_read_callback
| read_set_skip_callback
| read_set_seek_callback
| read_set_close_callback
| read_set_callback_data
| read_open1
| read_free.

(** What the callbacks read from the coordinator while libarchive runs:
    [header_read()] and [reader_data_size()]. *)
Definition callback_view : Type := bool * Z.

(** Everything the coordinator calls and that lives outside the file:
    libarchive, the reader of the [VolumeArchive] base class and
    [VolumeArchive::CleanupReader]. *)
Class Environment (W : Type) := {
  archive_read_new : W -> option handle * W;
  archive_call : codec_call -> option handle -> callback_view -> W -> Z * W;
  archive_read_next_header :
    option handle -> callback_view -> W -> Z * archive_entry * W;
  archive_read_data :
    option handle -> callback_view -> Z -> W -> Z * list byte * W;
  archive_error_string : option handle -> W -> string;
  reader_Seek : Z -> Z -> W -> Z * W;
  CleanupReader : W -> W
}.

Inductive event :=
| ENew (result : option handle)
| ECall (c : codec_call) (a : option handle) (result : Z)
| ENextHeader (a : option handle) (result : Z) (entry : archive_entry)
| EReadData (a : option handle) (len result : Z)
| ESeek (offset whence result : Z)
| ECleanupReader.

(** The fields of the class, the error message of its base class, the state of
    the outside world and the log of the calls made on it. *)
Record VolumeArchiveLibarchive (W : Type) := Volume {
  header_read_ : bool;
  reader_data_size_ : Z;
  archive_ : option handle;
  current_archive_entry_ : option archive_entry;
  last_read_data_offset_ : Z;
  last_read_data_length_ : Z;
  decompressed_data_buffer_ : list byte;
  decompressed_data_ : option Z;
  decompressed_data_size_ : Z;
  decompressed_error_ : bool;
  error_message_ : string;
  world : W;
  log : list event
}.
Arguments Volume {W}.
Arguments header_read_ {W}.
Arguments reader_data_size_ {W}.
Arguments archive_ {W}.
Arguments current_archive_entry_ {W}.
Arguments last_read_data_offset_ {W}.
Arguments last_read_data_length_ {W}.
Arguments decompressed_data_buffer_ {W}.
Arguments decompressed_data_ {W}.
Arguments decompressed_data_size_ {W}.
Arguments decompressed_error_ {W}.
Arguments error_message_ {W}.
Arguments world {W}.
Arguments log {W}.

(** How a call ends: it returns, a [PP_DCHECK] or an undefined operation stops
    the process, or the iteration budget of the model is used up.  The state
    reached is kept in each case. *)
Inductive outcome (A S : Type) :=
| Ret (a : A) (s : S)
| Stop (s : S)
| OutOfFuel (s : S).
Arguments Ret {A S}.
Arguments Stop {A S}.
Arguments OutOfFuel {A S}.

Definition final {A S} (o : outcome A S) : S :=
  match o with Ret _ s | Stop s | OutOfFuel s => s end.

Definition bind {A B S} (o : outcome A S) (k : A -> S -> outcome B S) : outcome B S :=
  match o with
  | Ret a s => k a s
  | Stop s => Stop s
  | OutOfFuel s => OutOfFuel s
  end.

(** The out-parameters of [GetNextHeader]. *)
Record header_out := HeaderOut {
  out_pathname : option string;
  out_size : Z;
  out_is_directory : bool;
  out_modification_time : Z
}.

(** [dest[pos .. pos + |data|) := data]: what a callee does to a [char] buffer
    it is given the address [dest + pos] of. *)
Definition write_at (dest : list byte) (pos : Z) (data : list byte) : list byte :=
  take (Z.to_nat pos) dest ++ data ++ drop (Z.to_nat pos + length data) dest.

Section Coordinator.
Context {W : Type} `{Environment W}.
Variable K : volume_archive_constants.
Variable dcheck : bool.

Abbreviation St := (VolumeArchiveLibarchive W).

Definition set_header_read (v : bool) (s : St) : St :=
  Volume v (reader_data_size_ s) (archive_ s) (current_archive_entry_ s)
    (last_read_data_offset_ s) (last_read_data_length_ s)
    (decompressed_data_buffer_ s) (decompressed_data_ s)
    (decompressed_data_size_ s) (decompressed_error_ s) (error_message_ s)
    (world s) (log s).
Definition set_reader_data_size (v : Z) (s : St) : St :=
  Volume (header_read_ s) v (archive_ s) (current_archive_entry_ s)
    (last_read_data_offset_ s) (last_read_data_length_ s)
    (decompressed_data_buffer_ s) (decompressed_data_ s)
    (decompressed_data_size_ s) (decompressed_error_ s) (error_message_ s)
    (world s) (log s).
Definition set_archive (v : option handle) (s : St) : St :=
  Volume (header_read_ s) (reader_data_size_ s) v (current_archive_entry_ s)
    (last_read_data_offset_ s) (last_read_data_length_ s)
    (decompressed_data_buffer_ s) (decompressed_data_ s)
    (decompressed_data_size_ s) (decompressed_error_ s) (error_message_ s)
    (world s) (log s).
Definition set_current_archive_entry (v : option archive_entry) (s : St) : St :=
  Volume (header_read_ s) (reader_data_size_ s) (archive_ s) v
    (last_read_data_offset_ s) (last_read_data_length_ s)
    (decompressed_data_buffer_ s) (decompressed_data_ s)
    (decompressed_data_size_ s) (decompressed_error_ s) (error_message_ s)
    (world s) (log s).
Definition set_last_read_data_offset (v : Z) (s : St) : St :=
  Volume (header_read_ s) (reader_data_size_ s) (archive_ s)
    (current_archive_entry_ s) v (last_read_data_length_ s)
    (decompressed_data_buffer_ s) (decompressed_data_ s)
    (decompressed_data_size_ s) (decompressed_error_ s) (error_message_ s)
    (world s) (log s).
Definition set_last_read_data_length (v : Z) (s : St) : St :=
  Volume (header_read_ s) (reader_data_size_ s) (archive_ s)
    (current_archive_entry_ s) (last_read_data_offset_ s) v
    (decompressed_data_buffer_ s) (decompressed_data_ s)
    (decompressed_data_size_ s) (decompressed_error_ s) (error_message_ s)
    (world s) (log s).
Definition set_decompressed_data_buffer (v : list byte) (s : St) : St :=
  Volume (header_read_ s) (reader_data_size_ s) (archive_ s)
    (current_archive_entry_ s) (last_read_data_offset_ s)
    (last_read_data_length_ s) v (decompressed_data_ s)
    (decompressed_data_size_ s) (decompressed_error_ s) (error_message_ s)
    (world s) (log s).
Definition set_decompressed_data (v : option Z) (s : St) : St :=
  Volume (header_read_ s) (reader_data_size_ s) (archive_ s)
    (current_archive_entry_ s) (last_read_data_offset_ s)
    (last_read_data_length_ s) (decompressed_data_buffer_ s) v
    (decompressed_data_size_ s) (decompressed_error_ s) (error_message_ s)
    (world s) (log s).
Definition set_decompressed_data_size (v : Z) (s : St) : St :=
  Volume (header_read_ s) (reader_data_size_ s) (archive_ s)
    (current_archive_entry_ s) (last_read_data_offset_ s)
    (last_read_data_length_ s) (decompressed_data_buffer_ s)
    (decompressed_data_ s) v (decompressed_error_ s) (error_message_ s)
    (world s) (log s).
Definition set_decompressed_error (v : bool) (s : St) : St :=
  Volume (header_read_ s) (reader_data_size_ s) (archive_ s)
    (current_archive_entry_ s) (last_read_data_offset_ s)
    (last_read_data_length_ s) (decompressed_data_buffer_ s)
    (decompressed_data_ s) (decompressed_data_size_ s) v (error_message_ s)
    (world s) (log s).
(** Modelled from the spec: [VolumeArchive::set_error_message], a method of
    the base class that is not part of the file; it stores the message in the
    error channel of the instance. *)
Definition set_error_message (v : string) (s : St) : St :=
  Volume (header_read_ s) (reader_data_size_ s) (archive_ s)
    (current_archive_entry_ s) (last_read_data_offset_ s)
    (last_read_data_length_ s) (decompressed_data_buffer_ s)
    (decompressed_data_ s) (decompressed_data_size_ s)
    (decompressed_error_ s) v (world s) (log s).
(** The world after a call, with the call appended to the log. *)
Definition called (w : W) (ev : event) (s : St) : St :=
  Volume (header_read_ s) (reader_data_size_ s) (archive_ s)
    (current_archive_entry_ s) (last_read_data_offset_ s)
    (last_read_data_length_ s) (decompressed_data_buffer_ s)
    (decompressed_data_ s) (decompressed_data_size_ s)
    (decompressed_error_ s) (error_message_ s) w (log s ++ [ev]).

Definition view (s : St) : callback_view := (header_read_ s, reader_data_size_ s).

(** The constructor (lines 117-133).  The contents of the two [char] arrays
    is whatever the allocation holds: [buffer]. *)
Definition VolumeArchiveLibarchive_new (buffer : list byte) (w : W) : St :=
  Volume false (kHeaderChunkSize K) None None 0 0 buffer None 0 false
         String.EmptyString w [].

Definition ArchiveError (message : string) (s : St) : string :=
  String.append message (archive_error_string (archive_ s) (world s)).

Definition call (c : codec_call) (s : St) : Z * St :=
  let '(r, w) := archive_call c (archive_ s) (view s) (world s) in
  (r, called w (ECall c (archive_ s) r) s).

(** [c1(archive_) != ARCHIVE_OK || c2(archive_) != ARCHIVE_OK || ...]:
    evaluated left to right up to the first call that fails. *)
Fixpoint any_call_fails (cs : list codec_call) (s : St) : bool * St :=
  match cs with
  | [] => (false, s)
  | c :: cs =>
      let '(r, s) := call c s in
      if r =? ARCHIVE_OK then any_call_fails cs s else (true, s)
  end.

Definition support_calls : list codec_call :=
  [read_support_format_rar; read_support_format_zip].
Definition open_calls : list codec_call :=
  [read_set_read_callback; read_set_skip_callback; read_set_seek_callback;
   read_set_close_callback; read_set_callback_data; read_open1].

(** Lines 139-172. *)
Definition Init (s : St) : bool * St :=
  let '(a, w) := archive_read_new (world s) in
  let s := set_archive a (called w (ENew a) s) in
  match a with
  | None => (false, set_error_message (kArchiveReadNewError K) s)
  | Some _ =>
      let '(failed, s) := any_call_fails support_calls s in
      if failed then
        (false, set_error_message (ArchiveError (kArchiveSupportErrorPrefix K) s) s)
      else
        let s := set_header_read true s in
        let '(failed, s) := any_call_fails open_calls s in
        if failed then
          (false, set_error_message (ArchiveError (kArchiveOpenErrorPrefix K) s) s)
        else (true, s)
  end.

(** Lines 174-204.  [out] holds the values of the four out-parameters before
    the call: only the branches that assign them change them. *)
Definition GetNextHeader (out : header_out) (s : St) : bool * header_out * St :=
  let s := set_header_read true s in
  let s := set_reader_data_size (kHeaderChunkSize K) s in
  let s := set_last_read_data_offset 0 s in
  let '(r, e, w) := archive_read_next_header (archive_ s) (view s) (world s) in
  let s := set_current_archive_entry (Some e)
             (called w (ENextHeader (archive_ s) r e) s) in
  if r =? ARCHIVE_EOF then
    (true, HeaderOut None (out_size out) (out_is_directory out)
                     (out_modification_time out), s)
  else if r =? ARCHIVE_OK then
    (true, HeaderOut (archive_entry_pathname e) (archive_entry_size e)
                     (S_ISDIR (archive_entry_filetype e))
                     (archive_entry_mtime e), s)
  else
    (false, out,
     set_error_message (ArchiveError (kArchiveNextHeaderErrorPrefix K) s) s).

(** [PP_DCHECK(condition)]: whether execution goes on past the check. *)
Definition PP_DCHECK (condition : bool) : bool := negb dcheck || condition.

(** [archive_read_data(archive_, destination, len)]: the count returned and
    the bytes stored at the destination. *)
Definition read_data (len : Z) (s : St) : Z * list byte * St :=
  let '(size, data, w) := archive_read_data (archive_ s) (view s) len (world s) in
  (size, data, called w (EReadData (archive_ s) len size) s).

(** The error exit of lines 219-221, 281-283 and 309-311. *)
Definition fail_read_data (s : St) : St :=
  set_decompressed_error true
    (set_error_message (ArchiveError (kArchiveReadDataErrorPrefix K) s) s).

(** The [for (;;)] of lines 238-252.  The boolean tells whether
    [DecompressData] goes on ([break]) or has returned. *)
Fixpoint replay_headers (fuel : nat) (file_path_name : string) (out : header_out)
    (s : St) : outcome bool St :=
  match fuel with
  | O => OutOfFuel s
  | S fuel =>
      let '(ok, out, s) := GetNextHeader out s in
      if negb ok then Ret false (set_decompressed_error true s)
      else
        match out_pathname out with
        | None =>
            Ret false (set_decompressed_error true
                         (set_error_message (kFileNotFound K) s))
        | Some path_name =>
            if String.eqb file_path_name path_name then Ret true s
            else replay_headers fuel file_path_name out s
        end
  end.

(** The body of [if (offset < last_read_data_offset_)], lines 215-254.
    Building a [std::string] from a null pointer is undefined. *)
Definition rewind (fuel : nat) (s : St) : outcome bool St :=
  match current_archive_entry_ s with
  | None => Stop s
  | Some e =>
      match archive_entry_pathname e with
      | None => Stop s
      | Some file_path_name =>
          let '(r, s) := call read_free s in
          if negb (r =? ARCHIVE_OK) then Ret false (fail_read_data s)
          else
            let '(r, w) := reader_Seek 0 SEEK_SET (world s) in
            let s := called w (ESeek 0 SEEK_SET r) s in
            let '(ok, s) := Init s in
            if negb ok then Ret false (set_decompressed_error true s)
            else replay_headers fuel file_path_name (HeaderOut None 0 false 0) s
      end
  end.

(** The [while] of lines 261-287; the bytes land in [dummy_buffer_] and are
    never read again. *)
Fixpoint skip_forward (fuel : nat) (offset : Z) (s : St) : outcome bool St :=
  if last_read_data_offset_ s <? offset then
    match fuel with
    | O => OutOfFuel s
    | S fuel =>
        let s := set_reader_data_size
                   (Z.max (Z.min (offset - last_read_data_offset_ s)
                                 (kMaximumDataChunkSize K))
                          (kMinimumDataChunkSize K)) s in
        let '(size, _, s) :=
          read_data (Z.min (offset - last_read_data_offset_ s)
                           (kDummyBufferSize K)) s in
        if negb (PP_DCHECK (negb (size =? 0))) then Stop s
        else if size <? 0 then Ret false (fail_read_data s)
        else skip_forward fuel offset
               (set_last_read_data_offset (last_read_data_offset_ s + size) s)
    end
  else Ret true s.

(** The [do ... while] of lines 305-316: [None] when the function returned
    on an error, the final [bytes_read] otherwise. *)
Fixpoint copy_data (fuel : nat) (bytes_read left_length : Z) (s : St)
    : outcome (option Z) St :=
  match fuel with
  | O => OutOfFuel s
  | S fuel =>
      let '(size, data, s) := read_data left_length s in
      let s := set_decompressed_data_buffer
                 (write_at (decompressed_data_buffer_ s) bytes_read data) s in
      if size <? 0 then Ret None (fail_read_data s)
      else
        let bytes_read := bytes_read + size in
        let left_length := left_length - size in
        if (0 <? left_length) && negb (size =? 0)
        then copy_data fuel bytes_read left_length s
        else Ret (Some bytes_read) s
  end.

(** Lines 257-324: skip up to [offset], then fill the window. *)
Definition decompress_from_cursor (fuel : nat) (offset length : Z) (s : St)
    : outcome unit St :=
  bind (skip_forward fuel offset s)
    (fun go_on s =>
       if negb go_on then Ret tt s
       else
         let left_length := Z.min length (kDecompressBufferSize K) in
         let s := set_reader_data_size
                    (Z.max (Z.min left_length (kMaximumDataChunkSize K))
                           (kMinimumDataChunkSize K)) s in
         bind (copy_data fuel 0 left_length s)
           (fun bytes_read s =>
              match bytes_read with
              | None => Ret tt s
              | Some bytes_read =>
                  Ret tt (set_decompressed_data_size bytes_read
                            (set_decompressed_data (Some 0) s))
              end)).

(** Lines 206-324.  [fuel] bounds the iterations of each of the three loops. *)
Definition DecompressData (fuel : nat) (offset length : Z) (s : St)
    : outcome unit St :=
  let s := set_header_read false s in
  bind (if offset <? last_read_data_offset_ s then rewind fuel s else Ret true s)
    (fun go_on s =>
       if negb go_on then Ret tt s
       else decompress_from_cursor fuel offset length s).

(** Lines 326-339. *)
Definition Cleanup (s : St) : bool * St :=
  let '(returnValue, s) :=
    match archive_ s with
    | Some _ =>
        let '(r, s) := call read_free s in
        if negb (r =? ARCHIVE_OK) then
          (false,
           set_error_message (ArchiveError (kArchiveReadFreeErrorPrefix K) s) s)
        else (true, s)
    | None => (true, s)
    end in
  let s := set_archive None s in
  let s := called (CleanupReader (world s)) ECleanupReader s in
  (returnValue, s).

(** The condition of line 357. *)
Definition window_invalid (offset : Z) (s : St) : bool :=
  match decompressed_data_ s with None => true | Some _ => false end
  || negb (last_read_data_offset_ s =? offset)
  || (decompressed_data_size_ s =? 0).

(** Lines 361-380: hand out the head of the window.  The result is the
    returned count and [*buffer], an index into [decompressed_data_buffer_];
    arithmetic on a null [decompressed_data_] is undefined. *)
Definition deliver (length : Z) (s : St) : outcome (Z * option Z) St :=
  if decompressed_error_ s then Ret (kArchiveReadDataError, None) s
  else
    let s := set_last_read_data_length length s in
    match decompressed_data_ s with
    | None => Stop s
    | Some p =>
        let read_bytes := Z.min (decompressed_data_size_ s) length in
        let s := set_decompressed_data (Some (p + read_bytes)) s in
        let s := set_decompressed_data_size
                   (decompressed_data_size_ s - read_bytes) s in
        let s := set_last_read_data_offset
                   (last_read_data_offset_ s + read_bytes) s in
        if negb (PP_DCHECK (p + read_bytes + decompressed_data_size_ s
                            <=? kDecompressBufferSize K))
        then Stop s
        else Ret (read_bytes, Some p) s
    end.

(** Lines 341-381.  Reading the size of a null entry is undefined. *)
Definition ReadData (fuel : nat) (offset length : Z) (s : St)
    : outcome (Z * option Z) St :=
  if negb (PP_DCHECK (0 <? length)) then Stop s
  else
    match current_archive_entry_ s with
    | None => Stop s
    | Some e =>
        if archive_entry_size e <=? offset then Ret (0, None) s
        else
          bind (if window_invalid offset s
                then DecompressData fuel offset length s else Ret tt s)
            (fun _ s => deliver length s)
    end.

(** Lines 383-386. *)
Definition MaybeDecompressAhead (fuel : nat) (s : St) : outcome unit St :=
  if decompressed_data_size_ s =? 0 then
    DecompressData fuel (last_read_data_offset_ s) (last_read_data_length_ s) s
  else Ret tt s.

(** The bytes a caller finds at [*buffer] after [ReadData] returned [n]. *)
Definition delivered (r : Z * option Z) (s : St) : list byte :=
  match r with
  | (n, Some p) =>
      take (Z.to_nat n) (drop (Z.to_nat p) (decompressed_data_buffer_ s))
  | (_, None) => []
  end.
End Coordinator.

(** ** Instances used to run the definitions *)

(** Modelled from the spec: a [VolumeReader] (the ByteSource contract) over an
    in-memory volume, which either works or fails every call; a failed [Skip]
    returns 0 and a failed [Read], [Seek] or [Close] returns [ARCHIVE_FATAL]. *)
Record memory_reader := MemoryReader {
  volume_bytes : list byte;
  volume_offset : Z;
  volume_ok : bool
}.

#[export] Instance memory_reader_VolumeReader : VolumeReader memory_reader := {
  GetOffset r := volume_offset r;
  Read n r :=
    if volume_ok r then
      let chunk := take (Z.to_nat n) (drop (Z.to_nat (volume_offset r)) (volume_bytes r)) in
      (Z.of_nat (length chunk), chunk,
       MemoryReader (volume_bytes r) (volume_offset r + Z.of_nat (length chunk)) true)
    else (ARCHIVE_FATAL, [], r);
  Skip n r :=
    if volume_ok r then (n, MemoryReader (volume_bytes r) (volume_offset r + n) true)
    else (0, r);
  Seek offset whence r :=
    if volume_ok r then (offset, MemoryReader (volume_bytes r) offset true)
    else (ARCHIVE_FATAL, r);
  Close r := if volume_ok r then (ARCHIVE_OK, r) else (ARCHIVE_FATAL, r)
}.

(** Modelled from the spec: a [HeaderCache] (lookup by offset, store at an
    offset) that keeps every header it is given. *)
#[export] Instance gmap_HeaderCache : HeaderCache (gmap Z (list byte)) := {
  GetHeader offset c := c !! offset;
  AddHeader offset buffer n c := <[offset := take (Z.to_nat n) buffer]> c
}.

(** Modelled from the spec: the sequential codec, which libarchive implements
    outside the file.  It is strictly forward-only over an archive given as the
    list of its entries, each with its decoded bytes: opening the archive
    starts before its first entry, a header moves to the next entry, a data
    pull hands out the next bytes of the current entry and [0] at its end.
    The status of [archive_read_free] is a field, to exercise the failure
    paths.  A negative length reaches [archive_read_data] as a huge [size_t]:
    the pull then hands out all that is left. *)
Record reference_codec := Codec {
  codec_files : list (archive_entry * list byte);
  codec_pending : list (archive_entry * list byte);
  codec_data : list byte;
  codec_handles : nat;
  codec_free_result : Z
}.

Definition codec_pull (len : Z) (data : list byte) : nat :=
  if len <? 0 then length data else Nat.min (Z.to_nat len) (length data).

#[export] Instance reference_codec_Environment : Environment reference_codec := {
  archive_read_new w :=
    (Some (codec_handles w),
     Codec (codec_files w) (codec_pending w) (codec_data w)
           (S (codec_handles w)) (codec_free_result w));
  archive_call c a v w :=
    match c with
    | read_open1 =>
        (ARCHIVE_OK,
         Codec (codec_files w) (codec_files w) [] (codec_handles w)
               (codec_free_result w))
    | read_free => (codec_free_result w, w)
    | _ => (ARCHIVE_OK, w)
    end;
  archive_read_next_header a v w :=
    match codec_pending w with
    | [] =>
        (ARCHIVE_EOF, Entry None 0 0 0,
         Codec (codec_files w) [] [] (codec_handles w) (codec_free_result w))
    | (e, d) :: rest =>
        (ARCHIVE_OK, e,
         Codec (codec_files w) rest d (codec_handles w) (codec_free_result w))
    end;
  archive_read_data a v len w :=
    let n := codec_pull len (codec_data w) in
    (Z.of_nat n, take n (codec_data w),
     Codec (codec_files w) (codec_pending w) (drop n (codec_data w))
           (codec_handles w) (codec_free_result w));
  archive_error_string a w := String.EmptyString;
  reader_Seek offset whence w := (offset, w);
  CleanupReader w := w
}.

(** Modelled from the spec: a codec together with the position of the
    ByteSource it pulls from (the ByteSource must be re-seekable to offset 0
    for a reinitialisation).  The codec reaches the volume only through the
    pull callbacks, which read at the position of the reader:
    [archive_read_open1] finds an archive only when the reader stands at
    offset 0 and fails otherwise; a header or data pull leaves the reader
    [reader_data_size()] bytes further on when that is positive, the request
    of the read callback (lines 63-64); [Seek] with [SEEK_SET] moves the reader to the offset given,
    and with another origin to the offset the reader reports. *)
Record positioned (W : Type) := Positioned {
  codec_of : W;
  reader_offset : Z
}.
Arguments Positioned {W}.
Arguments codec_of {W}.
Arguments reader_offset {W}.

#[export] Instance positioned_Environment {W : Type} `{Environment W}
    : Environment (positioned W) := {
  archive_read_new m :=
    let '(a, w) := archive_read_new (codec_of m) in (a, Positioned w (reader_offset m));
  archive_call c a v m :=
    match c with
    | read_open1 =>
        if reader_offset m =? 0 then
          let '(r, w) := archive_call c a v (codec_of m) in
          (r, Positioned w (reader_offset m))
        else (ARCHIVE_FATAL, m)
    | _ =>
        let '(r, w) := archive_call c a v (codec_of m) in
        (r, Positioned w (reader_offset m))
    end;
  archive_read_next_header a v m :=
    let '(r, e, w) := archive_read_next_header a v (codec_of m) in
    (r, e, Positioned w (reader_offset m + Z.max 0 v.2));
  archive_read_data a v len m :=
    let '(size, data, w) := archive_read_data a v len (codec_of m) in
    (size, data, Positioned w (reader_offset m + Z.max 0 v.2));
  archive_error_string a m := archive_error_string a (codec_of m);
  reader_Seek offset whence m :=
    let '(r, w) := reader_Seek offset whence (codec_of m) in
    (r, Positioned w (if whence =? SEEK_SET then offset else r));
  CleanupReader m := Positioned (CleanupReader (codec_of m)) (reader_offset m)
}.

(** Modelled from the spec: the constants of [volume_archive_constants]; their
    values are a tuning choice, small ones are taken here. *)
Definition test_constants : volume_archive_constants := {|
  kHeaderChunkSize := 16;
  kMinimumDataChunkSize := 4;
  kMaximumDataChunkSize := 64;
  kDummyBufferSize := 8;
  kDecompressBufferSize := 8;
  kVolumeReaderError := "VolumeReader failed to retrieve data.";
  kArchiveReadNewError := "Could not allocate archive.";
  kArchiveSupportErrorPrefix := "Error at support rar/zip format: ";
  kArchiveOpenErrorPrefix := "Error at open archive: ";
  kArchiveNextHeaderErrorPrefix := "Error at reading next header for metadata: ";
  kArchiveReadDataErrorPrefix := "Error at reading data: ";
  kArchiveReadFreeErrorPrefix := "Error at archive free: ";
  kFileNotFound := "File not found for read data request."
|}.

Definition bytes_of (s : string) : list byte := String.list_byte_of_string s.

(** The archive of the specification's scenario: [a.txt] holds
    ["Hello World!"], [b.txt] holds ["Bye!!"]. *)
Definition file_entry (name : string) (content : string) : archive_entry * list byte :=
  (Entry (Some name) (Z.of_nat (length (bytes_of content))) 32768 0, bytes_of content).

Definition a_txt : archive_entry := Entry (Some "a.txt") 12 32768 0.

Definition two_files : list (archive_entry * list byte) :=
  [file_entry "a.txt" "Hello World!"; file_entry "b.txt" "Bye!!"].

Definition fresh_codec (files : list (archive_entry * list byte)) (free_result : Z)
    : reference_codec :=
  Codec files [] [] 0 free_result.

(** The entries before the one looked for carry other names. *)
Definition other_names (name : string) (files : list (archive_entry * list byte)) : Prop :=
  Forall (fun f => exists other,
              archive_entry_pathname f.1 = Some other /\ other <> name) files.

(** The public operations, to run a sequence of them from some state. *)
Inductive operation :=
| OpInit
| OpGetNextHeader
| OpReadData (offset length : Z)
| OpMaybeDecompressAhead
| OpCleanup.

Section Runs.
Context {W : Type} `{Environment W}.
Variable K : volume_archive_constants.
Variable dcheck : bool.

Definition perform (fuel : nat) (op : operation) (s : VolumeArchiveLibarchive W)
    : outcome unit (VolumeArchiveLibarchive W) :=
  match op with
  | OpInit => Ret tt (Init K s).2
  | OpGetNextHeader => Ret tt (GetNextHeader K (HeaderOut None 0 false 0) s).2
  | OpReadData offset length =>
      bind (ReadData K dcheck fuel offset length s) (fun _ s => Ret tt s)
  | OpMaybeDecompressAhead => MaybeDecompressAhead K dcheck fuel s
  | OpCleanup => Ret tt (Cleanup K s).2
  end.

(** A sequence of calls stops at the first one that does not return. *)
Fixpoint run (fuel : nat) (ops : list operation) (s : VolumeArchiveLibarchive W)
    : outcome unit (VolumeArchiveLibarchive W) :=
  match ops with
  | [] => Ret tt s
  | op :: ops => bind (perform fuel op s) (fun _ s => run fuel ops s)
  end.

(** The results of a sequence of [ReadData] calls, up to the first that does
    not return a count, and the state they leave. *)
Fixpoint read_all (fuel : nat) (requests : list (Z * Z)) (s : VolumeArchiveLibarchive W)
    : list Z * VolumeArchiveLibarchive W :=
  match requests with
  | [] => ([], s)
  | (offset, length) :: requests =>
      match ReadData K dcheck fuel offset length s with
      | Ret r s =>
          let '(rs, s) := read_all fuel requests s in (r.1 :: rs, s)
      | Stop s | OutOfFuel s => ([], s)
      end
  end.
End Runs.

(** How many times [Init] was entered: each entry calls [archive_read_new]. *)
Definition is_new (ev : event) : bool :=
  match ev with ENew _ => true | _ => false end.
Definition init_count (l : list event) : nat := length (filter is_new l).

Definition is_free (ev : event) : bool :=
  match ev with ECall read_free _ _ => true | _ => false end.
Definition free_count (l : list event) : nat := length (filter is_free l).

(** ** Scenarios *)

Definition no_out : header_out := HeaderOut None 0 false 0.

(** A new object over the two-file archive, with an 8-byte window. *)
Definition scenario_new (files : list (archive_entry * list byte)) (free_result : Z)
    : VolumeArchiveLibarchive reference_codec :=
  VolumeArchiveLibarchive_new test_constants (replicate 8 Byte.x00)
    (fresh_codec files free_result).

Definition scenario (files : list (archive_entry * list byte)) (free_result : Z)
    (ops : list operation) : VolumeArchiveLibarchive reference_codec :=
  final (run test_constants false 20 ops (scenario_new files free_result)).

(** A bridge over a working volume with an empty header cache, and one over
    a volume whose every call fails. *)
Definition working_bridge : bridge memory_reader (gmap Z (list byte)) :=
  Bridge (MemoryReader (bytes_of "PK12") 0 true) ∅ None [].

Definition broken_bridge : bridge memory_reader (gmap Z (list byte)) :=
  Bridge (MemoryReader (bytes_of "PK12") 0 false) ∅ None [].

(** [a.txt] is selected. *)
Definition at_a_txt : VolumeArchiveLibarchive reference_codec :=
  Eval vm_compute in scenario two_files ARCHIVE_OK [OpInit; OpGetNextHeader].

(** [a.txt] is selected and its first five bytes were read. *)
Definition after_hello : VolumeArchiveLibarchive reference_codec :=
  Eval vm_compute in
    scenario two_files ARCHIVE_OK [OpInit; OpGetNextHeader; OpReadData 0 5].

(** The same, with a codec whose release fails. *)
Definition after_hello_stuck : VolumeArchiveLibarchive reference_codec :=
  Eval vm_compute in
    scenario two_files ARCHIVE_FATAL [OpInit; OpGetNextHeader; OpReadData 0 5].

(** ... and a read below the cursor has failed on that release. *)
Definition poisoned : VolumeArchiveLibarchive reference_codec :=
  Eval vm_compute in
    scenario two_files ARCHIVE_FATAL
      [OpInit; OpGetNextHeader; OpReadData 0 5; OpReadData 2 1].

(** Four bytes of [a.txt] were read and four more decompressed ahead. *)
Definition read_ahead : VolumeArchiveLibarchive reference_codec :=
  Eval vm_compute in
    scenario two_files ARCHIVE_OK
      [OpInit; OpGetNextHeader; OpReadData 0 4; OpMaybeDecompressAhead].

(** The same over an archive whose second entry is empty. *)
Definition with_empty_file : list (archive_entry * list byte) :=
  [file_entry "a.txt" "Hello World!"; (Entry (Some "empty.txt") 0 32768 0, [])].

Definition read_ahead_before_empty : VolumeArchiveLibarchive reference_codec :=
  Eval vm_compute in
    scenario with_empty_file ARCHIVE_OK
      [OpInit; OpGetNextHeader; OpReadData 0 4; OpMaybeDecompressAhead].

(** A longer entry followed by a shorter one: four bytes of [a.txt] were read
    and four more decompressed ahead, then [c.txt] (one byte) was selected and
    a read at offset 0 was served from the four bytes left in the window.  The
    cursor is 4, past the end of [c.txt]. *)
Definition with_short_file : list (archive_entry * list byte) :=
  [file_entry "a.txt" "Hello World!"; file_entry "c.txt" "!"].

Definition stale_cursor : VolumeArchiveLibarchive reference_codec :=
  Eval vm_compute in
    scenario with_short_file ARCHIVE_OK
      [OpInit; OpGetNextHeader; OpReadData 0 4; OpMaybeDecompressAhead;
       OpGetNextHeader; OpReadData 0 5].

(** [a.txt] is selected and its first five bytes were read, over the
    reference codec with its reader: the reader stands past offset 0. *)
Definition positioned_after_hello
    : VolumeArchiveLibarchive (positioned reference_codec) :=
  Eval vm_compute in
    final (run test_constants false 20 [OpInit; OpGetNextHeader; OpReadData 0 5]
             (VolumeArchiveLibarchive_new test_constants (replicate 8 Byte.x00)
                (Positioned (fresh_codec two_files ARCHIVE_OK) 0))).

(** ** Vocabulary of the statements *)

(** The object over the codec alone, the position of the reader set aside. *)
Definition underlying {W : Type} (s : VolumeArchiveLibarchive (positioned W))
    : VolumeArchiveLibarchive W :=
  Volume (header_read_ s) (reader_data_size_ s) (archive_ s)
    (current_archive_entry_ s) (last_read_data_offset_ s)
    (last_read_data_length_ s) (decompressed_data_buffer_ s)
    (decompressed_data_ s) (decompressed_data_size_ s)
    (decompressed_error_ s) (error_message_ s) (codec_of (world s)) (log s).

Definition underlying_outcome {A W : Type}
    (o : outcome A (VolumeArchiveLibarchive (positioned W)))
    : outcome A (VolumeArchiveLibarchive W) :=
  match o with
  | Ret a s => Ret a (underlying s)
  | Stop s => Stop (underlying s)
  | OutOfFuel s => OutOfFuel (underlying s)
  end.

Definition is_add_header (ev : bridge_event) : bool :=
  match ev with BAddHeader _ _ _ => true | _ => false end.

(** The error channel was written by this very call, as its last action. *)
Definition error_installed {R C : Type} (K : volume_archive_constants)
    (b b' : bridge R C) : Prop :=
  archive_error b' = Some (EIO, kVolumeReaderError K)
  /\ exists evs, calls b' = calls b ++ evs ++ [BSetError EIO (kVolumeReaderError K)].

Section Vocabulary.
Context {W : Type} `{Environment W}.
Variable K : volume_archive_constants.

Abbreviation St := (VolumeArchiveLibarchive W).

(** The window, the length remembered for reading ahead and a raised error
    flag are as before. *)
Definition frame (s s' : St) : Prop :=
  decompressed_data_ s' = decompressed_data_ s
  /\ decompressed_data_size_ s' = decompressed_data_size_ s
  /\ decompressed_data_buffer_ s' = decompressed_data_buffer_ s
  /\ last_read_data_length_ s' = last_read_data_length_ s
  /\ (decompressed_error_ s = true -> decompressed_error_ s' = true).

(** The copy loop writes the buffer and nothing else of the window. *)
Definition frame_but_buffer (s s' : St) : Prop :=
  decompressed_data_ s' = decompressed_data_ s
  /\ decompressed_data_size_ s' = decompressed_data_size_ s
  /\ last_read_data_length_ s' = last_read_data_length_ s
  /\ last_read_data_offset_ s' = last_read_data_offset_ s
  /\ archive_ s' = archive_ s
  /\ current_archive_entry_ s' = current_archive_entry_ s
  /\ (decompressed_error_ s = true -> decompressed_error_ s' = true).

Definition is_read_data (ev : event) : bool :=
  match ev with EReadData _ _ _ => true | _ => false end.

(** The log of [c1(a) != ARCHIVE_OK || c2(a) != ARCHIVE_OK || ...]: the calls
    up to the first that fails, and whether one failed. *)
Inductive calls_log (a : option handle) : list codec_call -> bool -> list event -> Prop :=
| calls_done : calls_log a [] false []
| calls_ok c cs failed evs :
    calls_log a cs failed evs ->
    calls_log a (c :: cs) failed (ECall c a ARCHIVE_OK :: evs)
| calls_failed c cs r :
    r <> ARCHIVE_OK -> calls_log a (c :: cs) true [ECall c a r].

(** What [Init] logs after [archive_read_new] returned [a], and its result. *)
Definition init_log (a : option handle) (ok : bool) (evs : list event) : Prop :=
  match a with
  | None => ok = false /\ evs = []
  | Some _ =>
      exists failed,
        calls_log a (support_calls ++ open_calls) failed evs /\ ok = negb failed
  end.

(** How the replay of the headers ends. *)
Inductive replay_end := Found | NotFound | HeaderError | Unfinished.

(** The headers pulled while looking for the entry called [name]: entries with
    another name are passed over; the replay ends on the entry with that name,
    on the end of the archive (or an entry without a name), on a header that
    fails, or is still under way. *)
Inductive replay_log (name : string) (a : option handle)
    : list event -> replay_end -> Prop :=
| replay_unfinished : replay_log name a [] Unfinished
| replay_found e :
    archive_entry_pathname e = Some name ->
    replay_log name a [ENextHeader a ARCHIVE_OK e] Found
| replay_eof e : replay_log name a [ENextHeader a ARCHIVE_EOF e] NotFound
| replay_unnamed e :
    archive_entry_pathname e = None ->
    replay_log name a [ENextHeader a ARCHIVE_OK e] NotFound
| replay_failed r e :
    r <> ARCHIVE_EOF -> r <> ARCHIVE_OK ->
    replay_log name a [ENextHeader a r e] HeaderError
| replay_other e other evs k :
    archive_entry_pathname e = Some other -> other <> name ->
    replay_log name a evs k ->
    replay_log name a (ENextHeader a ARCHIVE_OK e :: evs) k.

(** What libarchive promises of [archive_read_data]: it never stores or
    reports more than the [len] bytes it was asked for, and the count it
    returns is the number of bytes it stored. *)
Definition pull_contract : Prop :=
  forall a v len w, 0 <= len ->
    let '(size, data, _) := archive_read_data a v len w in
    size <= len
    /\ Z.of_nat (length data) <= len
    /\ (0 <= size -> Z.of_nat (length data) = size).

(** The window lies inside the buffer of [kDecompressBufferSize] bytes:
    the [PP_DCHECK] of lines 376-378, with the size of the array. *)
Definition window_inv (s : St) : Prop :=
  Z.of_nat (length (decompressed_data_buffer_ s)) = kDecompressBufferSize K
  /\ 0 <= last_read_data_length_ s
  /\ match decompressed_data_ s with
     | None => decompressed_data_size_ s = 0
     | Some p =>
         0 <= p /\ 0 <= decompressed_data_size_ s
         /\ p + decompressed_data_size_ s <= kDecompressBufferSize K
     end.

(** Every [ReadData] of the sequence asks for at least one byte. *)
Definition positive_lengths (ops : list operation) : Prop :=
  Forall (fun op => match op with OpReadData _ length => 0 < length | _ => True end) ops.

(** The log and the end of a [DecompressData] that had to go backwards, for the
    entry called [name]: the codec is released first; when that fails nothing
    else is called; otherwise the reader is sent to offset 0 and [Init] runs;
    when [Init] succeeds the headers are replayed, and only when the entry is
    found again does the call go on to pull data. *)
Definition rewound (name : string) (fuel : nat) (s : St) (o : outcome unit St) : Prop :=
  exists r evs,
    log (final o) = log s ++ ECall read_free (archive_ s) r :: evs
    /\ (r <> ARCHIVE_OK ->
        evs = [] /\ o = Ret tt (final o) /\ decompressed_error_ (final o) = true)
    /\ (r = ARCHIVE_OK ->
        exists rs a ok inits rest,
          evs = ESeek 0 SEEK_SET rs :: ENew a :: inits ++ rest
          /\ init_log a ok inits
          /\ (ok = false ->
              rest = [] /\ o = Ret tt (final o)
              /\ decompressed_error_ (final o) = true)
          /\ (ok = true ->
              exists hdrs k tail,
                rest = hdrs ++ tail
                /\ replay_log name a hdrs k
                /\ match k with
                   | Found => forallb is_read_data tail = true
                   | NotFound =>
                       tail = [] /\ o = Ret tt (final o)
                       /\ decompressed_error_ (final o) = true
                       /\ error_message_ (final o) = kFileNotFound K
                   | HeaderError =>
                       tail = [] /\ o = Ret tt (final o)
                       /\ decompressed_error_ (final o) = true
                   | Unfinished =>
                       tail = [] /\ o = OutOfFuel (final o) /\ length hdrs = fuel
                   end)).

(** Each request starts at or after the place where the previous one stopped:
    [cursor] at first, then the previous offset plus the bytes it returned. *)
Fixpoint spaced (cursor : Z) (requests : list (Z * Z)) (results : list Z) : Prop :=
  match requests with
  | [] => True
  | (offset, _) :: requests =>
      cursor <= offset
      /\ match results with
         | [] => True
         | r :: results => spaced (offset + Z.max 0 r) requests results
         end
  end.
End Vocabulary.

(** ** Vocabulary of the further statements *)

Definition is_set_error (ev : bridge_event) : bool :=
  match ev with BSetError _ _ => true | _ => false end.

Definition is_read (ev : bridge_event) : bool :=
  match ev with BRead _ _ => true | _ => false end.

(** The callback left the error channel of the codec alone. *)
Definition error_untouched {R C : Type} (b b' : bridge R C) : Prop :=
  archive_error b' = archive_error b
  /\ exists evs, calls b' = calls b ++ evs
                 /\ forallb (fun ev => negb (is_set_error ev)) evs = true.

(** What a [HeaderCache] is for: a header stored at an offset is found there. *)
Definition cache_keeps_headers (C : Type) `{HeaderCache C} : Prop :=
  forall offset buffer n (c : C),
    GetHeader offset (AddHeader offset buffer n c) = Some (take (Z.to_nat n) buffer).

(** An environment that behaves as another one and records, for every
    [archive_read_data], what the callbacks would see during the call
    ([header_read()], [reader_data_size()]) and the length asked for. *)
Record monitored (W : Type) := Monitored {
  inner : W;
  pull_views : list (callback_view * Z)
}.
Arguments Monitored {W}.
Arguments inner {W}.
Arguments pull_views {W}.

#[export] Instance monitored_Environment {W : Type} `{Environment W}
    : Environment (monitored W) := {
  archive_read_new m :=
    let '(a, w) := archive_read_new (inner m) in (a, Monitored w (pull_views m));
  archive_call c a v m :=
    let '(r, w) := archive_call c a v (inner m) in (r, Monitored w (pull_views m));
  archive_read_next_header a v m :=
    let '(r, e, w) := archive_read_next_header a v (inner m) in
    (r, e, Monitored w (pull_views m));
  archive_read_data a v len m :=
    let '(size, data, w) := archive_read_data a v len (inner m) in
    (size, data, Monitored w (pull_views m ++ [(v, len)]));
  archive_error_string a m := archive_error_string a (inner m);
  reader_Seek offset whence m :=
    let '(r, w) := reader_Seek offset whence (inner m) in
    (r, Monitored w (pull_views m));
  CleanupReader m := Monitored (CleanupReader (inner m)) (pull_views m)
}.

Definition views {W : Type} (s : VolumeArchiveLibarchive (monitored W))
    : list (callback_view * Z) :=
  pull_views (world s).

(** A data pull outside the header phase, with a chunk size between the
    minimum and the maximum, for at most [most] bytes. *)
Definition data_view (K : volume_archive_constants) (most : Z)
    (v : callback_view * Z) : Prop :=
  v.1.1 = false
  /\ kMinimumDataChunkSize K <= v.1.2
  /\ (kMinimumDataChunkSize K <= kMaximumDataChunkSize K ->
      v.1.2 <= kMaximumDataChunkSize K)
  /\ v.2 <= most.

Section FurtherVocabulary.
Context {W : Type} `{Environment W}.
Variable K : volume_archive_constants.

Abbreviation St := (VolumeArchiveLibarchive W).

(** The state after calls that changed the world and nothing of the object. *)
Definition moved (w : W) (evs : list event) (s : St) : St :=
  Volume (header_read_ s) (reader_data_size_ s) (archive_ s)
    (current_archive_entry_ s) (last_read_data_offset_ s)
    (last_read_data_length_ s) (decompressed_data_buffer_ s)
    (decompressed_data_ s) (decompressed_data_size_ s)
    (decompressed_error_ s) (error_message_ s) w (log s ++ evs).

(** The calls of [Init] after [archive_read_new], in the order of the source. *)
Definition init_calls : list codec_call := support_calls ++ open_calls.

Definition all_ok (a : option handle) (cs : list codec_call) : list event :=
  map (fun c => ECall c a ARCHIVE_OK) cs.

(** The message [DecompressData] and its callees hand to [set_error_message]
    after the call [ev], when [ev] is a call they treat as a failure: a failed
    allocation, a format registration, a callback registration or an open that
    did not return [ARCHIVE_OK], a release that did not return [ARCHIVE_OK], a
    header that ended the archive, came without a pathname or failed, and a
    data pull that returned a negative count.  The error string of the codec
    is read with the handle and the world of [s'], the object once the message
    is set. *)
Definition failure_message (ev : event) (s' : St) : option string :=
  match ev with
  | ENew None => Some (kArchiveReadNewError K)
  | ECall c _ r =>
      if r =? ARCHIVE_OK then None
      else
        match c with
        | read_support_format_rar | read_support_format_zip =>
            Some (ArchiveError (kArchiveSupportErrorPrefix K) s')
        | read_free => Some (ArchiveError (kArchiveReadDataErrorPrefix K) s')
        | _ => Some (ArchiveError (kArchiveOpenErrorPrefix K) s')
        end
  | ENextHeader _ r e =>
      if r =? ARCHIVE_EOF then Some (kFileNotFound K)
      else if r =? ARCHIVE_OK then
        match archive_entry_pathname e with
        | None => Some (kFileNotFound K)
        | Some _ => None
        end
      else Some (ArchiveError (kArchiveNextHeaderErrorPrefix K) s')
  | EReadData _ _ size =>
      if size <? 0 then Some (ArchiveError (kArchiveReadDataErrorPrefix K) s')
      else None
  | _ => None
  end.

(** The last call made since [s] is one the file treats as a failure, and the
    error message of [s'] is the message for that call. *)
Definition names_the_failure (s s' : St) : Prop :=
  exists evs ev,
    log s' = log s ++ evs ++ [ev]
    /\ failure_message ev s' = Some (error_message_ s').

(** A step of [DecompressData] either went on with the error flag as it was,
    or made the function return with the flag raised and the message of the
    call that failed. *)
Definition clean_or_named {A : Type} (go_on : A -> bool) (s : St)
    (o : outcome A St) : Prop :=
  match o with
  | Ret a s' =>
      if go_on a then
        decompressed_error_ s' = decompressed_error_ s
        /\ exists evs, log s' = log s ++ evs
      else decompressed_error_ s' = true /\ names_the_failure s s'
  | Stop s' | OutOfFuel s' => decompressed_error_ s' = decompressed_error_ s
  end.

(** How a caller lists an archive: headers are pulled until one comes back
    without a pathname (the end of the archive, the boolean is then true) or
    fails, at most [n] times. *)
Fixpoint list_entries (n : nat) (out : header_out) (s : St)
    : list header_out * bool :=
  match n with
  | O => ([], false)
  | S n =>
      let '(ok, out, s) := GetNextHeader K out s in
      if ok then
        match out_pathname out with
        | None => ([], true)
        | Some _ =>
            let '(entries, ended) := list_entries n out s in (out :: entries, ended)
        end
      else ([], false)
  end.

(** How a caller reads an entry from the cursor on: [ReadData] at the cursor
    for [len] bytes, then [MaybeDecompressAhead], until [ReadData] returns no
    byte, at most [rounds] times. *)
Fixpoint read_whole (dcheck : bool) (rounds fuel : nat) (len : Z) (s : St)
    : list byte :=
  match rounds with
  | O => []
  | S rounds =>
      match ReadData K dcheck fuel (last_read_data_offset_ s) len s with
      | Ret (n, p) s =>
          if n <=? 0 then []
          else
            delivered (n, p) s
            ++ match MaybeDecompressAhead K dcheck fuel s with
               | Ret _ s => read_whole dcheck rounds fuel len s
               | Stop _ | OutOfFuel _ => []
               end
      | Stop _ | OutOfFuel _ => []
      end
  end.

End FurtherVocabulary.

(** What [GetNextHeader] hands out for an entry. *)
Definition header_of (f : archive_entry * list byte) : header_out :=
  HeaderOut (archive_entry_pathname f.1) (archive_entry_size f.1)
            (S_ISDIR (archive_entry_filetype f.1)) (archive_entry_mtime f.1).

(** The object and the reference codec agree on where they are in the entry
    whose bytes are [d]: the window holds the bytes of [d] at the cursor, and
    the codec stands right after them. *)
Definition in_sync (K : volume_archive_constants) (d : list byte)
    (s : VolumeArchiveLibarchive reference_codec) : Prop :=
  let c := last_read_data_offset_ s in
  let w := decompressed_data_size_ s in
  (exists e, current_archive_entry_ s = Some e
             /\ archive_entry_size e = Z.of_nat (length d))
  /\ decompressed_error_ s = false
  /\ 0 <= c /\ 0 <= w /\ c + w <= Z.of_nat (length d)
  /\ codec_data (world s) = drop (Z.to_nat (c + w)) d
  /\ (w = 0
      \/ exists p,
           decompressed_data_ s = Some p
           /\ 0 <= p /\ p + w <= kDecompressBufferSize K
           /\ take (Z.to_nat w) (drop (Z.to_nat p) (decompressed_data_buffer_ s))
              = take (Z.to_nat w) (drop (Z.to_nat c) d)).

(** [a.txt] is selected and its first five bytes were read, over a codec
    that records what the callbacks would see. *)
Definition monitored_after_hello : VolumeArchiveLibarchive (monitored reference_codec) :=
  final (run test_constants false 20 [OpInit; OpGetNextHeader; OpReadData 0 5]
           (VolumeArchiveLibarchive_new test_constants (replicate 8 Byte.x00)
              (Monitored (fresh_codec two_files ARCHIVE_OK) []))).

(** * Properties *)

(** ** The pull callbacks *)

Section CallbackProperties.
Context {R C : Type} `{VolumeReader R} `{HeaderCache C}.
Variable K : volume_archive_constants.

Lemma CustomArchiveRead_uncached_spec (header_read : bool) (reader_data_size : Z)
    (b : bridge R C) :
  let offset := GetOffset (reader b) in
  let '(read_bytes, buffer, r) := Read reader_data_size (reader b) in
  exists b' tail,
    CustomArchiveRead_uncached K header_read reader_data_size b
      = (read_bytes, buffer, b')
    /\ reader b' = r
    /\ calls b' = calls b ++ BRead reader_data_size read_bytes :: tail
    /\ (header_read = true /\ 0 < read_bytes ->
        tail = [BAddHeader offset buffer read_bytes]
        /\ header_cache b' = AddHeader offset buffer read_bytes (header_cache b))
    /\ (~ (header_read = true /\ 0 < read_bytes) ->
        forallb (fun ev => negb (is_add_header ev)) tail = true
        /\ header_cache b' = header_cache b).
Proof.
  intros offset. unfold CustomArchiveRead_uncached. fold offset.
  destruct (Read reader_data_size (reader b)) as [[read_bytes buffer] r].
  destruct (read_bytes =? ARCHIVE_FATAL) eqn:Hfatal.
  - apply Z.eqb_eq in Hfatal. subst read_bytes.
    eexists _, [BSetError EIO (kVolumeReaderError K)].
    split; [reflexivity|]. split; [reflexivity|].
    split; [cbn; rewrite <- app_assoc; reflexivity|].
    split; [intros [_ Hpos]; unfold ARCHIVE_FATAL in Hpos; lia|].
    intros _. split; reflexivity.
  - destruct header_read; cbn [andb].
    + destruct (0 <? read_bytes) eqn:Hpos.
      * apply Z.ltb_lt in Hpos.
        eexists _, [BAddHeader offset buffer read_bytes].
        split; [reflexivity|]. split; [reflexivity|].
        split; [cbn; rewrite <- app_assoc; reflexivity|].
        split; [intros _; split; reflexivity|].
        intros Hn. exfalso. apply Hn. split; [reflexivity | lia].
      * apply Z.ltb_ge in Hpos.
        eexists _, [].
        split; [reflexivity|]. split; [reflexivity|]. split; [reflexivity|].
        split; [intros [_ Hp]; lia|].
        intros _. split; reflexivity.
    + eexists _, [].
      split; [reflexivity|]. split; [reflexivity|]. split; [reflexivity|].
      split; [intros [Hhr _]; discriminate|].
      intros _. split; reflexivity.
Qed.

(** C6. Every invocation of the pull-read callback: when the header-phase
    flag is set and the cache holds bytes for the current offset of the
    reader, these bytes are returned after skipping exactly their count on
    the reader (a skip of any other count is fatal), without any read and
    without touching the cache; otherwise the offset is taken before the
    read, the read asks for the hinted chunk size, and what was read is
    stored at that offset exactly when the flag is set and the read returned
    more than 0 bytes. *)
Theorem CustomArchiveRead_cache_then_read (header_read : bool) (reader_data_size : Z)
    (b : bridge R C) :
  let offset := GetOffset (reader b) in
  match (if header_read then GetHeader offset (header_cache b) else None) with
  | Some cached =>
      let n := Z.of_nat (length cached) in
      let '(skipped, r) := Skip n (reader b) in
      exists b',
        CustomArchiveRead K header_read reader_data_size b
          = (if skipped =? n then n else ARCHIVE_FATAL, cached, b')
        /\ reader b' = r
        /\ header_cache b' = header_cache b
        /\ calls b' = calls b ++ BSkip n skipped ::
                        (if skipped =? n then []
                         else [BSetError EIO (kVolumeReaderError K)])
  | None =>
      let '(read_bytes, buffer, r) := Read reader_data_size (reader b) in
      exists b' tail,
        CustomArchiveRead K header_read reader_data_size b = (read_bytes, buffer, b')
        /\ reader b' = r
        /\ calls b' = calls b ++ BRead reader_data_size read_bytes :: tail
        /\ (header_read = true /\ 0 < read_bytes ->
            tail = [BAddHeader offset buffer read_bytes]
            /\ header_cache b' = AddHeader offset buffer read_bytes (header_cache b))
        /\ (~ (header_read = true /\ 0 < read_bytes) ->
            forallb (fun ev => negb (is_add_header ev)) tail = true
            /\ header_cache b' = header_cache b)
  end.
Proof.
  intros offset. unfold CustomArchiveRead. fold offset.
  destruct header_read.
  - destruct (GetHeader offset (header_cache b)) as [cached|] eqn:Hcache.
    + cbn zeta.
      destruct (Skip (Z.of_nat (length cached)) (reader b)) as [skipped r].
      destruct (skipped =? Z.of_nat (length cached)).
      * eexists. repeat split; reflexivity.
      * eexists. repeat split; try reflexivity.
        cbn. rewrite <- app_assoc. reflexivity.
    + apply (CustomArchiveRead_uncached_spec true reader_data_size b).
  - apply (CustomArchiveRead_uncached_spec false reader_data_size b).
Qed.

(** C7. The pull-read, pull-seek and pull-close callbacks never return
    [ARCHIVE_FATAL] without having called [archive_set_error] first: when
    the result is fatal, the error channel holds the reader error and
    setting it was the last thing the callback did. *)
Theorem callbacks_set_error_before_fatal (b : bridge R C) :
  (forall header_read reader_data_size result buffer b',
      CustomArchiveRead K header_read reader_data_size b = (result, buffer, b') ->
      result = ARCHIVE_FATAL -> error_installed K b b')
  /\ (forall offset whence result b',
      CustomArchiveSeek K offset whence b = (result, b') ->
      result = ARCHIVE_FATAL -> error_installed K b b')
  /\ (forall result b',
      CustomArchiveClose K b = (result, b') ->
      result = ARCHIVE_FATAL -> error_installed K b b').
Proof.
  assert (Hunc : forall header_read reader_data_size result buffer b',
             CustomArchiveRead_uncached K header_read reader_data_size b
               = (result, buffer, b') ->
             result = ARCHIVE_FATAL -> error_installed K b b').
  { intros hr rds result buffer b'. unfold CustomArchiveRead_uncached.
    destruct (Read rds (reader b)) as [[read_bytes buf] r].
    destruct (read_bytes =? ARCHIVE_FATAL) eqn:Hfatal.
    - intros [= <- <- <-] _. split; [reflexivity|].
      exists [BRead rds read_bytes]. cbn. rewrite <- app_assoc. reflexivity.
    - apply Z.eqb_neq in Hfatal.
      destruct (hr && (0 <? read_bytes)); intros [= <- <- <-] Hr; contradiction. }
  split; [|split].
  - intros hr rds result buffer b'. unfold CustomArchiveRead.
    destruct hr; [|apply Hunc].
    destruct (GetHeader (GetOffset (reader b)) (header_cache b)) as [cached|];
      [|apply Hunc].
    destruct (Skip (Z.of_nat (length cached)) (reader b)) as [skipped r].
    destruct (skipped =? Z.of_nat (length cached)).
    + intros [= <- <- <-] Hr. unfold ARCHIVE_FATAL in Hr. lia.
    + intros [= <- <- <-] _. split; [reflexivity|].
      eexists [_]. cbn. rewrite <- app_assoc. reflexivity.
  - intros offset whence result b'. unfold CustomArchiveSeek.
    destruct (Seek offset whence (reader b)) as [new_offset r].
    intros [= <- <-] Hr. rewrite Hr. cbn. split; [reflexivity|].
    eexists [_]. cbn. rewrite <- app_assoc. reflexivity.
  - intros result b'. unfold CustomArchiveClose.
    destruct (Close (reader b)) as [res r].
    intros [= <- <-] Hr. rewrite Hr. cbn. split; [reflexivity|].
    eexists [_]. cbn. rewrite <- app_assoc. reflexivity.
Qed.
End CallbackProperties.

(** ** The coordinator: what each step leaves alone *)

Section CoordinatorFrames.
Context {W : Type} `{Environment W}.
Variable K : volume_archive_constants.
Variable dcheck : bool.

Abbreviation St := (VolumeArchiveLibarchive W).

Lemma frame_refl (s : St) : frame s s.
Proof. unfold frame. auto. Qed.

Lemma frame_trans (s1 s2 s3 : St) : frame s1 s2 -> frame s2 s3 -> frame s1 s3.
Proof. unfold frame. intuition congruence. Qed.

Lemma call_frame c s : frame s (call c s).2.
Proof.
  unfold call. destruct (archive_call _ _ _ _) as [r w]. cbn.
  unfold frame. cbn. auto.
Qed.

Lemma any_call_fails_frame cs s : frame s (any_call_fails cs s).2.
Proof.
  revert s. induction cs as [|c cs IH]; intros s; cbn [any_call_fails].
  - apply frame_refl.
  - pose proof (call_frame c s) as Hc.
    destruct (call c s) as [r s1]. cbn in Hc.
    destruct (r =? ARCHIVE_OK); [|exact Hc].
    eapply frame_trans; [exact Hc | apply IH].
Qed.

Lemma Init_frame s : frame s (Init K s).2.
Proof.
  unfold Init. destruct (archive_read_new (world s)) as [a w].
  set (s1 := set_archive a (called w (ENew a) s)).
  assert (H1 : frame s s1) by (unfold frame; cbn; auto).
  destruct a as [a|]; [|unfold frame in *; cbn; intuition].
  pose proof (any_call_fails_frame support_calls s1) as H2.
  destruct (any_call_fails support_calls s1) as [failed s2]. cbn in H2.
  destruct failed.
  { cbn. eapply frame_trans; [exact H1|]. unfold frame in *. cbn. intuition. }
  set (s3 := set_header_read true s2).
  assert (H3 : frame s2 s3) by (unfold frame; cbn; auto).
  pose proof (any_call_fails_frame open_calls s3) as H4.
  destruct (any_call_fails open_calls s3) as [failed s4]. cbn in H4.
  assert (H5 : frame s s4) by eauto using frame_trans.
  destruct failed; cbn; [|exact H5].
  unfold frame in *. cbn. intuition.
Qed.

Lemma GetNextHeader_frame out s : frame s (GetNextHeader K out s).2.
Proof.
  unfold GetNextHeader. cbn.
  destruct (archive_read_next_header _ _ _) as [[r e] w].
  destruct (r =? ARCHIVE_EOF); [unfold frame; cbn; auto|].
  destruct (r =? ARCHIVE_OK); unfold frame; cbn; auto.
Qed.

Lemma read_data_frame len s : frame s (read_data len s).2.
Proof.
  unfold read_data. destruct (archive_read_data _ _ _ _) as [[size data] w].
  unfold frame. cbn. auto.
Qed.

Lemma fail_read_data_frame s : frame s (fail_read_data K s).
Proof. unfold frame. cbn. auto. Qed.

Lemma raise_frame (s : St) : frame s (set_decompressed_error true s).
Proof. unfold frame. cbn. auto. Qed.

Lemma replay_headers_frame fuel name out s :
  frame s (final (replay_headers K fuel name out s)).
Proof.
  revert out s. induction fuel as [|fuel IH]; intros out s; cbn [replay_headers].
  - apply frame_refl.
  - pose proof (GetNextHeader_frame out s) as Hh.
    destruct (GetNextHeader K out s) as [[ok out'] s1]. cbn in Hh.
    destruct ok; cbn [negb].
    + destruct (out_pathname out') as [path_name|].
      * destruct (String.eqb name path_name); cbn [final]; [exact Hh|].
        eapply frame_trans; [exact Hh | apply IH].
      * cbn [final]. eapply frame_trans; [exact Hh|].
        unfold frame. cbn. auto.
    + cbn [final]. eapply frame_trans; [exact Hh | apply raise_frame].
Qed.

Lemma rewind_frame fuel s : frame s (final (rewind K fuel s)).
Proof.
  unfold rewind.
  destruct (current_archive_entry_ s) as [e|]; [|apply frame_refl].
  destruct (archive_entry_pathname e) as [name|]; [|apply frame_refl].
  pose proof (call_frame read_free s) as H1.
  destruct (call read_free s) as [r s1]. cbn in H1.
  destruct (r =? ARCHIVE_OK); cbn [negb].
  - destruct (reader_Seek 0 SEEK_SET (world s1)) as [rs w].
    set (s2 := called w (ESeek 0 SEEK_SET rs) s1).
    assert (H2 : frame s1 s2) by (unfold frame; cbn; auto).
    pose proof (Init_frame s2) as H3.
    destruct (Init K s2) as [ok s3]. cbn in H3.
    destruct ok; cbn [negb].
    + eapply frame_trans; [|apply replay_headers_frame].
      eauto using frame_trans.
    + cbn [final]. eauto using frame_trans, raise_frame.
  - cbn [final]. eauto using frame_trans, fail_read_data_frame.
Qed.

Lemma skip_forward_frame fuel offset s :
  frame s (final (skip_forward K dcheck fuel offset s)).
Proof.
  revert s. induction fuel as [|fuel IH]; intros s; cbn [skip_forward];
    destruct (last_read_data_offset_ s <? offset); try apply frame_refl.
  set (s1 := set_reader_data_size _ s).
  assert (H1 : frame s s1) by (unfold frame; cbn; auto).
  pose proof (read_data_frame
                (Z.min (offset - last_read_data_offset_ s1) (kDummyBufferSize K)) s1)
    as H2.
  destruct (read_data _ s1) as [[size data] s2]. cbn in H2.
  assert (H3 : frame s s2) by eauto using frame_trans.
  destruct (negb (PP_DCHECK dcheck (negb (size =? 0)))); [exact H3|].
  destruct (size <? 0); cbn [final].
  - eauto using frame_trans, fail_read_data_frame.
  - eapply frame_trans; [|apply IH].
    eapply frame_trans; [exact H3|]. unfold frame. cbn. auto.
Qed.

Lemma copy_data_frame fuel bytes_read left_length s :
  frame_but_buffer s (final (copy_data K fuel bytes_read left_length s)).
Proof.
  revert bytes_read left_length s.
  induction fuel as [|fuel IH]; intros bytes_read left_length s; cbn [copy_data].
  - unfold frame_but_buffer. cbn. auto 10.
  - unfold read_data.
    destruct (archive_read_data _ _ _ _) as [[size data] w].
    set (s1 := set_decompressed_data_buffer _ _).
    assert (H1 : frame_but_buffer s s1) by (unfold frame_but_buffer; cbn; auto 10).
    destruct (size <? 0); cbn [final].
    + unfold frame_but_buffer in *. cbn. intuition.
    + destruct ((0 <? left_length - size) && negb (size =? 0)); cbn [final];
        [|exact H1].
      specialize (IH (bytes_read + size) (left_length - size) s1).
      unfold frame_but_buffer in *. intuition congruence.
Qed.
End CoordinatorFrames.

(** ** The coordinator: what each step logs *)

Section CoordinatorLogs.
Context {W : Type} `{Environment W}.
Variable K : volume_archive_constants.
Variable dcheck : bool.

Abbreviation St := (VolumeArchiveLibarchive W).

Lemma any_call_fails_log cs (s : St) :
  let '(failed, s') := any_call_fails cs s in
  exists evs, log s' = log s ++ evs
    /\ calls_log (archive_ s) cs failed evs
    /\ archive_ s' = archive_ s
    /\ header_read_ s' = header_read_ s
    /\ decompressed_error_ s' = decompressed_error_ s.
Proof.
  revert s. induction cs as [|c cs IH]; intros s; cbn [any_call_fails].
  - exists []. rewrite app_nil_r. repeat split. constructor.
  - unfold call. destruct (archive_call c _ _ _) as [r w] eqn:Hc.
    set (s1 := called w _ s).
    destruct (r =? ARCHIVE_OK) eqn:Hr.
    + apply Z.eqb_eq in Hr. subst r.
      specialize (IH s1). destruct (any_call_fails cs s1) as [failed s2].
      destruct IH as (evs & Hlog & Hcalls & Ha & Hh & He).
      exists (ECall c (archive_ s) ARCHIVE_OK :: evs).
      rewrite Hlog. cbn. rewrite <- app_assoc.
      repeat split; try assumption. constructor. exact Hcalls.
    + apply Z.eqb_neq in Hr.
      exists [ECall c (archive_ s) r]. cbn. repeat split. constructor. exact Hr.
Qed.

Lemma calls_log_app a cs1 cs2 evs1 evs2 failed :
  calls_log a cs1 false evs1 -> calls_log a cs2 failed evs2 ->
  calls_log a (cs1 ++ cs2) failed (evs1 ++ evs2).
Proof.
  intros H1 H2. remember false as f eqn:Hf.
  induction H1; subst; cbn; [assumption | constructor; auto | discriminate].
Qed.

Lemma calls_log_app_failed a cs1 cs2 evs1 :
  calls_log a cs1 true evs1 -> calls_log a (cs1 ++ cs2) true evs1.
Proof.
  intros H1. remember true as f eqn:Hf.
  induction H1; subst; cbn; [discriminate | constructor; auto | constructor; auto].
Qed.

Lemma Init_log (s : St) :
  let '(ok, s') := Init K s in
  exists evs, log s' = log s ++ ENew (archive_ s') :: evs
    /\ init_log (archive_ s') ok evs
    /\ decompressed_error_ s' = decompressed_error_ s
    /\ (ok = true -> header_read_ s' = true /\ archive_ s' <> None).
Proof.
  unfold Init. destruct (archive_read_new (world s)) as [a w].
  set (s1 := set_archive a (called w (ENew a) s)).
  destruct a as [a|].
  - pose proof (any_call_fails_log support_calls s1) as H1.
    destruct (any_call_fails support_calls s1) as [failed s2].
    destruct H1 as (evs1 & Hl1 & Hc1 & Ha1 & Hh1 & He1).
    destruct failed.
    + exists evs1. cbn. rewrite Hl1, Ha1. cbn. rewrite <- app_assoc.
      repeat split; try assumption; [|discriminate|discriminate].
      exists true. split; [|reflexivity].
      apply (calls_log_app_failed _ support_calls open_calls). exact Hc1.
    + pose proof (any_call_fails_log open_calls (set_header_read true s2)) as H2.
      destruct (any_call_fails open_calls (set_header_read true s2)) as [failed s3].
      destruct H2 as (evs2 & Hl2 & Hc2 & Ha2 & Hh2 & He2).
      cbn in Hl2, Hc2, Ha2, Hh2, He2.
      assert (Hlog : log s3 = log s ++ ENew (Some a) :: evs1 ++ evs2).
      { rewrite Hl2, Hl1. cbn. rewrite <- !app_assoc. reflexivity. }
      assert (Hcalls : calls_log (Some a) (support_calls ++ open_calls) failed
                         (evs1 ++ evs2)).
      { rewrite Ha1 in Hc2. apply calls_log_app; assumption. }
      assert (Harch : archive_ s3 = Some a) by (rewrite Ha2, Ha1; reflexivity).
      destruct failed; cbn; rewrite Harch.
      * exists (evs1 ++ evs2). repeat split; try assumption; try discriminate.
        -- exists true. split; [assumption | reflexivity].
        -- rewrite He2, He1. reflexivity.
      * exists (evs1 ++ evs2). repeat split; try assumption; try discriminate.
        -- exists false. split; [assumption | reflexivity].
        -- rewrite He2, He1. reflexivity.
  - exists []. cbn. repeat split; discriminate.
Qed.

Lemma GetNextHeader_spec out (s : St) :
  let '(ok, out', s') := GetNextHeader K out s in
  exists r e,
    log s' = log s ++ [ENextHeader (archive_ s) r e]
    /\ archive_ s' = archive_ s
    /\ current_archive_entry_ s' = Some e
    /\ last_read_data_offset_ s' = 0
    /\ header_read_ s' = true
    /\ reader_data_size_ s' = kHeaderChunkSize K
    /\ decompressed_error_ s' = decompressed_error_ s
    /\ (r = ARCHIVE_EOF -> ok = true /\ out_pathname out' = None)
    /\ (r = ARCHIVE_OK -> ok = true /\ out_pathname out' = archive_entry_pathname e)
    /\ (r <> ARCHIVE_EOF -> r <> ARCHIVE_OK -> ok = false).
Proof.
  unfold GetNextHeader. cbn.
  destruct (archive_read_next_header _ _ _) as [[r e] w].
  destruct (r =? ARCHIVE_EOF) eqn:Heof.
  { apply Z.eqb_eq in Heof. exists r, e. cbn.
    repeat split; try reflexivity; intros; subst; try discriminate; congruence. }
  apply Z.eqb_neq in Heof.
  destruct (r =? ARCHIVE_OK) eqn:Hok.
  { apply Z.eqb_eq in Hok. exists r, e. cbn.
    repeat split; try reflexivity; intros; subst; try discriminate; congruence. }
  apply Z.eqb_neq in Hok. exists r, e. cbn.
  repeat split; try reflexivity; intros; subst; try discriminate; congruence.
Qed.

Lemma replay_headers_log fuel name out (s : St) :
  let o := replay_headers K fuel name out s in
  exists hdrs k,
    log (final o) = log s ++ hdrs
    /\ replay_log name (archive_ s) hdrs k
    /\ archive_ (final o) = archive_ s
    /\ match k with
       | Found =>
           o = Ret true (final o)
           /\ (exists e, current_archive_entry_ (final o) = Some e
                         /\ archive_entry_pathname e = Some name)
           /\ last_read_data_offset_ (final o) = 0
           /\ decompressed_error_ (final o) = decompressed_error_ s
       | NotFound =>
           o = Ret false (final o)
           /\ decompressed_error_ (final o) = true
           /\ error_message_ (final o) = kFileNotFound K
       | HeaderError =>
           o = Ret false (final o) /\ decompressed_error_ (final o) = true
       | Unfinished => o = OutOfFuel (final o) /\ length hdrs = fuel
       end.
Proof.
  revert out s. induction fuel as [|fuel IH]; intros out s; cbn [replay_headers].
  - exists [], Unfinished. cbn. rewrite app_nil_r. repeat split. constructor.
  - pose proof (GetNextHeader_spec out s) as Hh.
    destruct (GetNextHeader K out s) as [[ok out'] s1].
    destruct Hh as (r & e & Hlog & Ha & Hcur & Hoff & _ & _ & Herr & Heof & Hok & Hbad).
    destruct (Z.eq_dec r ARCHIVE_EOF) as [Er|Er].
    { destruct (Heof Er) as [-> Hp]. cbn [negb]. rewrite Hp. subst r.
      exists [ENextHeader (archive_ s) ARCHIVE_EOF e], NotFound. cbn.
      repeat split; try assumption. constructor. }
    destruct (Z.eq_dec r ARCHIVE_OK) as [Eo|Eo].
    { destruct (Hok Eo) as [-> Hp]. cbn [negb]. rewrite Hp. subst r.
      destruct (archive_entry_pathname e) as [path_name|] eqn:Hname.
      - destruct (String.eqb name path_name) eqn:Hcmp.
        + apply String.eqb_eq in Hcmp. subst path_name.
          exists [ENextHeader (archive_ s) ARCHIVE_OK e], Found. cbn.
          repeat split; try assumption; [constructor; assumption | eauto].
        + apply String.eqb_neq in Hcmp.
          specialize (IH out' s1). cbv zeta in IH.
          destruct IH as (hdrs & k & Hl & Hr & Haa & Hk).
          exists (ENextHeader (archive_ s) ARCHIVE_OK e :: hdrs), k.
          rewrite Hl, Hlog, <- app_assoc. cbn [app].
          split; [reflexivity|]. split.
          { rewrite Ha in Hr. eapply replay_other; eauto. }
          split; [congruence|].
          destruct k; cbn [length]; intuition congruence.
      - exists [ENextHeader (archive_ s) ARCHIVE_OK e], NotFound. cbn.
        repeat split; try assumption. apply replay_unnamed. assumption. }
    rewrite (Hbad Er Eo). cbn [negb].
    exists [ENextHeader (archive_ s) r e], HeaderError. cbn.
    repeat split; try assumption. constructor; assumption.
Qed.

Lemma skip_forward_log fuel offset (s : St) :
  exists evs,
    log (final (skip_forward K dcheck fuel offset s)) = log s ++ evs
    /\ forallb is_read_data evs = true.
Proof.
  revert s. induction fuel as [|fuel IH]; intros s; cbn [skip_forward];
    destruct (last_read_data_offset_ s <? offset);
    try (exists []; cbn; rewrite app_nil_r; split; reflexivity).
  unfold read_data. cbn.
  destruct (archive_read_data _ _ _ _) as [[size data] w].
  set (ev := EReadData _ _ _).
  destruct (negb (PP_DCHECK dcheck (negb (size =? 0)))).
  { exists [ev]. cbn. split; reflexivity. }
  destruct (size <? 0).
  { exists [ev]. cbn. split; reflexivity. }
  match goal with |- context [skip_forward K dcheck fuel offset ?s1] =>
    destruct (IH s1) as (evs & Hl & Hall) end.
  exists (ev :: evs). rewrite Hl. cbn. rewrite <- app_assoc. split; [reflexivity|].
  exact Hall.
Qed.

Lemma copy_data_log fuel bytes_read left_length (s : St) :
  exists evs,
    log (final (copy_data K fuel bytes_read left_length s)) = log s ++ evs
    /\ forallb is_read_data evs = true.
Proof.
  revert bytes_read left_length s.
  induction fuel as [|fuel IH]; intros bytes_read left_length s; cbn [copy_data].
  { exists []. cbn. rewrite app_nil_r. split; reflexivity. }
  unfold read_data. destruct (archive_read_data _ _ _ _) as [[size data] w].
  set (ev := EReadData _ _ _).
  destruct (size <? 0).
  { exists [ev]. cbn. split; reflexivity. }
  destruct ((0 <? left_length - size) && negb (size =? 0)).
  - match goal with |- context [copy_data K fuel ?b ?l ?s1] =>
      destruct (IH b l s1) as (evs & Hl & Hall) end.
    exists (ev :: evs). rewrite Hl. cbn. rewrite <- app_assoc.
    split; [reflexivity | exact Hall].
  - exists [ev]. cbn. split; reflexivity.
Qed.
End CoordinatorLogs.

(** ** [DecompressData] *)

Section DecompressDataProperties.
Context {W : Type} `{Environment W}.
Variable K : volume_archive_constants.
Variable dcheck : bool.

Abbreviation St := (VolumeArchiveLibarchive W).

Lemma decompress_from_cursor_log fuel offset length (s : St) :
  exists evs,
    log (final (decompress_from_cursor K dcheck fuel offset length s)) = log s ++ evs
    /\ forallb is_read_data evs = true.
Proof.
  unfold decompress_from_cursor.
  destruct (skip_forward_log K dcheck fuel offset s) as (evs1 & Hl1 & Ha1).
  destruct (skip_forward K dcheck fuel offset s) as [go_on s1|s1|s1]; cbn in *;
    try (exists evs1; split; assumption).
  destruct go_on; cbn [negb]; [|exists evs1; split; assumption].
  match goal with |- context [copy_data K fuel ?b ?l ?s2] =>
    destruct (copy_data_log K fuel b l s2) as (evs2 & Hl2 & Ha2);
    destruct (copy_data K fuel b l s2) as [n s3|s3|s3] end;
    cbn in *; try destruct n; cbn;
    exists (evs1 ++ evs2); rewrite Hl2, Hl1, <- app_assoc, forallb_app, Ha1, Ha2;
    split; reflexivity.
Qed.

Lemma DecompressData_forward_log fuel offset length (s : St) :
  last_read_data_offset_ s <= offset ->
  exists evs,
    log (final (DecompressData K dcheck fuel offset length s)) = log s ++ evs
    /\ forallb is_read_data evs = true.
Proof.
  intros Hle. unfold DecompressData. cbn.
  destruct (offset <? last_read_data_offset_ s) eqn:Hlt; [apply Z.ltb_lt in Hlt; lia|].
  cbn. apply (decompress_from_cursor_log fuel offset length (set_header_read false s)).
Qed.

Lemma DecompressData_rewinds fuel offset length (s : St) e name :
  offset < last_read_data_offset_ s ->
  current_archive_entry_ s = Some e ->
  archive_entry_pathname e = Some name ->
  rewound K name fuel s (DecompressData K dcheck fuel offset length s).
Proof.
  intros Hlt He Hname. unfold DecompressData. cbn.
  apply Z.ltb_lt in Hlt. rewrite Hlt. unfold rewind. cbn. rewrite He, Hname.
  unfold call. cbn. destruct (archive_call read_free _ _ _) as [r w1].
  exists r. destruct (r =? ARCHIVE_OK) eqn:Hr; cbn [negb].
  2:{ apply Z.eqb_neq in Hr. exists []. cbn.
      split; [reflexivity|]. split; [auto | contradiction]. }
  apply Z.eqb_eq in Hr.
  destruct (reader_Seek 0 SEEK_SET _) as [rs w2]. cbn.
  match goal with |- context [Init K ?s2] =>
    pose proof (Init_log K s2) as Hinit; destruct (Init K s2) as [ok s3] end.
  destruct Hinit as (inits & Hl3 & Hil & Herr3 & Hok3). cbn in Hl3.
  destruct ok; cbn [negb].
  2:{ exists (ESeek 0 SEEK_SET rs :: ENew (archive_ s3) :: inits). cbn.
      split; [rewrite Hl3, <- !app_assoc; reflexivity|].
      split; [congruence|]. intros _.
      exists rs, (archive_ s3), false, inits, []. rewrite app_nil_r.
      repeat split; try assumption; discriminate. }
  pose proof (replay_headers_log K fuel name (HeaderOut None 0 false 0) s3) as Hrep.
  cbv zeta in Hrep. destruct Hrep as (hdrs & k & Hl4 & Hrl & Ha4 & Hk).
  destruct k.
  - (* the entry was found again *)
    destruct Hk as (Ho & _ & _ & _). rewrite Ho in *. cbn [bind negb final] in *.
    destruct (decompress_from_cursor_log fuel offset length
                (final (replay_headers K fuel name (HeaderOut None 0 false 0) s3)))
      as (tail & Hl5 & Hall).
    eexists. split.
    { rewrite Hl5, Hl4, Hl3, <- !app_assoc. cbn. reflexivity. }
    split; [congruence|]. intros _.
    exists rs, (archive_ s3), true, inits, (hdrs ++ tail).
    split; [reflexivity|]. split; [assumption|]. split; [discriminate|]. intros _.
    exists hdrs, Found, tail. auto.
  - destruct Hk as (Ho & Hflag & Hmsg). rewrite Ho in *. cbn [bind negb final] in *.
    eexists. split.
    { rewrite Hl4, Hl3, <- !app_assoc. cbn. reflexivity. }
    split; [congruence|]. intros _.
    exists rs, (archive_ s3), true, inits, hdrs.
    split; [reflexivity|]. split; [assumption|]. split; [discriminate|]. intros _.
    exists hdrs, NotFound, []. rewrite app_nil_r. auto 10.
  - destruct Hk as (Ho & Hflag). rewrite Ho in *. cbn [bind negb final] in *.
    eexists. split.
    { rewrite Hl4, Hl3, <- !app_assoc. cbn. reflexivity. }
    split; [congruence|]. intros _.
    exists rs, (archive_ s3), true, inits, hdrs.
    split; [reflexivity|]. split; [assumption|]. split; [discriminate|]. intros _.
    exists hdrs, HeaderError, []. rewrite app_nil_r. auto 10.
  - destruct Hk as (Ho & Hlen). rewrite Ho in *. cbn [bind negb final] in *.
    eexists. split.
    { rewrite Hl4, Hl3, <- !app_assoc. cbn. reflexivity. }
    split; [congruence|]. intros _.
    exists rs, (archive_ s3), true, inits, hdrs.
    split; [reflexivity|]. split; [assumption|]. split; [discriminate|]. intros _.
    exists hdrs, Unfinished, []. rewrite app_nil_r. auto 10.
Qed.
End DecompressDataProperties.

(** ** The window and the cursor, for a codec that keeps its promise *)

Section WindowProperties.
Context {W : Type} `{Environment W}.
Variable K : volume_archive_constants.
Variable dcheck : bool.
Hypothesis Hpull : pull_contract.

Abbreviation St := (VolumeArchiveLibarchive W).

Lemma write_at_length (dest : list byte) pos (data : list byte) :
  0 <= pos -> pos + Z.of_nat (length data) <= Z.of_nat (length dest) ->
  length (write_at dest pos data) = length dest.
Proof.
  intros Hpos Hfit. unfold write_at.
  rewrite !length_app, length_take, length_drop. lia.
Qed.

Lemma copy_data_window fuel bytes_read left_length (s : St) :
  0 <= bytes_read -> 0 <= left_length ->
  bytes_read + left_length <= kDecompressBufferSize K ->
  Z.of_nat (length (decompressed_data_buffer_ s)) = kDecompressBufferSize K ->
  let o := copy_data K fuel bytes_read left_length s in
  Z.of_nat (length (decompressed_data_buffer_ (final o))) = kDecompressBufferSize K
  /\ forall n s', o = Ret (Some n) s' ->
       bytes_read <= n <= bytes_read + left_length.
Proof.
  revert bytes_read left_length s.
  induction fuel as [|fuel IH]; intros bytes_read left_length s Hb Hl Hfit Hlen;
    cbn [copy_data].
  { cbn. split; [assumption | discriminate]. }
  unfold read_data.
  pose proof (Hpull (archive_ s) (view s) left_length (world s) Hl) as Hc.
  destruct (archive_read_data _ _ _ _) as [[size data] w].
  destruct Hc as (Hsize & Hdata & Hsame).
  set (s1 := set_decompressed_data_buffer _ _).
  assert (Hlen1 : Z.of_nat (length (decompressed_data_buffer_ s1))
                  = kDecompressBufferSize K).
  { subst s1. cbn. rewrite write_at_length; [assumption | lia | lia]. }
  destruct (size <? 0) eqn:Hneg; cbn zeta.
  { cbn. split; [assumption | discriminate]. }
  apply Z.ltb_ge in Hneg.
  destruct ((0 <? left_length - size) && negb (size =? 0)).
  - destruct (IH (bytes_read + size) (left_length - size) s1) as [H1 H2];
      try assumption; try lia.
    split; [exact H1|]. intros n s' Ho. specialize (H2 n s' Ho). lia.
  - cbn. split; [assumption|]. intros n s' [= <- <-]. lia.
Qed.

Lemma skip_forward_cursor fuel offset (s : St) :
  0 <= kDummyBufferSize K ->
  last_read_data_offset_ s <= offset ->
  let o := skip_forward K dcheck fuel offset s in
  last_read_data_offset_ (final o) <= offset
  /\ forall s', o = Ret true s' -> last_read_data_offset_ s' = offset.
Proof.
  intros Hdummy. revert s.
  induction fuel as [|fuel IH]; intros s Hle; cbn [skip_forward];
    destruct (last_read_data_offset_ s <? offset) eqn:Hlt;
    try (cbn; split; [assumption|]; intros s' [= <-]; apply Z.ltb_ge in Hlt; lia);
    try (cbn; split; [assumption | discriminate]).
  apply Z.ltb_lt in Hlt. unfold read_data. cbn.
  assert (Hlen : 0 <= Z.min (offset - last_read_data_offset_ s) (kDummyBufferSize K))
    by lia.
  match goal with |- context [archive_read_data ?a ?v ?len ?w] =>
    pose proof (Hpull a v len w Hlen) as Hc;
    destruct (archive_read_data a v len w) as [[size data] w'] end.
  destruct Hc as (Hsize & _ & _).
  destruct (negb (PP_DCHECK dcheck (negb (size =? 0)))).
  { cbn. split; [lia | discriminate]. }
  destruct (size <? 0).
  { cbn. split; [lia | discriminate]. }
  apply IH. cbn. lia.
Qed.

Lemma decompress_from_cursor_window fuel offset len (s : St) :
  0 <= len -> window_inv K s ->
  let s' := final (decompress_from_cursor K dcheck fuel offset len s) in
  window_inv K s'
  /\ ((decompressed_data_ s' = decompressed_data_ s
       /\ decompressed_data_size_ s' = decompressed_data_size_ s)
      \/ (decompressed_data_ s' = Some 0
          /\ 0 <= decompressed_data_size_ s'
             <= Z.min len (kDecompressBufferSize K))).
Proof.
  intros Hlen Hinv. unfold decompress_from_cursor.
  pose proof (skip_forward_frame K dcheck fuel offset s) as Hf.
  assert (Hkeep : forall s1 : St, frame s s1 ->
            window_inv K s1
            /\ decompressed_data_ s1 = decompressed_data_ s
            /\ decompressed_data_size_ s1 = decompressed_data_size_ s).
  { intros s1 (E1 & E2 & E3 & E4 & _). unfold window_inv in *.
    rewrite E1, E2, E3, E4. auto. }
  destruct (skip_forward K dcheck fuel offset s) as [go_on s1|s1|s1]; cbn in Hf |- *;
    try (destruct (Hkeep s1 Hf) as (? & ? & ?); auto).
  destruct go_on; cbn [negb]; [|destruct (Hkeep s1 Hf) as (? & ? & ?); auto].
  destruct (Hkeep s1 Hf) as (Hinv1 & Hp1 & Hs1).
  set (s2 := set_reader_data_size _ s1).
  assert (Hcap : 0 <= kDecompressBufferSize K) by (destruct Hinv as [<- _]; lia).
  assert (Hbuf2 : Z.of_nat (length (decompressed_data_buffer_ s2))
                  = kDecompressBufferSize K) by (apply Hinv1).
  pose proof (copy_data_frame K fuel 0 (Z.min len (kDecompressBufferSize K)) s2)
    as Hfb.
  destruct (copy_data_window fuel 0 (Z.min len (kDecompressBufferSize K)) s2)
    as [Hbuf3 Hn]; try lia; try assumption.
  destruct Hfb as (F1 & F2 & F3 & _).
  destruct (copy_data K fuel 0 _ s2) as [n s3|s3|s3]; cbn in F1, F2, F3, Hbuf3 |- *.
  - destruct n as [n|].
    + specialize (Hn n s3 eq_refl). cbn. split.
      * unfold window_inv. cbn. rewrite F3.
        split; [assumption|]. split; [apply Hinv1 | lia].
      * right. split; [reflexivity | lia].
    + cbn. split.
      * unfold window_inv in *. rewrite F1, F2, F3. cbn. tauto.
      * left. cbn in *. split; congruence.
  - split.
    + unfold window_inv in *. rewrite F1, F2, F3. cbn. tauto.
    + left. cbn in *. split; congruence.
  - split.
    + unfold window_inv in *. rewrite F1, F2, F3. cbn. tauto.
    + left. cbn in *. split; congruence.
Qed.

Lemma DecompressData_window fuel offset len (s : St) :
  0 <= len -> window_inv K s ->
  let s' := final (DecompressData K dcheck fuel offset len s) in
  window_inv K s'
  /\ ((decompressed_data_ s' = decompressed_data_ s
       /\ decompressed_data_size_ s' = decompressed_data_size_ s)
      \/ (decompressed_data_ s' = Some 0
          /\ 0 <= decompressed_data_size_ s'
             <= Z.min len (kDecompressBufferSize K))).
Proof.
  intros Hlen Hinv. unfold DecompressData.
  set (s0 := set_header_read false s).
  assert (Hkeep : forall s1 : St, frame s0 s1 ->
            window_inv K s1
            /\ decompressed_data_ s1 = decompressed_data_ s
            /\ decompressed_data_size_ s1 = decompressed_data_size_ s).
  { intros s1 (E1 & E2 & E3 & E4 & _). unfold window_inv in *.
    rewrite E1, E2, E3, E4. cbn. auto. }
  assert (Hstep : forall s1 : St, frame s0 s1 ->
            let s' := final (decompress_from_cursor K dcheck fuel offset len s1) in
            window_inv K s'
            /\ ((decompressed_data_ s' = decompressed_data_ s
                 /\ decompressed_data_size_ s' = decompressed_data_size_ s)
                \/ (decompressed_data_ s' = Some 0
                    /\ 0 <= decompressed_data_size_ s'
                       <= Z.min len (kDecompressBufferSize K)))).
  { intros s1 Hf. destruct (Hkeep s1 Hf) as (Hi & Hp & Hs).
    destruct (decompress_from_cursor_window fuel offset len s1 Hlen Hi) as [H1 H2].
    split; [exact H1|]. rewrite <- Hp, <- Hs. exact H2. }
  destruct (offset <? last_read_data_offset_ s0).
  - pose proof (rewind_frame K fuel s0) as Hf.
    destruct (rewind K fuel s0) as [go_on s1|s1|s1]; cbn in Hf |- *;
      try (destruct (Hkeep s1 Hf) as (? & ? & ?); auto).
    destruct go_on; cbn [negb]; [apply Hstep; exact Hf|].
    destruct (Hkeep s1 Hf) as (? & ? & ?); auto.
  - cbn. apply Hstep. apply frame_refl.
Qed.

Lemma DecompressData_cursor fuel offset length (s : St) :
  0 <= kDummyBufferSize K ->
  last_read_data_offset_ s <= offset ->
  last_read_data_offset_ (final (DecompressData K dcheck fuel offset length s))
  <= offset.
Proof.
  intros Hdummy Hle. unfold DecompressData. cbn.
  destruct (offset <? last_read_data_offset_ s) eqn:Hlt; [apply Z.ltb_lt in Hlt; lia|].
  cbn. unfold decompress_from_cursor.
  destruct (skip_forward_cursor fuel offset (set_header_read false s) Hdummy Hle)
    as [Hc _].
  destruct (skip_forward K dcheck fuel offset _) as [go_on s1|s1|s1]; cbn in Hc |- *;
    try assumption.
  destruct go_on; cbn [negb]; [|assumption].
  match goal with |- context [copy_data K fuel ?b ?l ?s2] =>
    pose proof (copy_data_frame K fuel b l s2) as (_ & _ & _ & Hcur & _);
    destruct (copy_data K fuel b l s2) as [n s3|s3|s3] end;
    cbn in Hcur |- *; try destruct n; cbn; rewrite ?Hcur; cbn; assumption.
Qed.
End WindowProperties.

(** ** [ReadData], [Cleanup] and sequences of calls *)

Section ReadDataProperties.
Context {W : Type} `{Environment W}.
Variable K : volume_archive_constants.
Variable dcheck : bool.

Abbreviation St := (VolumeArchiveLibarchive W).

Lemma Cleanup_frame (s : St) : frame s (Cleanup K s).2.
Proof.
  unfold Cleanup. destruct (archive_ s) as [a|].
  - pose proof (call_frame read_free s) as Hc.
    destruct (call read_free s) as [r s1]. cbn in Hc.
    destruct (r =? ARCHIVE_OK); cbn; unfold frame in *; cbn; intuition.
  - cbn. unfold frame. cbn. auto.
Qed.

Lemma decompress_from_cursor_sticky fuel offset len (s : St) :
  let s' := final (decompress_from_cursor K dcheck fuel offset len s) in
  last_read_data_length_ s' = last_read_data_length_ s
  /\ (decompressed_error_ s = true -> decompressed_error_ s' = true).
Proof.
  unfold decompress_from_cursor.
  pose proof (skip_forward_frame K dcheck fuel offset s) as (_ & _ & _ & Hl & He).
  destruct (skip_forward K dcheck fuel offset s) as [go_on s1|s1|s1];
    cbn in Hl, He |- *; try (split; assumption).
  destruct go_on; cbn [negb]; [|split; assumption].
  match goal with |- context [copy_data K fuel ?b ?l ?s2] =>
    pose proof (copy_data_frame K fuel b l s2) as (_ & _ & Hl2 & _ & _ & _ & He2);
    destruct (copy_data K fuel b l s2) as [n s3|s3|s3] end;
    cbn in Hl2, He2 |- *; try destruct n; cbn; split; try congruence; auto.
Qed.

Lemma DecompressData_sticky fuel offset len (s : St) :
  let s' := final (DecompressData K dcheck fuel offset len s) in
  last_read_data_length_ s' = last_read_data_length_ s
  /\ (decompressed_error_ s = true -> decompressed_error_ s' = true).
Proof.
  unfold DecompressData. set (s0 := set_header_read false s).
  assert (Hstep : forall s1 : St, frame s0 s1 ->
            let s' := final (decompress_from_cursor K dcheck fuel offset len s1) in
            last_read_data_length_ s' = last_read_data_length_ s
            /\ (decompressed_error_ s = true -> decompressed_error_ s' = true)).
  { intros s1 (_ & _ & _ & Hl & He).
    destruct (decompress_from_cursor_sticky fuel offset len s1) as [Hl2 He2].
    cbn in Hl, He. split; [congruence | auto]. }
  destruct (offset <? last_read_data_offset_ s0).
  - pose proof (rewind_frame K fuel s0) as Hf.
    destruct (rewind K fuel s0) as [go_on s1|s1|s1]; cbn [bind final].
    + destruct go_on; cbn [negb]; [apply Hstep; exact Hf|].
      destruct Hf as (_ & _ & _ & Hl & He); cbn in *; split; auto.
    + destruct Hf as (_ & _ & _ & Hl & He); cbn in *; split; auto.
    + destruct Hf as (_ & _ & _ & Hl & He); cbn in *; split; auto.
  - cbn [bind negb]. apply Hstep. apply frame_refl.
Qed.

Lemma deliver_log len (s : St) :
  let s' := final (deliver K dcheck len s) in
  log s' = log s
  /\ decompressed_error_ s' = decompressed_error_ s
  /\ error_message_ s' = error_message_ s
  /\ world s' = world s.
Proof.
  unfold deliver. destruct (decompressed_error_ s) eqn:He; cbn; [auto|].
  destruct (decompressed_data_ s) as [p|]; cbn; [|auto].
  destruct (negb (PP_DCHECK dcheck _)); cbn; auto.
Qed.

Lemma deliver_failed len (s : St) :
  decompressed_error_ s = true ->
  deliver K dcheck len s = Ret (kArchiveReadDataError, None) s.
Proof. intros He. unfold deliver. rewrite He. reflexivity. Qed.

Lemma deliver_window len (s : St) :
  0 < len -> window_inv K s -> window_inv K (final (deliver K dcheck len s)).
Proof.
  intros Hlen (Hbuf & Hll & Hw). unfold deliver.
  destruct (decompressed_error_ s); cbn; [repeat split; assumption|].
  destruct (decompressed_data_ s) as [p|] eqn:Hp; cbn.
  - assert (Hinv : window_inv K
             (set_last_read_data_offset
                (last_read_data_offset_ s + Z.min (decompressed_data_size_ s) len)
                (set_decompressed_data_size
                   (decompressed_data_size_ s - Z.min (decompressed_data_size_ s) len)
                   (set_decompressed_data
                      (Some (p + Z.min (decompressed_data_size_ s) len))
                      (set_last_read_data_length len s))))).
    { unfold window_inv. cbn. split; [assumption|]. split; lia. }
    destruct (negb (PP_DCHECK dcheck _)); cbn; exact Hinv.
  - unfold window_inv. cbn. rewrite Hp. split; [assumption|]. split; [lia|assumption].
Qed.

Lemma ReadData_sticky fuel offset len (s : St) :
  decompressed_error_ s = true ->
  decompressed_error_ (final (ReadData K dcheck fuel offset len s)) = true.
Proof.
  intros He. unfold ReadData.
  destruct (negb (PP_DCHECK dcheck (0 <? len))); [exact He|].
  destruct (current_archive_entry_ s) as [e|]; [|exact He].
  destruct (archive_entry_size e <=? offset); [exact He|].
  assert (Hd : forall o : outcome unit St,
             decompressed_error_ (final o) = true ->
             decompressed_error_
               (final (bind o (fun _ s1 => deliver K dcheck len s1))) = true).
  { intros [[] s1|s1|s1] H1; cbn in *; try exact H1.
    destruct (deliver_log len s1) as (_ & -> & _). exact H1. }
  apply Hd. destruct (window_invalid offset s); [|exact He].
  apply DecompressData_sticky. exact He.
Qed.

Lemma perform_sticky fuel op (s : St) :
  decompressed_error_ s = true ->
  decompressed_error_ (final (perform K dcheck fuel op s)) = true.
Proof.
  intros He. destruct op as [| |offset len| |]; cbn [perform final].
  - apply (Init_frame K s). exact He.
  - apply (GetNextHeader_frame K _ s). exact He.
  - pose proof (ReadData_sticky fuel offset len s He) as Hr.
    destruct (ReadData K dcheck fuel offset len s); exact Hr.
  - unfold MaybeDecompressAhead. destruct (decompressed_data_size_ s =? 0);
      [apply DecompressData_sticky; exact He | exact He].
  - apply (Cleanup_frame s). exact He.
Qed.

Lemma run_sticky fuel ops (s : St) :
  decompressed_error_ s = true ->
  decompressed_error_ (final (run K dcheck fuel ops s)) = true.
Proof.
  revert s. induction ops as [|op ops IH]; intros s He; cbn [run]; [exact He|].
  pose proof (perform_sticky fuel op s He) as Hp.
  destruct (perform K dcheck fuel op s) as [[] s1|s1|s1]; cbn in *; auto.
Qed.

Lemma frame_window (s s' : St) : frame s s' -> window_inv K s -> window_inv K s'.
Proof.
  intros (E1 & E2 & E3 & E4 & _). unfold window_inv. rewrite E1, E2, E3, E4. auto.
Qed.

Lemma ReadData_window fuel offset len (s : St) :
  pull_contract -> 0 < len -> window_inv K s ->
  window_inv K (final (ReadData K dcheck fuel offset len s)).
Proof.
  intros Hpull Hlen Hinv. unfold ReadData.
  destruct (negb (PP_DCHECK dcheck (0 <? len))); [exact Hinv|].
  destruct (current_archive_entry_ s) as [e|]; [|exact Hinv].
  destruct (archive_entry_size e <=? offset); [exact Hinv|].
  assert (Hd : forall o : outcome unit St,
             window_inv K (final o) ->
             window_inv K (final (bind o (fun _ s1 => deliver K dcheck len s1)))).
  { intros [[] s1|s1|s1] H1; cbn in *; try exact H1.
    apply deliver_window; assumption. }
  apply Hd. destruct (window_invalid offset s); [|exact Hinv].
  apply DecompressData_window; [assumption | lia | assumption].
Qed.

Lemma perform_window fuel op (s : St) :
  pull_contract ->
  match op with OpReadData _ len => 0 < len | _ => True end ->
  window_inv K s -> window_inv K (final (perform K dcheck fuel op s)).
Proof.
  intros Hpull Hop Hinv. destruct op as [| |offset len| |]; cbn [perform final].
  - eapply frame_window; [apply Init_frame | exact Hinv].
  - eapply frame_window; [apply GetNextHeader_frame | exact Hinv].
  - pose proof (ReadData_window fuel offset len s Hpull Hop Hinv) as Hr.
    destruct (ReadData K dcheck fuel offset len s); exact Hr.
  - unfold MaybeDecompressAhead. destruct (decompressed_data_size_ s =? 0);
      [|exact Hinv].
    apply DecompressData_window; [assumption | apply Hinv | assumption].
  - eapply frame_window; [apply Cleanup_frame | exact Hinv].
Qed.

Lemma run_window fuel ops (s : St) :
  pull_contract -> positive_lengths ops ->
  window_inv K s -> window_inv K (final (run K dcheck fuel ops s)).
Proof.
  intros Hpull Hops. revert s.
  induction Hops as [|op ops Hop Hops IH]; intros s Hinv; cbn [run]; [exact Hinv|].
  pose proof (perform_window fuel op s Hpull Hop Hinv) as Hp.
  destruct (perform K dcheck fuel op s) as [[] s1|s1|s1]; cbn in *; auto.
Qed.
End ReadDataProperties.

(** ** Counting releases and initialisations in the log *)

Lemma init_count_app l1 l2 : init_count (l1 ++ l2) = (init_count l1 + init_count l2)%nat.
Proof. unfold init_count. rewrite filter_app, length_app. reflexivity. Qed.

Lemma free_count_app l1 l2 : free_count (l1 ++ l2) = (free_count l1 + free_count l2)%nat.
Proof. unfold free_count. rewrite filter_app, length_app. reflexivity. Qed.

Lemma read_data_events_count evs :
  forallb is_read_data evs = true -> init_count evs = 0%nat /\ free_count evs = 0%nat.
Proof.
  induction evs as [|ev evs IH]; cbn; [auto|].
  intros Hall. apply andb_true_iff in Hall as [Hev Hall].
  destruct ev; try discriminate. exact (IH Hall).
Qed.

Lemma calls_log_count a cs failed evs :
  calls_log a cs failed evs -> read_free ∉ cs ->
  init_count evs = 0%nat /\ free_count evs = 0%nat.
Proof.
  induction 1 as [|c cs failed evs Hc IH|c cs r Hr]; intros Hnot.
  - auto.
  - apply not_elem_of_cons in Hnot as [Hne Hnot].
    destruct (IH Hnot) as [H1 H2]. destruct c; try contradiction; cbn; auto.
  - apply not_elem_of_cons in Hnot as [Hne Hnot].
    destruct c; try contradiction; cbn; auto.
Qed.

Lemma init_log_count a ok evs :
  init_log a ok evs -> init_count evs = 0%nat /\ free_count evs = 0%nat.
Proof.
  unfold init_log. destruct a as [a|].
  - intros (failed & Hc & _). eapply calls_log_count; [exact Hc|].
    unfold support_calls, open_calls. cbn.
    rewrite !not_elem_of_cons. repeat split; try discriminate. apply not_elem_of_nil.
  - intros [_ ->]. auto.
Qed.

Lemma replay_log_count name a evs k :
  replay_log name a evs k -> init_count evs = 0%nat /\ free_count evs = 0%nat.
Proof. induction 1; cbn; auto. Qed.

(** ** The coordinator: the statements *)

Section CoordinatorStatements.
Context {W : Type} `{Environment W}.
Variable K : volume_archive_constants.
Variable dcheck : bool.

Abbreviation St := (VolumeArchiveLibarchive W).

Lemma ReadData_decompresses fuel offset len (s : St) e :
  0 < len -> current_archive_entry_ s = Some e -> offset < archive_entry_size e ->
  window_invalid offset s = true ->
  ReadData K dcheck fuel offset len s
  = bind (DecompressData K dcheck fuel offset len s)
         (fun _ s1 => deliver K dcheck len s1).
Proof.
  intros Hlen He Hsize Hinv. unfold ReadData, PP_DCHECK.
  apply Z.ltb_lt in Hlen. rewrite Hlen, orb_true_r. cbn [negb].
  rewrite He. apply Z.leb_gt in Hsize. rewrite Hsize, Hinv. reflexivity.
Qed.

Lemma window_invalid_off_cursor offset (s : St) :
  last_read_data_offset_ s <> offset -> window_invalid offset s = true.
Proof.
  intros Hne. unfold window_invalid. apply Z.eqb_neq in Hne. rewrite Hne.
  destruct (decompressed_data_ s); reflexivity.
Qed.

(** C1, amended.  A [DecompressData] whose offset is below the cursor, on an
    entry that has a pathname, first releases the codec.  When the release
    fails it sets the error flag and returns at once.  Otherwise it sends the
    reader to offset 0 and calls [Init]; when [Init] fails it sets the flag and
    returns.  Otherwise it pulls headers: entries with another pathname are
    passed over, the entry with the pathname of the entry that was current
    ends the replay and only then is data pulled; the end of the archive sets
    the flag with the file-not-found message and returns; a failing header
    sets the flag and returns; and the budget runs out only after that many
    headers were passed over.  A [ReadData] with a positive length below the
    cursor is this [DecompressData] followed by the delivery when its offset
    is inside the entry; when its offset is at or past the size of the entry
    it returns 0 and leaves the object, the codec and the reader as they
    were. *)
Theorem backward_read_rewinds_and_replays fuel offset len (s : St) e name :
  offset < last_read_data_offset_ s ->
  current_archive_entry_ s = Some e ->
  archive_entry_pathname e = Some name ->
  rewound K name fuel s (DecompressData K dcheck fuel offset len s)
  /\ (0 < len -> offset < archive_entry_size e ->
      ReadData K dcheck fuel offset len s
      = bind (DecompressData K dcheck fuel offset len s)
             (fun _ s1 => deliver K dcheck len s1))
  /\ (0 < len -> archive_entry_size e <= offset ->
      ReadData K dcheck fuel offset len s = Ret (0, None) s).
Proof.
  intros Hlt He Hname. split; [|split].
  - eapply DecompressData_rewinds; eassumption.
  - intros Hlen Hsize. eapply ReadData_decompresses; try eassumption.
    apply window_invalid_off_cursor. lia.
  - intros Hlen Hsize. unfold ReadData, PP_DCHECK.
    apply Z.ltb_lt in Hlen. rewrite Hlen, orb_true_r. cbn [negb].
    rewrite He. apply Z.leb_le in Hsize. rewrite Hsize. reflexivity.
Qed.

(** C3, amended.  Once the error flag is set no sequence of calls clears it.
    A later [ReadData] with a positive length returns 0 when the offset is at
    or past the size of the current entry, as it does without the flag; below
    that size it cannot return anything but the error value: it returns it at
    once when the window needs no refill, and as soon as the [DecompressData]
    it runs first returns otherwise. *)
Theorem error_flag_is_sticky fuel (s : St) :
  decompressed_error_ s = true ->
  (forall ops, decompressed_error_ (final (run K dcheck fuel ops s)) = true)
  /\ (forall offset len e,
        0 < len -> current_archive_entry_ s = Some e ->
        let o := ReadData K dcheck fuel offset len s in
        (archive_entry_size e <= offset -> o = Ret (0, None) s)
        /\ (offset < archive_entry_size e ->
            decompressed_error_ (final o) = true
            /\ (forall r s', o = Ret r s' -> r = (kArchiveReadDataError, None))
            /\ (window_invalid offset s = false ->
                o = Ret (kArchiveReadDataError, None) s)
            /\ (window_invalid offset s = true ->
                forall s1, DecompressData K dcheck fuel offset len s = Ret tt s1 ->
                o = Ret (kArchiveReadDataError, None) s1))).
Proof.
  intros Hflag. split; [intros ops; apply run_sticky; exact Hflag|].
  intros offset len e Hlen He o. subst o. split.
  - intros Hsize. unfold ReadData, PP_DCHECK.
    apply Z.ltb_lt in Hlen. rewrite Hlen, orb_true_r. cbn [negb].
    rewrite He. apply Z.leb_le in Hsize. rewrite Hsize. reflexivity.
  - intros Hsize.
    split; [apply ReadData_sticky; exact Hflag|].
    assert (Hshape : ReadData K dcheck fuel offset len s
              = bind (if window_invalid offset s
                      then DecompressData K dcheck fuel offset len s else Ret tt s)
                     (fun _ s1 => deliver K dcheck len s1)).
    { unfold ReadData, PP_DCHECK.
      apply Z.ltb_lt in Hlen. rewrite Hlen, orb_true_r. cbn [negb].
      rewrite He. apply Z.leb_gt in Hsize. rewrite Hsize. reflexivity. }
    rewrite Hshape. split; [|split].
    + intros r s'. destruct (window_invalid offset s).
      * pose proof (DecompressData_sticky K dcheck fuel offset len s) as [_ Hs].
        specialize (Hs Hflag).
        destruct (DecompressData K dcheck fuel offset len s) as [[] s1|s1|s1];
          cbn in Hs |- *; try discriminate.
        rewrite (deliver_failed K dcheck len s1 Hs). congruence.
      * cbn. rewrite (deliver_failed K dcheck len s Hflag). congruence.
    + intros ->. cbn. apply deliver_failed. exact Hflag.
    + intros -> s1 Hd.
      pose proof (DecompressData_sticky K dcheck fuel offset len s) as [_ Hs].
      specialize (Hs Hflag). rewrite Hd in Hs |- *. cbn in Hs |- *.
      apply deliver_failed. exact Hs.
Qed.

(** C8. A [ReadData] with a positive length, a current entry and an offset at
    or past the size of that entry returns 0 and does nothing else: the state,
    and with it the log of the calls made on the codec, is unchanged. *)
Theorem ReadData_at_end_of_entry fuel offset len (s : St) e :
  0 < len -> current_archive_entry_ s = Some e -> archive_entry_size e <= offset ->
  ReadData K dcheck fuel offset len s = Ret (0, None) s.
Proof.
  intros Hlen He Hsize. unfold ReadData, PP_DCHECK.
  apply Z.ltb_lt in Hlen. rewrite Hlen, orb_true_r. cbn [negb].
  rewrite He. apply Z.leb_le in Hsize. rewrite Hsize. reflexivity.
Qed.

(** C9. [Cleanup] releases the codec when there is one, keeps going when that
    fails, then releases the reader in every case and leaves [archive_] null;
    it reports success exactly when no codec release failed.  A second
    [Cleanup] releases no codec, reports success and changes nothing but for
    running [CleanupReader] once more. *)
Theorem Cleanup_releases_both_and_is_idempotent (s : St) :
  let '(ok1, s1) := Cleanup K s in
  let '(ok2, s2) := Cleanup K s1 in
  archive_ s1 = None
  /\ match archive_ s with
     | Some a =>
         exists r w,
           archive_call read_free (Some a) (view s) (world s) = (r, w)
           /\ log s1 = log s ++ [ECall read_free (Some a) r; ECleanupReader]
           /\ world s1 = CleanupReader w
           /\ (ok1 = true <-> r = ARCHIVE_OK)
     | None =>
         log s1 = log s ++ [ECleanupReader]
         /\ world s1 = CleanupReader (world s)
         /\ ok1 = true
     end
  /\ ok2 = true
  /\ s2 = called (CleanupReader (world s1)) ECleanupReader s1.
Proof.
  unfold Cleanup at 1. destruct (archive_ s) as [a|] eqn:Ha.
  - unfold call. rewrite Ha.
    destruct (archive_call read_free (Some a) (view s) (world s)) as [r w] eqn:Hc.
    destruct (r =? ARCHIVE_OK) eqn:Hr; cbn.
    + apply Z.eqb_eq in Hr. split; [reflexivity|]. split; [|split; reflexivity].
      exists r, w. rewrite <- app_assoc. cbn. repeat split; auto.
    + apply Z.eqb_neq in Hr. split; [reflexivity|]. split; [|split; reflexivity].
      exists r, w. rewrite <- app_assoc. cbn. repeat split; auto; discriminate.
  - cbn. repeat split; reflexivity.
Qed.

(** C10, amended.  [GetNextHeader] sets the cursor to 0, turns the header
    phase on and resets the chunk size, and leaves the window (pointer, size
    and buffer) as it was.  So when the window held undelivered bytes, no error
    was flagged and the entry just selected has a positive size, a [ReadData]
    at offset 0 hands out the head of that old window without any call on the
    codec. *)
Theorem GetNextHeader_keeps_the_window out (s : St) :
  let '(ok, out', s') := GetNextHeader K out s in
  last_read_data_offset_ s' = 0
  /\ header_read_ s' = true
  /\ reader_data_size_ s' = kHeaderChunkSize K
  /\ decompressed_data_ s' = decompressed_data_ s
  /\ decompressed_data_size_ s' = decompressed_data_size_ s
  /\ decompressed_data_buffer_ s' = decompressed_data_buffer_ s
  /\ (forall fuel len p e,
        decompressed_data_ s = Some p ->
        0 < decompressed_data_size_ s ->
        p + decompressed_data_size_ s <= kDecompressBufferSize K ->
        decompressed_error_ s = false ->
        current_archive_entry_ s' = Some e -> 0 < archive_entry_size e ->
        0 < len ->
        exists s'',
          let n := Z.min (decompressed_data_size_ s) len in
          ReadData K dcheck fuel 0 len s' = Ret (n, Some p) s''
          /\ log s'' = log s' /\ world s'' = world s'
          /\ delivered (n, Some p) s''
             = take (Z.to_nat n) (drop (Z.to_nat p) (decompressed_data_buffer_ s))).
Proof.
  pose proof (GetNextHeader_frame K out s) as (Hp & Hs & Hb & _ & _).
  pose proof (GetNextHeader_spec K out s) as Hspec.
  destruct (GetNextHeader K out s) as [[ok out'] s']. cbn in Hp, Hs, Hb.
  destruct Hspec as (r & e' & _ & _ & _ & Hoff & Hhr & Hrds & Herr & _).
  repeat (split; [assumption|]).
  intros fuel len p e Hptr Hsz Hfit Hflag He Hsize Hlen.
  unfold ReadData, PP_DCHECK.
  pose proof Hlen as Hlen'. apply Z.ltb_lt in Hlen'. rewrite Hlen', orb_true_r.
  cbn [negb]. rewrite He.
  pose proof Hsize as Hsize'. apply Z.leb_gt in Hsize'. rewrite Hsize'.
  assert (Hvalid : window_invalid 0 s' = false).
  { unfold window_invalid. rewrite Hp, Hptr, Hoff, Hs. cbn.
    apply Z.eqb_neq. lia. }
  rewrite Hvalid. cbn [bind]. unfold deliver. rewrite Herr, Hflag. cbn.
  rewrite Hp, Hptr, Hs.
  assert (Hcheck : PP_DCHECK dcheck
            (p + Z.min (decompressed_data_size_ s) len
             + (decompressed_data_size_ s - Z.min (decompressed_data_size_ s) len)
             <=? kDecompressBufferSize K) = true).
  { unfold PP_DCHECK. apply orb_true_iff. right. apply Z.leb_le. lia. }
  unfold PP_DCHECK in Hcheck |- *. rewrite Hcheck. cbn [negb].
  eexists. cbv zeta. split; [reflexivity|]. cbn. rewrite Hb.
  repeat split; reflexivity.
Qed.

(** C4. With a codec that never hands over more than it is asked for: after
    any sequence of calls on a new object (each [ReadData] with a positive
    length) the window lies within the [kDecompressBufferSize] bytes of the
    buffer, whose size never changes; a [DecompressData] for [len] bytes
    either leaves the window as it was or leaves in it, from the start of the
    buffer, at most [min len kDecompressBufferSize] bytes; and every
    [ReadData] keeps the window within the buffer, so that the [PP_DCHECK] of
    lines 376-378 holds. *)
Theorem window_stays_within_capacity :
  pull_contract ->
  (forall buffer w fuel ops,
      Z.of_nat (length buffer) = kDecompressBufferSize K ->
      positive_lengths ops ->
      window_inv K (final (run K dcheck fuel ops (VolumeArchiveLibarchive_new K buffer w))))
  /\ (forall fuel offset len (s : St),
        0 <= len -> window_inv K s ->
        let s' := final (DecompressData K dcheck fuel offset len s) in
        window_inv K s'
        /\ ((decompressed_data_ s' = decompressed_data_ s
             /\ decompressed_data_size_ s' = decompressed_data_size_ s)
            \/ (decompressed_data_ s' = Some 0
                /\ 0 <= decompressed_data_size_ s'
                   <= Z.min len (kDecompressBufferSize K))))
  /\ (forall fuel offset len (s : St),
        0 < len -> window_inv K s ->
        window_inv K (final (ReadData K dcheck fuel offset len s))).
Proof.
  intros Hpull. split; [|split].
  - intros buffer w fuel ops Hbuf Hops. apply run_window; try assumption.
    unfold window_inv. cbn. split; [assumption|]. split; [lia | reflexivity].
  - intros fuel offset len s Hlen Hinv. apply DecompressData_window; assumption.
  - intros fuel offset len s Hlen Hinv. apply ReadData_window; assumption.
Qed.

Lemma bind_deliver_log len (o : outcome unit St) :
  log (final (bind o (fun _ s1 => deliver K dcheck len s1))) = log (final o).
Proof.
  destruct o as [[] s1|s1|s1]; cbn; try reflexivity.
  apply (deliver_log K dcheck len s1).
Qed.

Lemma deliver_cursor len (s : St) r s' :
  deliver K dcheck len s = Ret r s' ->
  last_read_data_offset_ s' <= last_read_data_offset_ s + Z.max 0 r.1.
Proof.
  unfold deliver. destruct (decompressed_error_ s).
  { intros [= <- <-]. cbn. lia. }
  cbn. destruct (decompressed_data_ s) as [p|]; [|discriminate].
  destruct (negb (PP_DCHECK dcheck _)); [discriminate|].
  intros [= <- <-]. cbn. lia.
Qed.

Lemma ReadData_forward fuel offset len (s : St) :
  pull_contract -> 0 <= kDummyBufferSize K ->
  last_read_data_offset_ s <= offset ->
  let o := ReadData K dcheck fuel offset len s in
  init_count (log (final o)) = init_count (log s)
  /\ free_count (log (final o)) = free_count (log s)
  /\ forall r s', o = Ret r s' ->
       last_read_data_offset_ s' <= offset + Z.max 0 r.1.
Proof.
  intros Hpull Hdummy Hle. unfold ReadData.
  destruct (negb (PP_DCHECK dcheck (0 <? len))); [cbn; auto; repeat split; discriminate|].
  destruct (current_archive_entry_ s) as [e|]; [|cbn; repeat split; discriminate].
  destruct (archive_entry_size e <=? offset).
  { cbn. repeat split. intros r s' [= <- <-]. cbn. lia. }
  set (o1 := if window_invalid offset s
             then DecompressData K dcheck fuel offset len s else Ret tt s).
  assert (H1 : (exists evs, log (final o1) = log s ++ evs
                            /\ forallb is_read_data evs = true)
               /\ last_read_data_offset_ (final o1) <= offset).
  { subst o1. destruct (window_invalid offset s).
    - split; [apply DecompressData_forward_log; assumption|].
      apply DecompressData_cursor; assumption.
    - cbn. split; [|assumption]. exists []. rewrite app_nil_r. auto. }
  destruct H1 as [(evs & Hlog & Hall) Hcur].
  destruct (read_data_events_count evs Hall) as [Hi Hf].
  rewrite bind_deliver_log, Hlog, init_count_app, free_count_app, Hi, Hf.
  split; [lia|]. split; [lia|].
  intros r s'. destruct o1 as [[] s1|s1|s1]; cbn; try discriminate.
  intros Hd. apply deliver_cursor in Hd. cbn in Hcur. lia.
Qed.

Lemma spaced_weaken c c' requests results :
  c' <= c -> spaced c requests results -> spaced c' requests results.
Proof.
  destruct requests as [|[offset len] requests]; cbn; [auto|].
  intros Hle [H1 H2]. split; [lia | exact H2].
Qed.

Lemma read_all_forward fuel requests (s : St) :
  pull_contract -> 0 <= kDummyBufferSize K ->
  spaced (last_read_data_offset_ s) requests (read_all K dcheck fuel requests s).1 ->
  init_count (log (read_all K dcheck fuel requests s).2) = init_count (log s)
  /\ free_count (log (read_all K dcheck fuel requests s).2) = free_count (log s).
Proof.
  intros Hpull Hdummy. revert s.
  induction requests as [|[offset len] requests IH]; intros s; cbn [read_all spaced].
  { cbn. auto. }
  intros [Hle Hrest].
  destruct (ReadData_forward fuel offset len s Hpull Hdummy Hle) as (Hi & Hf & Hc).
  destruct (ReadData K dcheck fuel offset len s) as [r s1|s1|s1]; cbn in Hi, Hf;
    try (cbn; split; assumption).
  specialize (Hc r s1 eq_refl). specialize (IH s1).
  destruct (read_all K dcheck fuel requests s1) as [rs s2]. cbn in Hrest, IH |- *.
  destruct IH as [IH1 IH2]; [|split; congruence].
  eapply spaced_weaken; [|exact Hrest]. exact Hc.
Qed.

Lemma ReadData_backward_counts fuel offset len (s : St) e name :
  offset < last_read_data_offset_ s ->
  current_archive_entry_ s = Some e ->
  archive_entry_pathname e = Some name ->
  0 < len -> offset < archive_entry_size e ->
  let o := ReadData K dcheck fuel offset len s in
  free_count (log (final o)) = S (free_count (log s))
  /\ exists r,
       ECall read_free (archive_ s) r ∈ log (final o)
       /\ (r = ARCHIVE_OK -> init_count (log (final o)) = S (init_count (log s)))
       /\ (r <> ARCHIVE_OK ->
           init_count (log (final o)) = init_count (log s)
           /\ o = Ret (kArchiveReadDataError, None) (final o)).
Proof.
  intros Hlt He Hname Hlen Hsize o. subst o.
  rewrite (ReadData_decompresses fuel offset len s e Hlen He Hsize)
    by (apply window_invalid_off_cursor; lia).
  rewrite bind_deliver_log.
  pose proof (DecompressData_rewinds K dcheck fuel offset len s e name Hlt He Hname)
    as (r & evs & Hlog & Hfail & Hok).
  destruct (Z.eq_dec r ARCHIVE_OK) as [Hr|Hr].
  - destruct (Hok Hr) as (rs & a & ok & inits & rest & -> & Hil & Hbad & Hgood).
    destruct (init_log_count a ok inits Hil) as [Hi1 Hf1].
    assert (Hrest : init_count rest = 0%nat /\ free_count rest = 0%nat).
    { destruct ok.
      - destruct (Hgood eq_refl) as (hdrs & k & tail & -> & Hrl & Hk).
        destruct (replay_log_count name a hdrs k Hrl) as [Hi2 Hf2].
        rewrite init_count_app, free_count_app, Hi2, Hf2.
        destruct k.
        + apply read_data_events_count in Hk. exact Hk.
        + destruct Hk as [-> _]. auto.
        + destruct Hk as [-> _]. auto.
        + destruct Hk as [-> _]. auto.
      - destruct (Hbad eq_refl) as [-> _]. auto. }
    destruct Hrest as [Hi2 Hf2].
    rewrite Hlog.
    change (ECall read_free (archive_ s) r :: ESeek 0 SEEK_SET rs :: ENew a
              :: inits ++ rest)
      with ([ECall read_free (archive_ s) r; ESeek 0 SEEK_SET rs; ENew a]
              ++ inits ++ rest).
    rewrite !init_count_app, !free_count_app, Hi1, Hi2, Hf1, Hf2.
    change (init_count [ECall read_free (archive_ s) r; ESeek 0 SEEK_SET rs; ENew a])
      with 1%nat.
    change (free_count [ECall read_free (archive_ s) r; ESeek 0 SEEK_SET rs; ENew a])
      with 1%nat.
    split; [lia|]. exists r. split.
    { apply elem_of_app. right. apply elem_of_cons. left. reflexivity. }
    split; [intros _; lia | contradiction].
  - destruct (Hfail Hr) as (-> & Ho & Hflag).
    rewrite Hlog, init_count_app, free_count_app.
    change (init_count [ECall read_free (archive_ s) r]) with 0%nat.
    change (free_count [ECall read_free (archive_ s) r]) with 1%nat.
    split; [lia|]. exists r. split.
    { apply elem_of_app. right. apply elem_of_cons. left. reflexivity. }
    split; [contradiction|]. intros _. split; [lia|].
    rewrite Ho. cbn. rewrite (deliver_failed K dcheck len _ Hflag). reflexivity.
Qed.
End CoordinatorStatements.

(** ** The coordinator over the reference codec *)

Section ReferenceCodec.
Variable K : volume_archive_constants.
Variable dcheck : bool.

Abbreviation RSt := (VolumeArchiveLibarchive reference_codec).

#[local] Arguments init_count : simpl never.

Lemma reference_codec_pull_contract : pull_contract (W := reference_codec).
Proof.
  intros a v len w Hlen. cbn. unfold codec_pull.
  destruct (len <? 0) eqn:Hneg; [apply Z.ltb_lt in Hneg; lia|].
  rewrite length_take. lia.
Qed.

Lemma reference_replay name e d post pre :
  archive_entry_pathname e = Some name ->
  other_names name pre ->
  forall fuel out (s : RSt),
    codec_pending (world s) = pre ++ (e, d) :: post ->
    (length pre < fuel)%nat ->
    exists s',
      replay_headers K fuel name out s = Ret true s'
      /\ codec_data (world s') = d
      /\ codec_files (world s') = codec_files (world s)
      /\ current_archive_entry_ s' = Some e
      /\ last_read_data_offset_ s' = 0
      /\ decompressed_error_ s' = decompressed_error_ s
      /\ init_count (log s') = init_count (log s).
Proof.
  intros Hname. induction 1 as [|[e0 d0] pre (other & Hother & Hne) Hpre IH];
    intros fuel out s Hpend Hfuel.
  - destruct fuel as [|fuel]; [cbn in Hfuel; lia|].
    cbn [replay_headers]. unfold GetNextHeader. cbn. rewrite Hpend. cbn.
    rewrite Hname, String.eqb_refl. eexists. split; [reflexivity|]. cbn.
    repeat split; try reflexivity.
    rewrite init_count_app. change (init_count [_]) with 0%nat. lia.
  - destruct fuel as [|fuel]; [cbn in Hfuel; lia|].
    cbn [replay_headers]. unfold GetNextHeader. cbn. rewrite Hpend. cbn.
    cbn in Hother. rewrite Hother.
    assert (Hcmp : String.eqb name other = false)
      by (apply String.eqb_neq; congruence).
    rewrite Hcmp.
    match goal with |- context [replay_headers K fuel name ?o ?s1] =>
      destruct (IH fuel o s1) as (s' & Hr & Hd & Hf & He & Hc & Herr & Hcount) end.
    { reflexivity. }
    { cbn in Hfuel. lia. }
    exists s'. split; [exact Hr|]. cbn in Hf, Herr, Hcount.
    repeat split; try assumption.
    rewrite Hcount, init_count_app. change (init_count [_]) with 0%nat. lia.
Qed.

Lemma reference_skip (d : list byte) offset :
  0 < kDummyBufferSize K -> 0 <= offset <= Z.of_nat (length d) ->
  forall fuel (s : RSt),
    0 <= last_read_data_offset_ s <= offset ->
    codec_data (world s) = drop (Z.to_nat (last_read_data_offset_ s)) d ->
    (Z.to_nat (offset - last_read_data_offset_ s) <= fuel)%nat ->
    exists s',
      skip_forward K dcheck fuel offset s = Ret true s'
      /\ last_read_data_offset_ s' = offset
      /\ codec_data (world s') = drop (Z.to_nat offset) d
      /\ decompressed_error_ s' = decompressed_error_ s
      /\ init_count (log s') = init_count (log s).
Proof.
  intros Hdummy Hoff.
  assert (Hstop : forall s : RSt,
             0 <= last_read_data_offset_ s <= offset ->
             codec_data (world s) = drop (Z.to_nat (last_read_data_offset_ s)) d ->
             (last_read_data_offset_ s <? offset) = false ->
             exists s',
               Ret true s = Ret true s'
               /\ last_read_data_offset_ s' = offset
               /\ codec_data (world s') = drop (Z.to_nat offset) d
               /\ decompressed_error_ s' = decompressed_error_ s
               /\ init_count (log s') = init_count (log s)).
  { intros s Hcur Hdata Hlt. apply Z.ltb_ge in Hlt.
    assert (E : last_read_data_offset_ s = offset) by lia.
    exists s. rewrite <- E. auto 10. }
  induction fuel as [|fuel IH]; intros s Hcur Hdata Hfuel;
    cbn [skip_forward]; destruct (last_read_data_offset_ s <? offset) eqn:Hlt;
    try (apply Hstop; assumption).
  { apply Z.ltb_lt in Hlt. lia. }
  apply Z.ltb_lt in Hlt.
  set (c := last_read_data_offset_ s) in *.
  set (len := Z.min (offset - c) (kDummyBufferSize K)).
  assert (Hpull : codec_pull len (drop (Z.to_nat c) d) = Z.to_nat len).
  { unfold codec_pull. destruct (len <? 0) eqn:Hneg; [apply Z.ltb_lt in Hneg; lia|].
    rewrite length_drop. lia. }
  unfold read_data. cbn. fold c. fold len. rewrite Hdata, Hpull.
  assert (Hlen : 0 < len) by lia.
  rewrite Z2Nat.id by lia.
  assert (Hnz : (len =? 0) = false) by (apply Z.eqb_neq; lia).
  assert (Hpos : (len <? 0) = false) by (apply Z.ltb_ge; lia).
  unfold PP_DCHECK. rewrite Hnz, Hpos, orb_true_r. cbn [negb].
  match goal with |- context [skip_forward K dcheck fuel offset ?s1] =>
    destruct (IH s1) as (s' & Hr & Hc & Hd & He & Hn) end.
  - cbn. lia.
  - cbn. rewrite drop_drop. f_equal. lia.
  - cbn. lia.
  - exists s'. split; [exact Hr|]. cbn in He. repeat split; try assumption.
    rewrite Hn. cbn [log called set_last_read_data_offset set_reader_data_size].
    rewrite init_count_app. change (init_count [_]) with 0%nat. lia.
Qed.

Lemma write_at_nil (dest : list byte) pos : write_at dest pos [] = dest.
Proof. unfold write_at. cbn. rewrite Nat.add_0_r. apply take_drop. Qed.

Lemma reference_copy fuel want (s : RSt) :
  0 < want -> (2 <= fuel)%nat ->
  let data := codec_data (world s) in
  let n := Z.min want (Z.of_nat (length data)) in
  exists s',
    copy_data K fuel 0 want s = Ret (Some n) s'
    /\ decompressed_data_buffer_ s'
       = write_at (decompressed_data_buffer_ s) 0 (take (Z.to_nat n) data)
    /\ decompressed_error_ s' = decompressed_error_ s
    /\ last_read_data_offset_ s' = last_read_data_offset_ s
    /\ init_count (log s') = init_count (log s).
Proof.
  intros Hwant Hfuel data n.
  destruct fuel as [|[|fuel]]; [lia | lia |].
  assert (Hpull : codec_pull want data = Z.to_nat n).
  { unfold codec_pull. destruct (want <? 0) eqn:Hneg; [apply Z.ltb_lt in Hneg; lia|].
    lia. }
  cbn [copy_data]. unfold read_data. cbn. fold data. rewrite Hpull.
  rewrite Z2Nat.id by lia.
  assert (Hpos : (n <? 0) = false) by (apply Z.ltb_ge; lia).
  rewrite Hpos.
  destruct ((0 <? want - n) && negb (n =? 0)) eqn:Hmore.
  - apply andb_true_iff in Hmore as [Hleft Hnz].
    apply Z.ltb_lt in Hleft. apply negb_true_iff, Z.eqb_neq in Hnz.
    assert (Hend : codec_pull (want - n) (drop (Z.to_nat n) data) = 0%nat).
    { unfold codec_pull.
      destruct (want - n <? 0) eqn:Hneg; [apply Z.ltb_lt in Hneg; lia|].
      rewrite length_drop. lia. }
    rewrite Hend. cbn. rewrite write_at_nil. change (Z.of_nat 0) with 0. cbn.
    rewrite andb_false_r, Z.add_0_r. eexists. split; [reflexivity|]. cbn.
    repeat split; try reflexivity.
    rewrite !init_count_app. change (init_count [_]) with 0%nat. lia.
  - eexists. split; [reflexivity|]. cbn.
    repeat split; try reflexivity.
    rewrite init_count_app. change (init_count [_]) with 0%nat. lia.
Qed.

(** A read below the cursor, on the reference codec: the entry is found again
    when no earlier entry carries its name, and the bytes handed out are the
    bytes of the entry at the offset asked for. *)
Lemma reference_backward_read fuel offset len (s : RSt) pre e d post name :
  codec_files (world s) = pre ++ (e, d) :: post ->
  codec_free_result (world s) = ARCHIVE_OK ->
  other_names name pre ->
  archive_entry_pathname e = Some name ->
  archive_entry_size e = Z.of_nat (length d) ->
  current_archive_entry_ s = Some e ->
  decompressed_error_ s = false ->
  0 <= offset < last_read_data_offset_ s ->
  offset < archive_entry_size e ->
  0 < len ->
  0 < kDummyBufferSize K -> 0 < kDecompressBufferSize K ->
  (length pre + Z.to_nat offset + 2 <= fuel)%nat ->
  let n := Z.min len (Z.min (kDecompressBufferSize K) (archive_entry_size e - offset)) in
  exists s',
    ReadData K dcheck fuel offset len s = Ret (n, Some 0) s'
    /\ delivered (n, Some 0) s' = take (Z.to_nat n) (drop (Z.to_nat offset) d)
    /\ init_count (log s') = S (init_count (log s)).
Proof.
  intros Hfiles Hfree Hpre Hname Hsize He Hflag Hoff Hin Hlen Hdummy Hcap Hfuel n.
  rewrite (ReadData_decompresses K dcheck fuel offset len s e Hlen He Hin)
    by (apply window_invalid_off_cursor; lia).
  unfold DecompressData. cbn.
  assert (Hlt : (offset <? last_read_data_offset_ s) = true) by (apply Z.ltb_lt; lia).
  rewrite Hlt. unfold rewind. cbn. rewrite He, Hname. unfold call. cbn.
  rewrite Hfree. cbn.
  match goal with |- context [replay_headers K fuel name ?o ?s3] =>
    destruct (reference_replay name e d post pre Hname Hpre fuel o s3)
      as (s4 & Hr & Hd4 & Hf4 & He4 & Hc4 & Herr4 & Hn4) end.
  { cbn. exact Hfiles. }
  { lia. }
  rewrite Hr. cbn [bind negb]. cbn in Herr4, Hn4.
  unfold decompress_from_cursor.
  destruct (reference_skip d offset Hdummy ltac:(lia) fuel s4)
    as (s5 & Hs & Hc5 & Hd5 & Herr5 & Hn5).
  { rewrite Hc4. lia. }
  { rewrite Hc4, Hd4. reflexivity. }
  { rewrite Hc4. lia. }
  rewrite Hs. cbn [bind negb].
  set (want := Z.min len (kDecompressBufferSize K)).
  match goal with |- context [copy_data K fuel 0 want ?s6] =>
    destruct (reference_copy fuel want s6 ltac:(lia) ltac:(lia))
      as (s7 & Hcp & Hb7 & Herr7 & Hc7 & Hn7) end.
  cbn in Hcp, Hb7, Herr7, Hc7, Hn7. rewrite Hd5 in Hcp, Hb7.
  rewrite length_drop in Hcp, Hb7.
  assert (En : Z.min want (Z.of_nat (length d - Z.to_nat offset)) = n) by lia.
  rewrite En in Hcp, Hb7. rewrite Hcp. cbn [bind].
  unfold deliver. cbn. rewrite Herr7, Herr5, Herr4, Hflag.
  assert (Hmin : Z.min n len = n) by lia. rewrite Hmin.
  assert (Hcheck : (0 + n + (n - n) <=? kDecompressBufferSize K) = true)
    by (apply Z.leb_le; lia).
  unfold PP_DCHECK. rewrite Hcheck, orb_true_r. cbn [negb].
  eexists. split; [reflexivity|]. split.
  - cbn. rewrite Hb7. unfold write_at. change (Z.to_nat 0) with 0%nat.
    rewrite drop_0, take_0. cbn [app]. rewrite take_app_length'; [reflexivity|].
    rewrite length_take, length_drop. lia.
  - cbn. rewrite Hn7, Hn5, Hn4.
    rewrite !init_count_app.
    repeat match goal with
           | |- context [init_count [?ev]] =>
               let v := eval cbv in (init_count [ev]) in
               change (init_count [ev]) with v
           end.
    lia.
Qed.

(** In a release build the skip loop never ends once the entry holds fewer
    bytes than the gap: each pull past the end returns 0, which the loop
    neither counts as progress nor treats as an error. *)
Lemma reference_skip_starved offset :
  0 < kDummyBufferSize K ->
  forall fuel (s : RSt),
    last_read_data_offset_ s + Z.of_nat (length (codec_data (world s))) < offset ->
    exists s',
      skip_forward K false fuel offset s = OutOfFuel s'
      /\ decompressed_error_ s' = decompressed_error_ s.
Proof.
  intros Hdummy. induction fuel as [|fuel IH]; intros s Hshort; cbn [skip_forward];
    (destruct (last_read_data_offset_ s <? offset) eqn:Hlt;
     [|apply Z.ltb_ge in Hlt; lia]).
  { exists s. auto. }
  apply Z.ltb_lt in Hlt.
  set (len := Z.min (offset - last_read_data_offset_ s) (kDummyBufferSize K)).
  unfold read_data. cbn. fold len.
  set (n := codec_pull len (codec_data (world s))).
  assert (Hn : (n <= length (codec_data (world s)))%nat).
  { subst n. unfold codec_pull. destruct (len <? 0); lia. }
  assert (Hpos : (Z.of_nat n <? 0) = false) by (apply Z.ltb_ge; lia).
  rewrite Hpos.
  match goal with |- context [skip_forward K false fuel offset ?s1] =>
    destruct (IH s1) as (s' & Hr & He) end.
  { cbn. rewrite length_drop. lia. }
  exists s'. split; [exact Hr | exact He].
Qed.

Lemma reference_read_starved fuel offset len (s : RSt) e :
  0 < kDummyBufferSize K -> 0 < len ->
  current_archive_entry_ s = Some e -> offset < archive_entry_size e ->
  last_read_data_offset_ s + Z.of_nat (length (codec_data (world s))) < offset ->
  exists s',
    ReadData K false fuel offset len s = OutOfFuel s'
    /\ decompressed_error_ s' = decompressed_error_ s.
Proof.
  intros Hdummy Hlen He Hin Hshort.
  rewrite (ReadData_decompresses K false fuel offset len s e Hlen He Hin)
    by (apply window_invalid_off_cursor; lia).
  unfold DecompressData. cbn.
  assert (Hlt : (offset <? last_read_data_offset_ s) = false)
    by (apply Z.ltb_ge; lia).
  rewrite Hlt. cbn [bind negb]. unfold decompress_from_cursor.
  destruct (reference_skip_starved offset Hdummy fuel (set_header_read false s))
    as (s' & Hr & Herr); [exact Hshort|].
  rewrite Hr. cbn [bind]. exists s'. split; [reflexivity | exact Herr].
Qed.
End ReferenceCodec.

(** ** The codec with its reader *)

Section PositionedCodec.
Context {W : Type} `{Environment W}.
Variable K : volume_archive_constants.
Variable dcheck : bool.

Abbreviation PSt := (VolumeArchiveLibarchive (positioned W)).

Lemma underlying_bind {A B : Type} (o : outcome A PSt)
    (k : A -> PSt -> outcome B PSt)
    (k' : A -> VolumeArchiveLibarchive W -> outcome B (VolumeArchiveLibarchive W)) :
  (forall a s, underlying_outcome (k a s) = k' a (underlying s)) ->
  underlying_outcome (bind o k) = bind (underlying_outcome o) k'.
Proof. intros Hk. destruct o; cbn; [apply Hk | reflexivity | reflexivity]. Qed.

Lemma call_underlying c (s : PSt) :
  c <> read_open1 \/ reader_offset (world s) = 0 ->
  call c (underlying s) = ((call c s).1, underlying (call c s).2)
  /\ reader_offset (world (call c s).2) = reader_offset (world s).
Proof.
  intros Hc. unfold call. cbn.
  destruct c; try (destruct (archive_call _ _ _ _) as [r w]; split; reflexivity).
  destruct Hc as [Hc|Hc]; [contradiction|]. rewrite Hc. cbn.
  destruct (archive_call _ _ _ _) as [r w]. split; reflexivity.
Qed.

Lemma any_call_fails_underlying cs (s : PSt) :
  reader_offset (world s) = 0 ->
  any_call_fails cs (underlying s)
  = ((any_call_fails cs s).1, underlying (any_call_fails cs s).2)
  /\ reader_offset (world (any_call_fails cs s).2) = 0.
Proof.
  revert s. induction cs as [|c cs IH]; intros s Hs; cbn [any_call_fails].
  { split; [reflexivity | exact Hs]. }
  destruct (call_underlying c s (or_intror Hs)) as [Hcall Hoff].
  rewrite Hcall. destruct (call c s) as [r s1]. cbn [fst snd] in *.
  destruct (r =? ARCHIVE_OK).
  - apply IH. rewrite Hoff. exact Hs.
  - split; [reflexivity|]. cbn [fst snd]. rewrite Hoff. exact Hs.
Qed.

Lemma Init_underlying (s : PSt) :
  reader_offset (world s) = 0 ->
  Init K (underlying s) = ((Init K s).1, underlying (Init K s).2).
Proof.
  intros Hs. unfold Init. cbn -[any_call_fails].
  destruct (archive_read_new (codec_of (world s))) as [a w].
  destruct a as [a|]; [|reflexivity].
  set (s1 := set_archive (Some a)
               (called (Positioned w (reader_offset (world s))) (ENew (Some a)) s)).
  change (set_archive (Some a) (called w (ENew (Some a)) (underlying s)))
    with (underlying s1).
  destruct (any_call_fails_underlying support_calls s1 Hs) as [H1 Ho1].
  rewrite H1. destruct (any_call_fails support_calls s1) as [failed s2].
  cbn [fst snd] in *. destruct failed; [reflexivity|].
  change (set_header_read true (underlying s2))
    with (underlying (set_header_read true s2)).
  destruct (any_call_fails_underlying open_calls (set_header_read true s2) Ho1)
    as [H3 _].
  rewrite H3.
  destruct (any_call_fails open_calls (set_header_read true s2)) as [failed s4].
  destruct failed; reflexivity.
Qed.

Lemma GetNextHeader_underlying out (s : PSt) :
  GetNextHeader K out (underlying s)
  = ((GetNextHeader K out s).1, underlying (GetNextHeader K out s).2).
Proof.
  unfold GetNextHeader. cbn.
  destruct (archive_read_next_header _ _ _) as [[r e] w].
  destruct (r =? ARCHIVE_EOF); [reflexivity|].
  destruct (r =? ARCHIVE_OK); reflexivity.
Qed.

Lemma replay_headers_underlying fuel name out (s : PSt) :
  replay_headers K fuel name out (underlying s)
  = underlying_outcome (replay_headers K fuel name out s).
Proof.
  revert out s. induction fuel as [|fuel IH]; intros out s; cbn [replay_headers].
  { reflexivity. }
  rewrite GetNextHeader_underlying.
  destruct (GetNextHeader K out s) as [[ok out'] s1]. cbn [fst snd].
  destruct ok; cbn [negb]; [|reflexivity].
  destruct (out_pathname out') as [path_name|]; [|reflexivity].
  destruct (String.eqb name path_name); [reflexivity | apply IH].
Qed.

Lemma rewind_underlying fuel (s : PSt) :
  rewind K fuel (underlying s) = underlying_outcome (rewind K fuel s).
Proof.
  unfold rewind. cbn [underlying current_archive_entry_].
  destruct (current_archive_entry_ s) as [e|]; [|reflexivity].
  destruct (archive_entry_pathname e) as [name|]; [|reflexivity].
  destruct (call_underlying read_free s) as [Hcall _]; [left; discriminate|].
  fold (underlying s). rewrite Hcall.
  destruct (call read_free s) as [r s1]. cbn [fst snd].
  destruct (r =? ARCHIVE_OK); cbn [negb]; [|reflexivity].
  change (world (underlying s1)) with (codec_of (world s1)).
  change (reader_Seek 0 SEEK_SET (world s1))
    with (let '(rs, w) := reader_Seek 0 SEEK_SET (codec_of (world s1)) in
          (rs, Positioned w 0)).
  destruct (reader_Seek 0 SEEK_SET (codec_of (world s1))) as [rs w2].
  set (s2 := called (Positioned w2 0) (ESeek 0 SEEK_SET rs) s1).
  change (called w2 (ESeek 0 SEEK_SET rs) (underlying s1)) with (underlying s2).
  rewrite (Init_underlying s2 eq_refl).
  destruct (Init K s2) as [ok s3]. cbn [fst snd].
  destruct ok; cbn [negb]; [apply replay_headers_underlying | reflexivity].
Qed.

Lemma skip_forward_underlying fuel offset (s : PSt) :
  skip_forward K dcheck fuel offset (underlying s)
  = underlying_outcome (skip_forward K dcheck fuel offset s).
Proof.
  revert s. induction fuel as [|fuel IH]; intros s; cbn [skip_forward];
    cbn [underlying last_read_data_offset_];
    destruct (last_read_data_offset_ s <? offset); try reflexivity.
  unfold read_data. cbn. destruct (archive_read_data _ _ _ _) as [[size data] w].
  destruct (negb (PP_DCHECK dcheck (negb (size =? 0)))); [reflexivity|].
  destruct (size <? 0); [reflexivity|].
  match goal with |- _ = underlying_outcome (skip_forward K dcheck fuel offset ?s1) =>
    rewrite <- (IH s1) end.
  reflexivity.
Qed.

Lemma copy_data_underlying fuel bytes_read left_length (s : PSt) :
  copy_data K fuel bytes_read left_length (underlying s)
  = underlying_outcome (copy_data K fuel bytes_read left_length s).
Proof.
  revert bytes_read left_length s.
  induction fuel as [|fuel IH]; intros bytes_read left_length s; cbn [copy_data].
  { reflexivity. }
  unfold read_data. cbn. destruct (archive_read_data _ _ _ _) as [[size data] w].
  destruct (size <? 0); [reflexivity|].
  destruct ((0 <? left_length - size) && negb (size =? 0)); [|reflexivity].
  match goal with
  | |- _ = underlying_outcome (copy_data K fuel ?b ?l ?s1) => rewrite <- (IH b l s1)
  end.
  reflexivity.
Qed.

Lemma decompress_from_cursor_underlying fuel offset len (s : PSt) :
  decompress_from_cursor K dcheck fuel offset len (underlying s)
  = underlying_outcome (decompress_from_cursor K dcheck fuel offset len s).
Proof.
  unfold decompress_from_cursor. rewrite skip_forward_underlying.
  symmetry. apply underlying_bind. intros go_on s1.
  destruct go_on; cbn [negb]; [|reflexivity].
  match goal with |- underlying_outcome (bind (copy_data K fuel ?b ?l ?s2) _) = _ =>
    pose proof (copy_data_underlying fuel b l s2) as Hcopy end.
  cbn in Hcopy. cbn [underlying reader_data_size_]. 
  etransitivity; [apply underlying_bind|].
  2:{ cbn. rewrite <- Hcopy. reflexivity. }
  intros n s3. destruct n; reflexivity.
Qed.

Lemma DecompressData_underlying fuel offset len (s : PSt) :
  DecompressData K dcheck fuel offset len (underlying s)
  = underlying_outcome (DecompressData K dcheck fuel offset len s).
Proof.
  unfold DecompressData. symmetry.
  etransitivity; [apply underlying_bind|].
  2:{ cbn [underlying last_read_data_offset_ set_header_read].
      destruct (offset <? last_read_data_offset_ s).
      - pose proof (rewind_underlying fuel (set_header_read false s)) as Hr.
        cbn in Hr. cbn. rewrite <- Hr. reflexivity.
      - reflexivity. }
  intros go_on s1. destruct go_on; cbn [negb]; [|reflexivity].
  symmetry. apply decompress_from_cursor_underlying.
Qed.

Lemma deliver_underlying len (s : PSt) :
  deliver K dcheck len (underlying s) = underlying_outcome (deliver K dcheck len s).
Proof.
  unfold deliver. cbn [underlying decompressed_error_].
  destruct (decompressed_error_ s); [reflexivity|]. cbn.
  destruct (decompressed_data_ s) as [p|]; [|reflexivity].
  destruct (negb (PP_DCHECK dcheck _)); reflexivity.
Qed.

(** What the coordinator does over a codec with its reader is what it does
    over the codec alone: the reader is at offset 0 whenever the archive is
    opened again. *)
Lemma ReadData_underlying fuel offset len (s : PSt) :
  ReadData K dcheck fuel offset len (underlying s)
  = underlying_outcome (ReadData K dcheck fuel offset len s).
Proof.
  unfold ReadData. destruct (negb (PP_DCHECK dcheck (0 <? len))); [reflexivity|].
  cbn [underlying current_archive_entry_].
  destruct (current_archive_entry_ s) as [e|]; [|reflexivity].
  destruct (archive_entry_size e <=? offset); [reflexivity|].
  symmetry. etransitivity; [apply underlying_bind|].
  2:{ change (window_invalid offset (underlying s)) with (window_invalid offset s).
      destruct (window_invalid offset s); [|reflexivity].
      rewrite DecompressData_underlying. reflexivity. }
  intros [] s1. symmetry. apply deliver_underlying.
Qed.
End PositionedCodec.

(** A read below the cursor over the reference codec with its reader,
    wherever the reader stands. *)
Lemma positioned_backward_read (K : volume_archive_constants) (dcheck : bool)
    fuel offset len (s : VolumeArchiveLibarchive (positioned reference_codec))
    pre e d post name :
  codec_files (codec_of (world s)) = pre ++ (e, d) :: post ->
  codec_free_result (codec_of (world s)) = ARCHIVE_OK ->
  other_names name pre ->
  archive_entry_pathname e = Some name ->
  archive_entry_size e = Z.of_nat (length d) ->
  current_archive_entry_ s = Some e ->
  decompressed_error_ s = false ->
  0 <= offset < last_read_data_offset_ s ->
  offset < archive_entry_size e ->
  0 < len ->
  0 < kDummyBufferSize K -> 0 < kDecompressBufferSize K ->
  (length pre + Z.to_nat offset + 2 <= fuel)%nat ->
  let n := Z.min len (Z.min (kDecompressBufferSize K) (archive_entry_size e - offset)) in
  exists s',
    ReadData K dcheck fuel offset len s = Ret (n, Some 0) s'
    /\ delivered (n, Some 0) s' = take (Z.to_nat n) (drop (Z.to_nat offset) d)
    /\ init_count (log s') = S (init_count (log s)).
Proof.
  intros Hfiles Hfree Hpre Hname Hsize He Hflag Hoff Hin Hlen Hdummy Hcap Hfuel n.
  destruct (reference_backward_read K dcheck fuel offset len (underlying s)
              pre e d post name Hfiles Hfree Hpre Hname Hsize He Hflag Hoff Hin Hlen
              Hdummy Hcap Hfuel) as (s0 & Hr & Hd & Hn).
  rewrite ReadData_underlying in Hr.
  destruct (ReadData K dcheck fuel offset len s) as [r s'|s'|s']; cbn in Hr;
    try discriminate.
  injection Hr as -> <-.
  exists s'. split; [reflexivity|]. split; [exact Hd | exact Hn].
Qed.

(** ** Reads and reinitialisation *)

(** C2, amended.  (1) With a codec that never hands over more than it is asked
    for, a sequence of [ReadData] calls of which each starts at or after the
    place where the previous one stopped (its offset plus the bytes it
    returned; the cursor for the first) never releases the codec and never
    calls [Init].  (2) A [ReadData] with a positive length, below the cursor
    and inside an entry that has a pathname, releases the codec exactly once
    and calls [Init] at most once: exactly once when the release succeeds, not
    at all when it fails, in which case the error value is returned.  (3) Over
    the reference codec with its reader, wherever the reader stands: when the
    release succeeds, the error flag is clear before the call, every earlier
    entry of the archive has a pathname and it is not that of the current
    entry, and the size of the entry is the number of its bytes, such a read
    at an offset that is not negative returns the bytes of the entry at the
    offset asked for, as many as the request, the window and the entry allow,
    after one [Init]. *)
Theorem reads_and_reinitialisation (K : volume_archive_constants) (dcheck : bool) :
  (forall (W : Type) (E : Environment W) fuel requests (s : VolumeArchiveLibarchive W),
      pull_contract -> 0 <= kDummyBufferSize K ->
      spaced (last_read_data_offset_ s) requests (read_all K dcheck fuel requests s).1 ->
      init_count (log (read_all K dcheck fuel requests s).2) = init_count (log s)
      /\ free_count (log (read_all K dcheck fuel requests s).2) = free_count (log s))
  /\ (forall (W : Type) (E : Environment W) fuel offset len
             (s : VolumeArchiveLibarchive W) e name,
        offset < last_read_data_offset_ s ->
        current_archive_entry_ s = Some e ->
        archive_entry_pathname e = Some name ->
        0 < len -> offset < archive_entry_size e ->
        let o := ReadData K dcheck fuel offset len s in
        free_count (log (final o)) = S (free_count (log s))
        /\ exists r,
             ECall read_free (archive_ s) r ∈ log (final o)
             /\ (r = ARCHIVE_OK -> init_count (log (final o)) = S (init_count (log s)))
             /\ (r <> ARCHIVE_OK ->
                 init_count (log (final o)) = init_count (log s)
                 /\ o = Ret (kArchiveReadDataError, None) (final o)))
  /\ (forall fuel offset len (s : VolumeArchiveLibarchive (positioned reference_codec))
             pre e d post name,
        codec_files (codec_of (world s)) = pre ++ (e, d) :: post ->
        codec_free_result (codec_of (world s)) = ARCHIVE_OK ->
        other_names name pre ->
        archive_entry_pathname e = Some name ->
        archive_entry_size e = Z.of_nat (length d) ->
        current_archive_entry_ s = Some e ->
        decompressed_error_ s = false ->
        0 <= offset < last_read_data_offset_ s ->
        offset < archive_entry_size e ->
        0 < len ->
        0 < kDummyBufferSize K -> 0 < kDecompressBufferSize K ->
        (length pre + Z.to_nat offset + 2 <= fuel)%nat ->
        let n := Z.min len (Z.min (kDecompressBufferSize K)
                                  (archive_entry_size e - offset)) in
        exists s',
          ReadData K dcheck fuel offset len s = Ret (n, Some 0) s'
          /\ delivered (n, Some 0) s' = take (Z.to_nat n) (drop (Z.to_nat offset) d)
          /\ init_count (log s') = S (init_count (log s))).
Proof.
  split; [|split].
  - intros W E fuel requests s. apply read_all_forward.
  - intros W E fuel offset len s e name. apply ReadData_backward_counts.
  - intros fuel offset len s pre e d post name. apply positioned_backward_read.
Qed.

(** ** The statements on the scenarios *)

Lemma backward_read_rewinds_witness :
  rewound test_constants "a.txt" 20 after_hello
          (DecompressData test_constants false 20 2 1 after_hello)
  /\ ReadData test_constants false 20 2 1 after_hello
     = bind (DecompressData test_constants false 20 2 1 after_hello)
            (fun _ s1 => deliver test_constants false 1 s1)
  /\ ReadData test_constants false 20 2 1 stale_cursor = Ret (0, None) stale_cursor.
Proof.
  destruct (backward_read_rewinds_and_replays test_constants false 20 2 1
              after_hello a_txt "a.txt") as (H1 & H2 & _);
    [vm_compute; reflexivity | reflexivity | reflexivity |].
  destruct (backward_read_rewinds_and_replays test_constants false 20 2 1
              stale_cursor (file_entry "c.txt" "!").1 "c.txt") as (_ & _ & H3);
    [vm_compute; reflexivity | reflexivity | reflexivity |].
  split; [exact H1|]. split; [apply H2; [lia | cbn; lia]|].
  apply H3; [lia | cbn; lia].
Defined.

(** The claim C1 as written fails when the release of the codec fails: the
    offset is below the cursor, yet the reader is not sent back to 0 and
    [Init] is not called. *)
Lemma failed_release_skips_the_rewind :
  let s := after_hello_stuck in
  let o := DecompressData test_constants false 20 2 1 s in
  2 < last_read_data_offset_ s
  /\ log (final o) = log s ++ [ECall read_free (archive_ s) ARCHIVE_FATAL]
  /\ init_count (log (final o)) = init_count (log s)
  /\ decompressed_error_ (final o) = true.
Proof. vm_compute. repeat split. Qed.

Lemma reads_and_reinitialisation_witness :
  (init_count (log (read_all test_constants false 20 [(0, 5); (5, 20)] at_a_txt).2)
   = init_count (log at_a_txt))
  /\ free_count (log (final (ReadData test_constants false 20 2 1 after_hello_stuck)))
     = S (free_count (log after_hello_stuck))
  /\ 0 < reader_offset (world positioned_after_hello)
  /\ exists s',
       ReadData test_constants false 20 2 1 positioned_after_hello = Ret (1, Some 0) s'
       /\ delivered (1, Some 0) s' = bytes_of "l".
Proof.
  destruct (reads_and_reinitialisation test_constants false) as (H1 & H2 & H3).
  split; [|split; [|split]].
  - apply (H1 reference_codec _ 20%nat [(0, 5); (5, 20)] at_a_txt).
    + apply reference_codec_pull_contract.
    + cbn. lia.
    + vm_compute. repeat split; discriminate.
  - apply (H2 reference_codec _ 20%nat 2 1 after_hello_stuck a_txt "a.txt");
      [vm_compute; reflexivity | reflexivity | reflexivity | lia | cbn; lia].
  - reflexivity.
  - destruct (H3 20%nat 2 1 positioned_after_hello [] a_txt (bytes_of "Hello World!")
                [file_entry "b.txt" "Bye!!"] "a.txt") as (s' & Hr & Hd & _);
      try reflexivity; try (cbn; lia).
    + apply Forall_nil_2.
    + exists s'. split; [exact Hr | exact Hd].
Defined.

(** The claim C2 as written fails on strictly increasing offsets that overlap:
    after reading 5 bytes at offset 0 the cursor is 5, and the read at offset
    2 calls [Init] again. *)
Lemma increasing_offsets_reinitialise :
  let r := read_all test_constants false 20 [(0, 5); (2, 1)] at_a_txt in
  0 < 2
  /\ r.1 = [5; 1]
  /\ init_count (log r.2) = S (init_count (log at_a_txt)).
Proof. vm_compute. repeat split. Qed.

Lemma error_flag_is_sticky_witness :
  decompressed_error_
    (final (run test_constants false 20 [OpGetNextHeader; OpReadData 0 1] poisoned))
  = true
  /\ ReadData test_constants false 20 12 1 poisoned = Ret (0, None) poisoned
  /\ decompressed_error_ (final (ReadData test_constants false 20 3 1 poisoned)) = true
  /\ forall r s', ReadData test_constants false 20 3 1 poisoned = Ret r s' ->
                  r = (kArchiveReadDataError, None).
Proof.
  destruct (error_flag_is_sticky test_constants false 20 poisoned eq_refl) as [H1 H2].
  split; [apply H1|].
  destruct (H2 12 1 a_txt ltac:(lia) eq_refl) as [Hend _].
  destruct (H2 3 1 a_txt ltac:(lia) eq_refl) as [_ Hin].
  split; [apply Hend; cbn; lia|].
  destruct (Hin ltac:(cbn; lia)) as (Hflag & Hret & _).
  split; [exact Hflag | exact Hret].
Defined.

(** The claim C3 as written fails for an offset at or past the size of the
    entry: with the flag set, such a read returns 0, not the error value. *)
Lemma flagged_read_past_the_end_returns_zero :
  decompressed_error_ poisoned = true
  /\ ReadData test_constants false 20 12 1 poisoned = Ret (0, None) poisoned.
Proof. vm_compute. split; reflexivity. Qed.

Lemma window_stays_within_capacity_witness :
  window_inv test_constants
    (final (run test_constants false 20
              [OpInit; OpGetNextHeader; OpReadData 0 5; OpMaybeDecompressAhead;
               OpReadData 2 3]
              (scenario_new two_files ARCHIVE_OK))).
Proof.
  destruct (window_stays_within_capacity test_constants false
              reference_codec_pull_contract) as (H1 & _ & _).
  apply H1; [reflexivity|]. unfold positive_lengths.
  repeat (constructor; [try exact I; try lia|]). constructor.
Defined.

(** C5: the code at the failing input.  On the two-file archive, after
    [ReadData(0, 4)] and [MaybeDecompressAhead()], the codec stands at byte 8
    of [a.txt] and the cursor at 4.  [ReadData(10, 1)] then has to skip 6
    bytes of which the entry has only 4 left: in a release build the skip loop
    uses up any budget, and the error flag stays clear; in a debug build the
    [PP_DCHECK] of line 278 stops the process.  In neither does the call
    return an error. *)
Theorem skip_past_the_data_never_fails :
  (forall fuel, exists s',
      ReadData test_constants false fuel 10 1 read_ahead = OutOfFuel s'
      /\ decompressed_error_ s' = false)
  /\ (exists s',
        ReadData test_constants true 20 10 1 read_ahead = Stop s'
        /\ decompressed_error_ s' = false).
Proof.
  split.
  - intros fuel.
    destruct (reference_read_starved test_constants fuel 10 1 read_ahead a_txt)
      as (s' & Hr & He); try reflexivity; try (cbn; lia).
    exists s'. split; [exact Hr | exact He].
  - vm_compute. eexists. split; reflexivity.
Qed.

Lemma ReadData_at_end_of_entry_witness :
  ReadData test_constants false 20 12 7 after_hello = Ret (0, None) after_hello.
Proof.
  apply (ReadData_at_end_of_entry test_constants false 20 12 7 after_hello a_txt);
    [lia | reflexivity | cbn; lia].
Defined.

Lemma Cleanup_witness :
  let '(ok1, s1) := Cleanup test_constants after_hello_stuck in
  ok1 = false /\ archive_ s1 = None
  /\ (Cleanup test_constants s1).1 = true
  /\ archive_ (Cleanup test_constants s1).2 = None.
Proof.
  pose proof (Cleanup_releases_both_and_is_idempotent test_constants after_hello_stuck)
    as Hc.
  destruct (Cleanup test_constants after_hello_stuck) as [ok1 s1] eqn:E1.
  destruct (Cleanup test_constants s1) as [ok2 s2] eqn:E2.
  destruct Hc as (Ha & Hfirst & Hok2 & Hs2).
  change (archive_ after_hello_stuck) with (Some 0%nat) in Hfirst.
  destruct Hfirst as (r & w & Hcall & _ & _ & Hiff).
  vm_compute in Hcall. injection Hcall as <- _.
  split.
  { destruct ok1; [|reflexivity]. destruct Hiff as [Hiff _].
    specialize (Hiff eq_refl). discriminate. }
  split; [exact Ha|]. split; [exact Hok2|]. rewrite Hs2. exact Ha.
Defined.

(** The window of [read_ahead] holds bytes 4 to 7 of [a.txt]; after
    [GetNextHeader] selected [b.txt], a read at offset 0 hands them out. *)
Lemma GetNextHeader_keeps_the_window_witness :
  exists s'',
    ReadData test_constants false 20 0 5
             (GetNextHeader test_constants no_out read_ahead).2
    = Ret (4, Some 0) s''
    /\ delivered (4, Some 0) s'' = bytes_of "o Wo".
Proof.
  pose proof (GetNextHeader_keeps_the_window test_constants false no_out read_ahead)
    as Hk.
  destruct (GetNextHeader test_constants no_out read_ahead) as [[ok out'] s'] eqn:E.
  destruct Hk as (_ & _ & _ & _ & _ & _ & Hk).
  vm_compute in E. injection E as _ _ <-.
  destruct (Hk 20%nat 5 0 (Entry (Some "b.txt") 5 32768 0))
    as (s'' & Hr & _ & _ & Hd); try reflexivity; try (cbn; lia).
  exists s''. split; [exact Hr | exact Hd].
Defined.

(** The claim C10 as written fails when the entry just selected is empty: the
    window still holds 4 undelivered bytes of the previous entry, and the read
    at offset 0 returns 0 without handing any of them out. *)
Lemma empty_entry_is_not_served_from_the_window :
  let s := read_ahead_before_empty in
  let s' := (GetNextHeader test_constants no_out s).2 in
  decompressed_data_ s = Some 0
  /\ decompressed_data_size_ s = 4
  /\ decompressed_data_size_ s' = 4
  /\ ReadData test_constants false 20 0 5 s' = Ret (0, None) s'.
Proof. vm_compute. repeat split. Qed.

Lemma CustomArchiveRead_cache_then_read_witness :
  exists b',
    CustomArchiveRead test_constants true 16 working_bridge = (4, bytes_of "PK12", b')
    /\ calls b' = [BRead 16 4; BAddHeader 0 (bytes_of "PK12") 4]
    /\ header_cache b' = AddHeader 0 (bytes_of "PK12") 4 (header_cache working_bridge).
Proof.
  pose proof (CustomArchiveRead_cache_then_read test_constants true 16 working_bridge)
    as Hc.
  cbv zeta in Hc.
  change (GetHeader (GetOffset (reader working_bridge)) (header_cache working_bridge))
    with (@None (list byte)) in Hc.
  cbv iota in Hc.
  change (Read 16 (reader working_bridge))
    with (4, bytes_of "PK12", MemoryReader (bytes_of "PK12") 4 true) in Hc.
  cbv iota beta in Hc.
  destruct Hc as (b' & tail & Hr & _ & Hcalls & Hstore & _).
  assert (Hp : true = true /\ 0 < 4) by (split; [reflexivity | lia]).
  destruct (Hstore Hp) as [-> Hcache].
  exists b'. split; [exact Hr|]. split; [exact Hcalls | exact Hcache].
Defined.

Lemma callbacks_set_error_witness :
  error_installed test_constants broken_bridge
    (CustomArchiveRead test_constants false 16 broken_bridge).2
  /\ error_installed test_constants broken_bridge
       (CustomArchiveSeek test_constants 0 SEEK_SET broken_bridge).2
  /\ error_installed test_constants broken_bridge
       (CustomArchiveClose test_constants broken_bridge).2.
Proof.
  destruct (callbacks_set_error_before_fatal test_constants broken_bridge)
    as (Hread & Hseek & Hclose).
  split; [|split].
  - apply (Hread false 16 ARCHIVE_FATAL [] _); reflexivity.
  - apply (Hseek 0 SEEK_SET ARCHIVE_FATAL _); reflexivity.
  - apply (Hclose ARCHIVE_FATAL _); reflexivity.
Defined.

(** * Further properties *)

(** ** The pull callbacks *)

Section CallbackFurther.
Context {R C : Type} `{VolumeReader R} `{HeaderCache C}.
Variable K : volume_archive_constants.

(** X1. A callback writes the error channel of the codec only when it returns
    [ARCHIVE_FATAL]: with any other result of the read, seek and close
    callbacks, and with every result of the skip callback, the channel is as
    before and [archive_set_error] was not called. *)
Theorem callbacks_keep_error_channel_otherwise (b : bridge R C) :
  (forall header_read reader_data_size result buffer b',
      CustomArchiveRead K header_read reader_data_size b = (result, buffer, b') ->
      result <> ARCHIVE_FATAL -> error_untouched b b')
  /\ (forall request result b',
        CustomArchiveSkip request b = (result, b') -> error_untouched b b')
  /\ (forall offset whence result b',
        CustomArchiveSeek K offset whence b = (result, b') ->
        result <> ARCHIVE_FATAL -> error_untouched b b')
  /\ (forall result b',
        CustomArchiveClose K b = (result, b') ->
        result <> ARCHIVE_FATAL -> error_untouched b b').
Proof.
  assert (Hunc : forall header_read reader_data_size result buffer b',
             CustomArchiveRead_uncached K header_read reader_data_size b
               = (result, buffer, b') ->
             result <> ARCHIVE_FATAL -> error_untouched b b').
  { intros hr rds result buffer b'. unfold CustomArchiveRead_uncached.
    destruct (Read rds (reader b)) as [[read_bytes buf] r].
    destruct (read_bytes =? ARCHIVE_FATAL) eqn:Hfatal.
    - intros [= <- <- <-] Hr. contradiction.
    - destruct (hr && (0 <? read_bytes)); intros [= <- <- <-] _;
        (split; [reflexivity|]).
      + eexists [_; _]. cbn. rewrite <- app_assoc. split; reflexivity.
      + eexists [_]. cbn. split; reflexivity. }
  split; [|split; [|split]].
  - intros hr rds result buffer b'. unfold CustomArchiveRead.
    destruct hr; [|apply Hunc].
    destruct (GetHeader (GetOffset (reader b)) (header_cache b)) as [cached|];
      [|apply Hunc].
    destruct (Skip (Z.of_nat (length cached)) (reader b)) as [skipped r].
    destruct (skipped =? Z.of_nat (length cached)).
    + intros [= <- <- <-] _. split; [reflexivity|].
      eexists [_]. split; reflexivity.
    + intros [= <- <- <-] Hr. contradiction.
  - intros request result b'. unfold CustomArchiveSkip.
    destruct (Skip request (reader b)) as [skipped r].
    intros [= <- <-]. split; [reflexivity|]. eexists [_]. split; reflexivity.
  - intros offset whence result b'. unfold CustomArchiveSeek.
    destruct (Seek offset whence (reader b)) as [new_offset r].
    intros [= <- <-] Hr. apply Z.eqb_neq in Hr. rewrite Hr.
    split; [reflexivity|]. eexists [_]. split; reflexivity.
  - intros result b'. unfold CustomArchiveClose.
    destruct (Close (reader b)) as [res r].
    intros [= <- <-] Hr. apply Z.eqb_neq in Hr. rewrite Hr.
    split; [reflexivity|]. eexists [_]. split; reflexivity.
Qed.

(** X2. A header read in the header phase is replayed from the cache: when
    the cache had nothing at the offset of the reader and the read returned
    [n > 0] bytes, then, with a cache that keeps what it is given, a second
    read callback in the header phase with the reader back at that offset
    returns the same [n] bytes by skipping [n] bytes on the reader, without
    reading from it. *)
Theorem cached_header_is_replayed reader_data_size (b : bridge R C) n buffer r1 b1
    reader_data_size' r2 r3 :
  cache_keeps_headers C ->
  GetHeader (GetOffset (reader b)) (header_cache b) = None ->
  Read reader_data_size (reader b) = (n, buffer, r1) ->
  0 < n -> n = Z.of_nat (length buffer) ->
  (CustomArchiveRead K true reader_data_size b).2 = b1 ->
  GetOffset r2 = GetOffset (reader b) ->
  Skip n r2 = (n, r3) ->
  exists b2,
    CustomArchiveRead K true reader_data_size'
      (Bridge r2 (header_cache b1) (archive_error b1) (calls b1))
    = (n, buffer, b2)
    /\ reader b2 = r3
    /\ header_cache b2 = header_cache b1
    /\ calls b2 = calls b1 ++ [BSkip n n].
Proof.
  intros Hlaw Hmiss Hread Hpos Hlen Hb1 Hoff Hskip.
  assert (Hcache : header_cache b1
                   = AddHeader (GetOffset (reader b)) buffer n (header_cache b)).
  { subst b1. unfold CustomArchiveRead. rewrite Hmiss.
    unfold CustomArchiveRead_uncached. rewrite Hread.
    assert (Hnf : (n =? ARCHIVE_FATAL) = false)
      by (apply Z.eqb_neq; unfold ARCHIVE_FATAL; lia).
    apply Z.ltb_lt in Hpos. rewrite Hnf, Hpos. reflexivity. }
  unfold CustomArchiveRead. cbn [reader header_cache]. rewrite Hoff, Hcache, Hlaw.
  assert (Htake : take (Z.to_nat n) buffer = buffer)
    by (apply take_ge; lia).
  rewrite Htake, <- Hlen, Hskip, Z.eqb_refl.
  eexists. split; [reflexivity|]. cbn. rewrite <- Hcache. auto.
Qed.
End CallbackFurther.

Lemma gmap_cache_keeps_headers : cache_keeps_headers (gmap Z (list byte)).
Proof. intros offset buffer n c. cbn. apply lookup_insert_eq. Qed.

Lemma callbacks_keep_error_channel_witness :
  error_untouched working_bridge
    (CustomArchiveRead test_constants true 16 working_bridge).2
  /\ error_untouched working_bridge
       (CustomArchiveSeek test_constants 2 SEEK_SET working_bridge).2
  /\ error_untouched working_bridge (CustomArchiveClose test_constants working_bridge).2.
Proof.
  destruct (callbacks_keep_error_channel_otherwise test_constants working_bridge)
    as (Hread & _ & Hseek & Hclose).
  split; [|split].
  - apply (Hread true 16 4 (bytes_of "PK12") _); [reflexivity | discriminate].
  - apply (Hseek 2 SEEK_SET 2 _); [reflexivity | discriminate].
  - apply (Hclose ARCHIVE_OK _); [reflexivity | discriminate].
Defined.

Lemma cached_header_is_replayed_witness :
  exists b2,
    CustomArchiveRead test_constants true 16
      (Bridge (MemoryReader (bytes_of "PK12") 0 true)
              (header_cache (CustomArchiveRead test_constants true 16 working_bridge).2)
              (archive_error (CustomArchiveRead test_constants true 16 working_bridge).2)
              (calls (CustomArchiveRead test_constants true 16 working_bridge).2))
    = (4, bytes_of "PK12", b2)
    /\ forallb (fun ev => negb (is_read ev))
               (drop 2 (calls b2)) = true.
Proof.
  destruct (cached_header_is_replayed test_constants 16 working_bridge 4
              (bytes_of "PK12") (MemoryReader (bytes_of "PK12") 4 true)
              (CustomArchiveRead test_constants true 16 working_bridge).2 16
              (MemoryReader (bytes_of "PK12") 0 true)
              (MemoryReader (bytes_of "PK12") 4 true))
    as (b2 & Hr & _ & _ & Hcalls);
    try reflexivity; try lia; try apply gmap_cache_keeps_headers.
  exists b2. split; [exact Hr|]. rewrite Hcalls. reflexivity.
Defined.

(** ** [Init] and the error messages *)

Section InitFurther.
Context {W : Type} `{Environment W}.
Variable K : volume_archive_constants.
Variable dcheck : bool.

Abbreviation St := (VolumeArchiveLibarchive W).

Lemma moved_moved w1 evs1 w2 evs2 (s : St) :
  moved w2 evs2 (moved w1 evs1 s) = moved w2 (evs1 ++ evs2) s.
Proof. unfold moved. cbn. rewrite app_assoc. reflexivity. Qed.

Lemma any_call_fails_moved cs (s : St) :
  exists w evs,
    (any_call_fails cs s).2 = moved w evs s
    /\ ((any_call_fails cs s).1 = false -> evs = all_ok (archive_ s) cs)
    /\ ((any_call_fails cs s).1 = true ->
        exists n c r,
          cs !! n = Some c /\ r <> ARCHIVE_OK
          /\ evs = all_ok (archive_ s) (take n cs) ++ [ECall c (archive_ s) r]).
Proof.
  revert s. induction cs as [|c cs IH]; intros s; cbn [any_call_fails].
  - exists (world s), []. cbn. split.
    { unfold moved. rewrite app_nil_r. destruct s; reflexivity. }
    split; [reflexivity | discriminate].
  - unfold call. destruct (archive_call c _ _ _) as [r w].
    change (called w (ECall c (archive_ s) r) s)
      with (moved w [ECall c (archive_ s) r] s).
    destruct (r =? ARCHIVE_OK) eqn:Hr.
    + apply Z.eqb_eq in Hr. subst r.
      destruct (IH (moved w [ECall c (archive_ s) ARCHIVE_OK] s))
        as (w' & evs & Hs & Hok & Hbad).
      exists w', (ECall c (archive_ s) ARCHIVE_OK :: evs).
      rewrite Hs, moved_moved. split; [reflexivity|]. split.
      * intros Hf. rewrite (Hok Hf). reflexivity.
      * intros Hf. destruct (Hbad Hf) as (n & c' & r & Hn & Hr & ->).
        exists (S n), c', r. repeat split; assumption.
    + apply Z.eqb_neq in Hr. exists w, [ECall c (archive_ s) r]. cbn.
      split; [reflexivity|]. split; [discriminate|]. intros _.
      exists 0%nat, c, r. repeat split. exact Hr.
Qed.

Lemma not_all_ok (l : list event) c a r a' cs :
  r <> ARCHIVE_OK -> l ++ [ECall c a r] <> all_ok a' cs.
Proof.
  intros Hr Heq.
  assert (Hin : ECall c a r ∈ all_ok a' cs).
  { rewrite <- Heq. apply elem_of_app. right. apply list_elem_of_singleton.
    reflexivity. }
  unfold all_ok in Hin. apply list_elem_of_fmap in Hin as (c' & Hev & _).
  congruence.
Qed.

(** X3. [Init] calls [archive_read_new], then the two format registrations,
    the five callback registrations and [archive_read_open1], in that order,
    and stops at the first call that does not return [ARCHIVE_OK].  It returns
    true exactly when the archive was allocated and all eight calls returned
    [ARCHIVE_OK]; the header phase is then on.  Otherwise the message is the
    allocation error, or the support prefix (first two calls) or the open
    prefix (last six) followed by the error string of the codec.  In every
    case the chunk size, the cursor, the current entry and the error flag are
    as before. *)
Theorem Init_stops_at_the_first_failure (s : St) :
  let '(ok, s') := Init K s in
  exists evs,
    log s' = log s ++ ENew (archive_ s') :: evs
    /\ (ok = true <-> archive_ s' <> None /\ evs = all_ok (archive_ s') init_calls)
    /\ (ok = true ->
        header_read_ s' = true /\ error_message_ s' = error_message_ s)
    /\ (ok = false ->
        (archive_ s' = None /\ evs = []
         /\ error_message_ s' = kArchiveReadNewError K)
        \/ exists n c r,
             init_calls !! n = Some c /\ r <> ARCHIVE_OK
             /\ evs = all_ok (archive_ s') (take n init_calls)
                        ++ [ECall c (archive_ s') r]
             /\ error_message_ s'
                = String.append
                    (if (n <? 2)%nat then kArchiveSupportErrorPrefix K
                     else kArchiveOpenErrorPrefix K)
                    (archive_error_string (archive_ s') (world s')))
    /\ reader_data_size_ s' = reader_data_size_ s
    /\ last_read_data_offset_ s' = last_read_data_offset_ s
    /\ current_archive_entry_ s' = current_archive_entry_ s
    /\ decompressed_error_ s' = decompressed_error_ s.
Proof.
  unfold Init. destruct (archive_read_new (world s)) as [a w].
  set (s1 := set_archive a (called w (ENew a) s)).
  destruct a as [a|].
  2:{ exists []. cbn. split; [reflexivity|]. split.
      { split; [discriminate | intros [Hn _]; contradiction]. }
      split; [discriminate|]. split; [intros _; left; auto|]. auto. }
  destruct (any_call_fails_moved support_calls s1) as (w2 & evs2 & Hs2 & Hok2 & Hbad2).
  destruct (any_call_fails support_calls s1) as [failed2 s2]. cbn [fst snd] in *.
  subst s2. destruct failed2.
  - destruct (Hbad2 eq_refl) as (n & c & r & Hn & Hr & ->).
    exists (all_ok (Some a) (take n support_calls) ++ [ECall c (Some a) r]).
    assert (Hn2 : (n < 2)%nat) by (apply lookup_lt_Some in Hn; exact Hn).
    cbn. rewrite <- app_assoc. split; [reflexivity|]. split.
    { split; [discriminate|]. intros [_ Habs]. exfalso.
      eapply (not_all_ok _ _ _ _ (Some a) init_calls); [exact Hr | exact Habs]. }
    split; [discriminate|]. split; [|auto].
    intros _. right. exists n, c, r.
    destruct n as [|[|n]]; [| |lia]; cbn in Hn; injection Hn as <-;
      (split; [reflexivity|]); (split; [exact Hr|]); split; reflexivity.
  - rewrite (Hok2 eq_refl).
    set (s3 := set_header_read true (moved w2 (all_ok (archive_ s1) support_calls) s1)).
    destruct (any_call_fails_moved open_calls s3) as (w4 & evs4 & Hs4 & Hok4 & Hbad4).
    destruct (any_call_fails open_calls s3) as [failed4 s4]. cbn [fst snd] in *.
    subst s4. destruct failed4.
    + destruct (Hbad4 eq_refl) as (n & c & r & Hn & Hr & ->).
      exists (all_ok (Some a) support_calls
              ++ all_ok (Some a) (take n open_calls) ++ [ECall c (Some a) r]).
      cbn. rewrite <- !app_assoc. split; [reflexivity|]. split.
      { split; [discriminate|]. intros [_ Habs]. exfalso.
        injection Habs as Habs.
        eapply (not_all_ok _ _ _ _ (Some a) open_calls); [exact Hr | exact Habs]. }
      split; [discriminate|]. split; [|auto].
      intros _. right. exists (2 + n)%nat, c, r.
      split; [exact Hn|]. split; [exact Hr|]. split.
      * reflexivity.
      * reflexivity.
    + rewrite (Hok4 eq_refl). exists (all_ok (Some a) init_calls).
      cbn. rewrite <- !app_assoc. split; [reflexivity|]. split.
      { split; [intros _; split; [discriminate | reflexivity] | reflexivity]. }
      split; [auto|]. split; [discriminate|]. auto.
Qed.
End InitFurther.

Lemma Init_stops_at_the_first_failure_witness :
  exists evs,
    log (Init test_constants (scenario_new two_files ARCHIVE_OK)).2
    = ENew (archive_ (Init test_constants (scenario_new two_files ARCHIVE_OK)).2) :: evs
    /\ evs = all_ok (archive_ (Init test_constants (scenario_new two_files ARCHIVE_OK)).2)
                    init_calls
    /\ header_read_ (Init test_constants (scenario_new two_files ARCHIVE_OK)).2 = true.
Proof.
  pose proof (Init_stops_at_the_first_failure test_constants
                (scenario_new two_files ARCHIVE_OK)) as H.
  destruct (Init test_constants (scenario_new two_files ARCHIVE_OK)) as [ok s'] eqn:E.
  assert (Hok : ok = true) by exact (eq_sym (f_equal fst E)).
  destruct H as (evs & Hlog & Hiff & Hhr & _).
  exists evs. split; [exact Hlog|].
  split; [apply Hiff; exact Hok | apply Hhr; exact Hok].
Defined.

Section MessageFurther.
Context {W : Type} `{Environment W}.
Variable K : volume_archive_constants.
Variable dcheck : bool.

Abbreviation St := (VolumeArchiveLibarchive W).

Lemma names_the_failure_after evs (s s1 s' : St) :
  log s1 = log s ++ evs -> names_the_failure K s1 s' -> names_the_failure K s s'.
Proof.
  intros Hlog (evs' & ev & Hlog' & Hm). exists (evs ++ evs'), ev.
  split; [|exact Hm]. rewrite Hlog', Hlog, <- !app_assoc. reflexivity.
Qed.

Lemma clean_or_named_after {A : Type} (go_on : A -> bool) evs (s s1 : St)
    (o : outcome A St) :
  log s1 = log s ++ evs -> decompressed_error_ s1 = decompressed_error_ s ->
  clean_or_named K go_on s1 o -> clean_or_named K go_on s o.
Proof.
  intros Hlog Hflag. destruct o as [a s'|s'|s']; cbn; try congruence.
  destruct (go_on a).
  - intros [He (evs' & Hl)]. split; [congruence|].
    exists (evs ++ evs'). rewrite Hl, Hlog, <- app_assoc. reflexivity.
  - intros [He Hn]. split; [exact He|].
    eapply names_the_failure_after; eassumption.
Qed.

Lemma Init_named (s : St) :
  (Init K s).1 = false -> names_the_failure K s (Init K s).2.
Proof.
  unfold Init. destruct (archive_read_new (world s)) as [a w].
  set (s1 := set_archive a (called w (ENew a) s)).
  destruct a as [a|].
  2:{ intros _. exists [], (ENew None). split; reflexivity. }
  destruct (any_call_fails_moved support_calls s1) as (w2 & evs2 & Hs2 & Hok2 & Hbad2).
  destruct (any_call_fails support_calls s1) as [failed2 s2]. cbn [fst snd] in *.
  subst s2. destruct failed2.
  - intros _. destruct (Hbad2 eq_refl) as (n & c & r & Hn & Hr & ->).
    exists (ENew (Some a) :: all_ok (Some a) (take n support_calls)),
           (ECall c (Some a) r).
    split; [cbn; rewrite <- app_assoc; reflexivity|].
    apply Z.eqb_neq in Hr. cbn. rewrite Hr.
    destruct n as [|[|n]]; cbn in Hn; [| |discriminate];
      injection Hn as <-; reflexivity.
  - rewrite (Hok2 eq_refl).
    set (s3 := set_header_read true (moved w2 (all_ok (archive_ s1) support_calls) s1)).
    destruct (any_call_fails_moved open_calls s3) as (w4 & evs4 & Hs4 & Hok4 & Hbad4).
    destruct (any_call_fails open_calls s3) as [failed4 s4]. cbn [fst snd] in *.
    subst s4. destruct failed4; [|discriminate].
    intros _. destruct (Hbad4 eq_refl) as (n & c & r & Hn & Hr & ->).
    exists (ENew (Some a) :: all_ok (Some a) support_calls
              ++ all_ok (Some a) (take n open_calls)),
           (ECall c (Some a) r).
    split; [cbn; rewrite <- !app_assoc; reflexivity|].
    apply Z.eqb_neq in Hr. cbn. rewrite Hr.
    do 6 (destruct n as [|n]; [cbn in Hn; injection Hn as <-; reflexivity|]).
    discriminate.
Qed.

Lemma GetNextHeader_named out (s : St) :
  let '(ok, out', s') := GetNextHeader K out s in
  decompressed_error_ s' = decompressed_error_ s
  /\ (exists evs, log s' = log s ++ evs)
  /\ (ok = false -> names_the_failure K s s')
  /\ (ok = true -> out_pathname out' = None ->
      names_the_failure K s
        (set_decompressed_error true (set_error_message (kFileNotFound K) s'))).
Proof.
  unfold GetNextHeader. cbn.
  destruct (archive_read_next_header _ _ _) as [[r e] w].
  destruct (r =? ARCHIVE_EOF) eqn:Heof.
  { cbn. split; [reflexivity|]. split; [eexists; reflexivity|].
    split; [discriminate|]. intros _ _.
    exists [], (ENextHeader (archive_ s) r e). split; [reflexivity|].
    cbn. rewrite Heof. reflexivity. }
  destruct (r =? ARCHIVE_OK) eqn:Hok.
  { cbn. split; [reflexivity|]. split; [eexists; reflexivity|].
    split; [discriminate|]. intros _ Hnone.
    exists [], (ENextHeader (archive_ s) r e). split; [reflexivity|].
    cbn. rewrite Heof, Hok, Hnone. reflexivity. }
  cbn. split; [reflexivity|]. split; [eexists; reflexivity|].
  split; [|discriminate]. intros _.
  exists [], (ENextHeader (archive_ s) r e). split; [reflexivity|].
  cbn. rewrite Heof, Hok. reflexivity.
Qed.

Lemma replay_headers_named fuel name out (s : St) :
  clean_or_named K (fun go_on : bool => go_on) s (replay_headers K fuel name out s).
Proof.
  revert out s. induction fuel as [|fuel IH]; intros out s; cbn [replay_headers].
  { reflexivity. }
  pose proof (GetNextHeader_named out s) as Hnamed.
  destruct (GetNextHeader K out s) as [[ok out'] s1].
  destruct Hnamed as (Herr & (evs & Hlog) & Hbad & Hnone).
  destruct ok; cbn [negb].
  - destruct (out_pathname out') as [path_name|].
    + destruct (String.eqb name path_name).
      * cbn. split; [exact Herr | exists evs; exact Hlog].
      * eapply clean_or_named_after; [exact Hlog | exact Herr | apply IH].
    + cbn. split; [reflexivity|]. apply Hnone; reflexivity.
  - cbn. split; [reflexivity|].
    destruct (Hbad eq_refl) as (evs' & ev & Hl & Hm).
    exists evs', ev. split; [exact Hl | exact Hm].
Qed.

Lemma rewind_named fuel (s : St) :
  clean_or_named K (fun go_on : bool => go_on) s (rewind K fuel s).
Proof.
  unfold rewind.
  destruct (current_archive_entry_ s) as [e|]; [|reflexivity].
  destruct (archive_entry_pathname e) as [name|]; [|reflexivity].
  unfold call. destruct (archive_call read_free _ _ _) as [r w1].
  destruct (r =? ARCHIVE_OK) eqn:Hr; cbn [negb].
  2:{ cbn. split; [reflexivity|].
      exists [], (ECall read_free (archive_ s) r). split; [reflexivity|].
      cbn. rewrite Hr. reflexivity. }
  destruct (reader_Seek 0 SEEK_SET _) as [rs w2].
  match goal with |- context [Init K ?s2] =>
    set (s2' := s2);
    pose proof (Init_log K s2') as Hlog; pose proof (Init_named s2') as Hnamed;
    destruct (Init K s2') as [ok s3] end.
  destruct Hlog as (evs & Hl & _ & Herr & _). cbn [fst snd] in Hnamed.
  assert (Hl2 : log s2' = log s ++ [ECall read_free (archive_ s) r; ESeek 0 SEEK_SET rs]).
  { subst s2'. cbn. rewrite <- app_assoc. reflexivity. }
  destruct ok; cbn [negb].
  - eapply clean_or_named_after; [exact Hl2 | reflexivity|].
    eapply clean_or_named_after; [exact Hl | exact Herr|].
    apply replay_headers_named.
  - cbn. split; [reflexivity|].
    eapply names_the_failure_after; [exact Hl2|].
    destruct (Hnamed eq_refl) as (evs' & ev & Hl' & Hm).
    exists evs', ev. split; [exact Hl' | exact Hm].
Qed.

Lemma skip_forward_named fuel offset (s : St) :
  clean_or_named K (fun go_on : bool => go_on) s (skip_forward K dcheck fuel offset s).
Proof.
  assert (Hstay : clean_or_named K (fun go_on : bool => go_on) s (Ret true s)).
  { cbn. split; [reflexivity|]. exists []. rewrite app_nil_r. reflexivity. }
  revert s Hstay. induction fuel as [|fuel IH]; intros s Hstay; cbn [skip_forward];
    destruct (last_read_data_offset_ s <? offset); try exact Hstay; try reflexivity.
  unfold read_data. cbn. destruct (archive_read_data _ _ _ _) as [[size data] w].
  destruct (negb (PP_DCHECK dcheck (negb (size =? 0)))); [reflexivity|].
  destruct (size <? 0) eqn:Hneg.
  { cbn. split; [reflexivity|]. eexists [], _. split; [reflexivity|].
    cbn. rewrite Hneg. reflexivity. }
  match goal with |- context [skip_forward K dcheck fuel offset ?s1] =>
    eapply (clean_or_named_after _ [_] s s1); [reflexivity | reflexivity|];
    apply IH end.
  cbn. split; [reflexivity|]. exists []. rewrite app_nil_r. reflexivity.
Qed.

Lemma copy_data_named fuel bytes_read left_length (s : St) :
  clean_or_named K (fun n : option Z => match n with Some _ => true | None => false end)
    s (copy_data K fuel bytes_read left_length s).
Proof.
  revert bytes_read left_length s.
  induction fuel as [|fuel IH]; intros bytes_read left_length s; cbn [copy_data].
  { reflexivity. }
  unfold read_data. destruct (archive_read_data _ _ _ _) as [[size data] w].
  destruct (size <? 0) eqn:Hneg.
  { cbn. split; [reflexivity|]. eexists [], _. split; [reflexivity|].
    cbn. rewrite Hneg. reflexivity. }
  destruct ((0 <? left_length - size) && negb (size =? 0)).
  - match goal with |- context [copy_data K fuel ?b ?l ?s1] =>
      eapply (clean_or_named_after _ [_] s s1); [reflexivity | reflexivity|];
      apply IH end.
  - cbn. split; [reflexivity|]. eexists. reflexivity.
Qed.

Lemma decompress_from_cursor_named fuel offset len (s : St) :
  let o := decompress_from_cursor K dcheck fuel offset len s in
  decompressed_error_ (final o) = decompressed_error_ s
  \/ (decompressed_error_ (final o) = true
      /\ names_the_failure K s (final o) /\ o = Ret tt (final o)).
Proof.
  unfold decompress_from_cursor.
  pose proof (skip_forward_named fuel offset s) as H1.
  destruct (skip_forward K dcheck fuel offset s) as [go_on s1|s1|s1]; cbn in H1 |- *;
    try (left; exact H1).
  destruct go_on; cbn [negb]; [|right; cbn; tauto].
  destruct H1 as [He1 (evs1 & Hl1)].
  match goal with |- context [copy_data K fuel ?b ?l ?s2] =>
    pose proof (copy_data_named fuel b l s2) as H2;
    destruct (copy_data K fuel b l s2) as [n s3|s3|s3] end; cbn in H2 |- *;
    try (left; congruence).
  destruct n as [n|]; cbn; [left; destruct H2; congruence|].
  right. destruct H2 as [He2 Hn2]. split; [exact He2|]. split; [|reflexivity].
  eapply names_the_failure_after; [exact Hl1|].
  destruct Hn2 as (evs' & ev & Hl' & Hm). exists evs', ev.
  split; [exact Hl' | exact Hm].
Qed.

Lemma DecompressData_named fuel offset len (s : St) :
  let o := DecompressData K dcheck fuel offset len s in
  decompressed_error_ (final o) = decompressed_error_ s
  \/ (decompressed_error_ (final o) = true
      /\ names_the_failure K s (final o) /\ o = Ret tt (final o)).
Proof.
  unfold DecompressData. set (s0 := set_header_read false s).
  assert (Hstep : forall evs (s1 : St),
            log s1 = log s ++ evs ->
            decompressed_error_ s1 = decompressed_error_ s ->
            let o := decompress_from_cursor K dcheck fuel offset len s1 in
            decompressed_error_ (final o) = decompressed_error_ s
            \/ (decompressed_error_ (final o) = true
                /\ names_the_failure K s (final o) /\ o = Ret tt (final o))).
  { intros evs s1 Hl He.
    destruct (decompress_from_cursor_named fuel offset len s1) as [Hc|(Ht & Hn & Ho)].
    - left. cbv zeta. congruence.
    - right. split; [exact Ht|]. split; [|exact Ho].
      eapply names_the_failure_after; eassumption. }
  destruct (offset <? last_read_data_offset_ s0).
  - pose proof (rewind_named fuel s0) as H1.
    destruct (rewind K fuel s0) as [go_on s1|s1|s1]; cbn in H1 |- *;
      try (left; exact H1).
    destruct go_on; cbn [negb].
    + destruct H1 as [He1 (evs1 & Hl1)]. apply (Hstep evs1); assumption.
    + right. cbn. destruct H1 as [He1 Hn1]. split; [exact He1|].
      split; [exact Hn1 | reflexivity].
  - cbn [bind negb]. apply (Hstep []); [rewrite app_nil_r|]; reflexivity.
Qed.

(** X4. An error flag never comes without the message of the call that
    failed.  When the flag was clear and a [DecompressData], a [ReadData] or a
    [MaybeDecompressAhead] leaves it set, the call has returned ([ReadData]
    with the error value), the last call it made on the codec is the one that
    failed, and the error message is the one the file attaches to that call:
    the allocation error for [archive_read_new]; the support prefix for a
    format registration and the open prefix for a callback registration or
    [archive_read_open1]; the next-header prefix for a failed header and the
    file-not-found message for the end of the archive or an entry without a
    pathname; the read-data prefix for a data pull and also for a failed
    [archive_read_free]; each prefix followed by the error string the codec
    gives once the call is over. *)
Theorem error_flag_comes_with_a_message (s : St) :
  decompressed_error_ s = false ->
  (forall fuel offset len,
      let o := DecompressData K dcheck fuel offset len s in
      decompressed_error_ (final o) = true ->
      names_the_failure K s (final o) /\ o = Ret tt (final o))
  /\ (forall fuel offset len,
        let o := ReadData K dcheck fuel offset len s in
        decompressed_error_ (final o) = true ->
        names_the_failure K s (final o)
        /\ o = Ret (kArchiveReadDataError, None) (final o))
  /\ (forall fuel,
        let o := MaybeDecompressAhead K dcheck fuel s in
        decompressed_error_ (final o) = true ->
        names_the_failure K s (final o) /\ o = Ret tt (final o)).
Proof.
  intros Hclear.
  assert (Hd : forall fuel offset len,
             let o := DecompressData K dcheck fuel offset len s in
             decompressed_error_ (final o) = true ->
             names_the_failure K s (final o) /\ o = Ret tt (final o)).
  { intros fuel offset len o Hset. subst o.
    destruct (DecompressData_named fuel offset len s) as [Heq|(_ & Hm & Ho)];
      [congruence | auto]. }
  split; [exact Hd|]. split.
  - intros fuel offset len o Hset. subst o. revert Hset. unfold ReadData.
    destruct (negb (PP_DCHECK dcheck (0 <? len))); [cbn; congruence|].
    destruct (current_archive_entry_ s) as [e|]; [|cbn; congruence].
    destruct (archive_entry_size e <=? offset); [cbn; congruence|].
    destruct (window_invalid offset s).
    + specialize (Hd fuel offset len). cbv zeta in Hd.
      destruct (DecompressData K dcheck fuel offset len s) as [[] s1|s1|s1] eqn:Ho;
        cbn [bind final] in *.
      * destruct (decompressed_error_ s1) eqn:He1.
        -- intros _. rewrite (deliver_failed K dcheck len s1 He1). cbn.
           split; [apply Hd; reflexivity | reflexivity].
        -- intros Hset. exfalso.
           destruct (deliver_log K dcheck len s1) as (_ & He & _). congruence.
      * intros Hset. destruct (Hd Hset) as [_ Hr]. discriminate.
      * intros Hset. destruct (Hd Hset) as [_ Hr]. discriminate.
    + cbn [bind]. intros Hset. exfalso.
      destruct (deliver_log K dcheck len s) as (_ & He & _). congruence.
  - intros fuel o Hset. subst o. revert Hset. unfold MaybeDecompressAhead.
    destruct (decompressed_data_size_ s =? 0); [apply Hd | cbn; congruence].
Qed.
End MessageFurther.

Lemma error_flag_comes_with_a_message_witness :
  names_the_failure test_constants after_hello_stuck
    (final (ReadData test_constants false 20 2 1 after_hello_stuck))
  /\ ReadData test_constants false 20 2 1 after_hello_stuck
     = Ret (kArchiveReadDataError, None)
           (final (ReadData test_constants false 20 2 1 after_hello_stuck))
  /\ error_message_ (final (ReadData test_constants false 20 2 1 after_hello_stuck))
     = kArchiveReadDataErrorPrefix test_constants.
Proof.
  destruct (error_flag_comes_with_a_message test_constants false after_hello_stuck
              eq_refl) as (_ & Hread & _).
  destruct (Hread 20%nat 2 1 eq_refl) as [Hnamed Hret].
  split; [exact Hnamed|]. split; [exact Hret | reflexivity].
Defined.

(** ** [MaybeDecompressAhead] and the results of [ReadData] *)

Section ReadFurther.
Context {W : Type} `{Environment W}.
Variable K : volume_archive_constants.
Variable dcheck : bool.

Abbreviation St := (VolumeArchiveLibarchive W).

Lemma copy_data_keeps_view fuel bytes_read left_length (s : St) :
  view (final (copy_data K fuel bytes_read left_length s)) = view s.
Proof.
  revert bytes_read left_length s.
  induction fuel as [|fuel IH]; intros bytes_read left_length s; cbn [copy_data].
  { reflexivity. }
  unfold read_data. destruct (archive_read_data _ _ _ _) as [[size data] w].
  destruct (size <? 0); [reflexivity|].
  destruct ((0 <? left_length - size) && negb (size =? 0)); [|reflexivity].
  rewrite IH. reflexivity.
Qed.

Lemma skip_forward_at_cursor fuel (s : St) :
  skip_forward K dcheck fuel (last_read_data_offset_ s) s = Ret true s.
Proof. destruct fuel; cbn [skip_forward]; rewrite Z.ltb_irrefl; reflexivity. Qed.

(** X5. [MaybeDecompressAhead] does nothing at all while the window holds
    bytes.  In every case it leaves the cursor, the length remembered from the
    last read, the codec handle and the current entry as they were, and calls
    nothing on the codec but [archive_read_data]: it never releases or
    reinitialises it.  When it does refill, the header phase is off
    afterwards. *)
Theorem MaybeDecompressAhead_stays_in_place fuel (s : St) :
  (decompressed_data_size_ s <> 0 ->
   MaybeDecompressAhead K dcheck fuel s = Ret tt s)
  /\ let s' := final (MaybeDecompressAhead K dcheck fuel s) in
     last_read_data_offset_ s' = last_read_data_offset_ s
     /\ last_read_data_length_ s' = last_read_data_length_ s
     /\ archive_ s' = archive_ s
     /\ current_archive_entry_ s' = current_archive_entry_ s
     /\ (exists evs, log s' = log s ++ evs /\ forallb is_read_data evs = true)
     /\ (decompressed_data_size_ s = 0 -> header_read_ s' = false).
Proof.
  unfold MaybeDecompressAhead. split.
  { intros Hne. apply Z.eqb_neq in Hne. rewrite Hne. reflexivity. }
  destruct (decompressed_data_size_ s =? 0) eqn:Hz.
  2:{ cbn. repeat split; try reflexivity.
      - exists []. rewrite app_nil_r. auto.
      - intros Hs. apply Z.eqb_neq in Hz. contradiction. }
  unfold DecompressData. cbn. rewrite Z.ltb_irrefl. cbn [bind negb].
  unfold decompress_from_cursor.
  pose proof (skip_forward_at_cursor fuel (set_header_read false s)) as Hskip.
  cbn in Hskip. rewrite Hskip. cbn [bind negb].
  match goal with |- context [copy_data K fuel ?b ?l ?s2] =>
    pose proof (copy_data_frame K fuel b l s2) as (_ & _ & Hl & Hc & Ha & He & _);
    pose proof (copy_data_log K fuel b l s2) as (evs & Hlog & Hall);
    pose proof (copy_data_keeps_view fuel b l s2) as Hv;
    destruct (copy_data K fuel b l s2) as [n s3|s3|s3] end;
    cbn in Hl, Hc, Ha, He, Hlog, Hv |- *; try destruct n; cbn;
    injection Hv as Hv _;
    (repeat split; try assumption; [exists evs; auto | intros _; exact Hv]).
Qed.
End ReadFurther.

Lemma MaybeDecompressAhead_stays_in_place_witness :
  MaybeDecompressAhead test_constants false 20 read_ahead = Ret tt read_ahead
  /\ header_read_ (final (MaybeDecompressAhead test_constants false 20 after_hello))
     = false.
Proof.
  split.
  - apply (MaybeDecompressAhead_stays_in_place test_constants false 20 read_ahead).
    cbn. lia.
  - apply (MaybeDecompressAhead_stays_in_place test_constants false 20 after_hello).
    reflexivity.
Defined.

Section ResultFurther.
Context {W : Type} `{Environment W}.
Variable K : volume_archive_constants.
Variable dcheck : bool.
Hypothesis Hpull : pull_contract.
Hypothesis Hdummy : 0 <= kDummyBufferSize K.

Abbreviation St := (VolumeArchiveLibarchive W).

Lemma rewind_found_cursor fuel (s s1 : St) :
  rewind K fuel s = Ret true s1 -> last_read_data_offset_ s1 = 0.
Proof.
  unfold rewind.
  destruct (current_archive_entry_ s) as [e|]; [|discriminate].
  destruct (archive_entry_pathname e) as [name|]; [|discriminate].
  destruct (call read_free s) as [r s2].
  destruct (r =? ARCHIVE_OK); cbn [negb]; [|discriminate].
  destruct (reader_Seek 0 SEEK_SET _) as [rs w2].
  destruct (Init K _) as [ok s3]. destruct ok; cbn [negb]; [|discriminate].
  intros Hr.
  pose proof (replay_headers_log K fuel name (HeaderOut None 0 false 0) s3) as Hlog.
  cbv zeta in Hlog. rewrite Hr in Hlog. cbn [final] in Hlog.
  destruct Hlog as (hdrs & k & _ & _ & _ & Hk).
  destruct k; [apply Hk | | |]; destruct Hk as [Habs _]; discriminate.
Qed.

Lemma decompress_from_cursor_done fuel offset len (s s1 : St) :
  0 <= len -> window_inv K s -> last_read_data_offset_ s <= offset ->
  decompress_from_cursor K dcheck fuel offset len s = Ret tt s1 ->
  decompressed_error_ s1 = false ->
  last_read_data_offset_ s1 = offset
  /\ decompressed_data_ s1 = Some 0
  /\ 0 <= decompressed_data_size_ s1 <= Z.min len (kDecompressBufferSize K).
Proof.
  intros Hlen Hinv Hle. unfold decompress_from_cursor.
  pose proof (skip_forward_named K dcheck fuel offset s) as Hrep.
  pose proof (skip_forward_frame K dcheck fuel offset s) as Hfr.
  destruct (skip_forward_cursor K dcheck Hpull fuel offset s Hdummy Hle) as [_ Hcur].
  destruct (skip_forward K dcheck fuel offset s) as [go_on s2|s2|s2];
    cbn [bind]; try discriminate.
  destruct go_on; cbn [negb].
  2:{ intros [= <-] Hclear. cbn in Hrep. destruct Hrep as [Hset _]. congruence. }
  specialize (Hcur s2 eq_refl). cbn in Hfr.
  pose proof (frame_window K s s2 Hfr Hinv) as Hinv2.
  assert (Hcap : 0 <= kDecompressBufferSize K) by (destruct Hinv as [<- _]; lia).
  set (s3 := set_reader_data_size _ s2).
  pose proof (copy_data_named K fuel 0 (Z.min len (kDecompressBufferSize K)) s3)
    as Hrep3.
  pose proof (copy_data_frame K fuel 0 (Z.min len (kDecompressBufferSize K)) s3)
    as (_ & _ & _ & Hc3 & _).
  destruct (copy_data_window K Hpull fuel 0 (Z.min len (kDecompressBufferSize K)) s3)
    as [_ Hn]; try lia; [apply Hinv2|].
  destruct (copy_data K fuel 0 _ s3) as [n s4|s4|s4]; cbn [bind]; try discriminate.
  destruct n as [n|].
  - intros [= <-] _. specialize (Hn n s4 eq_refl). cbn in Hc3 |- *.
    split; [congruence|]. split; [reflexivity | lia].
  - intros [= <-] Hclear. cbn in Hrep3. destruct Hrep3 as [Hset _]. congruence.
Qed.

Lemma DecompressData_done fuel offset len (s s1 : St) :
  0 <= len -> 0 <= offset -> window_inv K s ->
  DecompressData K dcheck fuel offset len s = Ret tt s1 ->
  decompressed_error_ s1 = false ->
  last_read_data_offset_ s1 = offset
  /\ decompressed_data_ s1 = Some 0
  /\ 0 <= decompressed_data_size_ s1 <= Z.min len (kDecompressBufferSize K).
Proof.
  intros Hlen Hoff Hinv. unfold DecompressData.
  set (s0 := set_header_read false s).
  assert (Hinv0 : window_inv K s0) by exact Hinv.
  destruct (offset <? last_read_data_offset_ s0) eqn:Hlt.
  - pose proof (rewind_named K fuel s0) as Hrep.
    pose proof (rewind_frame K fuel s0) as Hfr.
    pose proof (rewind_found_cursor fuel s0) as Hcur.
    destruct (rewind K fuel s0) as [go_on s2|s2|s2]; cbn [bind]; try discriminate.
    destruct go_on; cbn [negb].
    + intros Hd Hclear. specialize (Hcur s2 eq_refl). cbn in Hfr.
      assert (Hle : last_read_data_offset_ s2 <= offset) by lia.
      exact (decompress_from_cursor_done fuel offset len s2 s1 Hlen
               (frame_window K s0 s2 Hfr Hinv0) Hle Hd Hclear).
    + intros [= <-] Hclear. cbn in Hrep. destruct Hrep as [Hset _]. congruence.
  - cbn [bind negb]. apply Z.ltb_ge in Hlt. intros Hd Hclear.
    exact (decompress_from_cursor_done fuel offset len s0 s1 Hlen Hinv0 Hlt Hd Hclear).
Qed.

(** X6. With a codec that never hands over more than it is asked for, a
    [ReadData] with a positive length and a non-negative offset that returns
    does so in one of three ways: the error value with the flag set; 0 without
    any change of state (offset at or past the size of the entry); or a count
    between 0 and [min length kDecompressBufferSize] of bytes that lie within
    the buffer, after which the cursor is the offset plus that count, the
    length is remembered for reading ahead and the flag is clear. *)
Theorem ReadData_results fuel offset len (s : St) r p s' :
  window_inv K s -> 0 < len -> 0 <= offset ->
  ReadData K dcheck fuel offset len s = Ret (r, p) s' ->
  (r = kArchiveReadDataError /\ p = None /\ decompressed_error_ s' = true)
  \/ (r = 0 /\ p = None /\ s' = s)
  \/ (exists q,
        p = Some q
        /\ 0 <= r <= Z.min len (kDecompressBufferSize K)
        /\ 0 <= q /\ q + r <= kDecompressBufferSize K
        /\ last_read_data_offset_ s' = offset + r
        /\ last_read_data_length_ s' = len
        /\ decompressed_error_ s' = false).
Proof.
  intros Hinv Hlen Hoff. unfold ReadData.
  destruct (negb (PP_DCHECK dcheck (0 <? len))); [discriminate|].
  destruct (current_archive_entry_ s) as [e|]; [|discriminate].
  destruct (archive_entry_size e <=? offset).
  { intros [= <- <- <-]. right. left. auto. }
  assert (Hdeliver : forall s1 : St,
            window_inv K s1 ->
            last_read_data_offset_ s1 = offset ->
            deliver K dcheck len s1 = Ret (r, p) s' ->
            (r = kArchiveReadDataError /\ p = None /\ decompressed_error_ s' = true)
            \/ (r = 0 /\ p = None /\ s' = s)
            \/ (exists q,
                  p = Some q
                  /\ 0 <= r <= Z.min len (kDecompressBufferSize K)
                  /\ 0 <= q /\ q + r <= kDecompressBufferSize K
                  /\ last_read_data_offset_ s' = offset + r
                  /\ last_read_data_length_ s' = len
                  /\ decompressed_error_ s' = false)).
  { intros s1 (_ & _ & Hw) Hcur. unfold deliver.
    destruct (decompressed_error_ s1) eqn:He.
    { intros [= <- <- <-]. left. auto. }
    cbn. destruct (decompressed_data_ s1) as [q|]; [|discriminate].
    destruct (negb (PP_DCHECK dcheck _)); [discriminate|].
    intros [= <- <- <-]. right. right. exists q. cbn.
    split; [reflexivity|]. repeat split; try lia; try assumption. }
  destruct (window_invalid offset s) eqn:Hw.
  - destruct (DecompressData K dcheck fuel offset len s) as [[] s1|s1|s1] eqn:Hd;
      cbn [bind]; try discriminate.
    destruct (decompressed_error_ s1) eqn:He.
    { rewrite (deliver_failed K dcheck len s1 He). intros [= <- <- <-]. left. auto. }
    destruct (DecompressData_done fuel offset len s s1 ltac:(lia) Hoff Hinv Hd He)
      as (Hcur & _ & _).
    apply Hdeliver; [|exact Hcur].
    pose proof (DecompressData_window K dcheck Hpull fuel offset len s ltac:(lia) Hinv)
      as [Hinv1 _].
    rewrite Hd in Hinv1. exact Hinv1.
  - cbn [bind]. apply Hdeliver; [exact Hinv|].
    unfold window_invalid in Hw. apply orb_false_iff in Hw as [Hw _].
    apply orb_false_iff in Hw as [_ Hw]. apply negb_false_iff, Z.eqb_eq in Hw.
    exact Hw.
Qed.
End ResultFurther.

Lemma ReadData_results_witness :
  ReadData test_constants false 20 0 5 at_a_txt = Ret (5, Some 0) after_hello
  /\ exists q,
       Some 0 = Some q
       /\ 0 <= 5 <= Z.min 5 (kDecompressBufferSize test_constants)
       /\ 0 <= q /\ q + 5 <= kDecompressBufferSize test_constants
       /\ last_read_data_offset_ after_hello = 0 + 5
       /\ last_read_data_length_ after_hello = 5
       /\ decompressed_error_ after_hello = false.
Proof.
  split; [reflexivity|].
  assert (Hinv : window_inv test_constants at_a_txt).
  { split; [reflexivity|]. split; cbn; lia. }
  assert (Hdummy : 0 <= kDummyBufferSize test_constants) by (cbn; lia).
  destruct (ReadData_results test_constants false reference_codec_pull_contract Hdummy
              20 0 5 at_a_txt 5 (Some 0) after_hello Hinv ltac:(lia) ltac:(lia) eq_refl)
    as [(Hr & _)|[(Hr & _)|Hq]]; [discriminate Hr | discriminate Hr | exact Hq].
Defined.

(** ** What the callbacks see during the data pulls *)

Section ViewFurther.
Context {W : Type} `{Environment W}.
Variable K : volume_archive_constants.
Variable dcheck : bool.

Abbreviation MSt := (VolumeArchiveLibarchive (monitored W)).

Lemma any_call_fails_views cs (s : MSt) :
  views (any_call_fails cs s).2 = views s
  /\ header_read_ (any_call_fails cs s).2 = header_read_ s.
Proof.
  revert s. induction cs as [|c cs IH]; intros s; cbn [any_call_fails]; [auto|].
  unfold call. cbn. destruct (archive_call c _ _ _) as [r w].
  destruct (r =? ARCHIVE_OK); [|auto].
  match goal with |- context [any_call_fails cs ?s1] => destruct (IH s1) as [-> ->] end.
  auto.
Qed.

Lemma Init_views (s : MSt) : views (Init K s).2 = views s.
Proof.
  unfold Init. destruct (archive_read_new (world s)) as [a w] eqn:E.
  assert (Hw : pull_views w = views s).
  { cbn in E. destruct (archive_read_new (inner (world s))).
    injection E as _ <-. reflexivity. }
  set (s1 := set_archive a (called w (ENew a) s)).
  assert (H0 : views s1 = views s) by exact Hw.
  destruct a as [a|]; [|exact H0].
  pose proof (any_call_fails_views support_calls s1) as [H1 _].
  destruct (any_call_fails support_calls s1) as [failed s2].
  cbn [fst snd] in H1. destruct failed; [cbn [snd]; unfold views in *; cbn; congruence|].
  pose proof (any_call_fails_views open_calls (set_header_read true s2)) as [H2 _].
  destruct (any_call_fails open_calls (set_header_read true s2)) as [failed s4].
  cbn [fst snd] in H2.
  assert (H3 : views s4 = views s) by (rewrite H2; unfold views in *; cbn; congruence).
  destruct failed; cbn [snd]; [|exact H3].
  unfold views in *. cbn. exact H3.
Qed.

Lemma GetNextHeader_views out (s : MSt) :
  views (GetNextHeader K out s).2 = views s.
Proof.
  unfold GetNextHeader. cbn.
  destruct (archive_read_next_header _ _ _) as [[r e] w].
  destruct (r =? ARCHIVE_EOF); [reflexivity|].
  destruct (r =? ARCHIVE_OK); reflexivity.
Qed.

Lemma replay_headers_views fuel name out (s : MSt) :
  let o := replay_headers K fuel name out s in
  views (final o) = views s
  /\ forall s', o = Ret true s' -> header_read_ s' = true.
Proof.
  revert out s. induction fuel as [|fuel IH]; intros out s; cbn [replay_headers].
  { split; [reflexivity | discriminate]. }
  pose proof (GetNextHeader_views out s) as Hv.
  pose proof (GetNextHeader_spec K out s) as Hspec.
  destruct (GetNextHeader K out s) as [[ok out'] s1]. cbn in Hv.
  destruct Hspec as (r & e & _ & _ & _ & _ & Hhr & _).
  destruct ok; cbn [negb]; [|split; [exact Hv | discriminate]].
  destruct (out_pathname out') as [path_name|]; [|split; [exact Hv | discriminate]].
  destruct (String.eqb name path_name).
  - split; [exact Hv|]. intros s' [= <-]. exact Hhr.
  - destruct (IH out' s1) as [H1 H2]. split; [congruence | exact H2].
Qed.

Lemma rewind_views fuel (s : MSt) :
  let o := rewind K fuel s in
  views (final o) = views s
  /\ forall s', o = Ret true s' -> header_read_ s' = true.
Proof.
  unfold rewind.
  destruct (current_archive_entry_ s) as [e|]; [|split; [reflexivity | discriminate]].
  destruct (archive_entry_pathname e) as [name|];
    [|split; [reflexivity | discriminate]].
  unfold call. cbn. destruct (archive_call read_free _ _ _) as [r w1].
  destruct (r =? ARCHIVE_OK); cbn [negb]; [|split; [reflexivity | discriminate]].
  cbn. destruct (reader_Seek 0 SEEK_SET w1) as [rs w2].
  match goal with |- context [Init K ?s2] =>
    pose proof (Init_views s2) as Hi; destruct (Init K s2) as [ok s3] end.
  cbn in Hi. destruct ok; cbn [negb]; [|split; [exact Hi | discriminate]].
  destruct (replay_headers_views fuel name (HeaderOut None 0 false 0) s3) as [H1 H2].
  split; [rewrite H1; exact Hi | exact H2].
Qed.

Lemma skip_forward_views fuel offset (s : MSt) :
  let s' := final (skip_forward K dcheck fuel offset s) in
  header_read_ s' = header_read_ s
  /\ exists vs,
       views s' = views s ++ vs
       /\ Forall (fun v => v.1.1 = header_read_ s
                           /\ kMinimumDataChunkSize K <= v.1.2
                           /\ (kMinimumDataChunkSize K <= kMaximumDataChunkSize K ->
                               v.1.2 <= kMaximumDataChunkSize K)
                           /\ v.2 <= kDummyBufferSize K) vs.
Proof.
  revert s. induction fuel as [|fuel IH]; intros s; cbn [skip_forward];
    destruct (last_read_data_offset_ s <? offset);
    try (cbn; split; [reflexivity|]; exists []; rewrite app_nil_r; auto).
  unfold read_data. cbn. destruct (archive_read_data _ _ _ _) as [[size data] w].
  set (hint := Z.max (Z.min (offset - last_read_data_offset_ s)
                            (kMaximumDataChunkSize K)) (kMinimumDataChunkSize K)).
  set (len := Z.min (offset - last_read_data_offset_ s) (kDummyBufferSize K)).
  assert (Hv : Forall (fun v => v.1.1 = header_read_ s
                           /\ kMinimumDataChunkSize K <= v.1.2
                           /\ (kMinimumDataChunkSize K <= kMaximumDataChunkSize K ->
                               v.1.2 <= kMaximumDataChunkSize K)
                           /\ v.2 <= kDummyBufferSize K)
                      [((header_read_ s, hint), len)]).
  { constructor; [|constructor]. cbn. repeat split; lia. }
  destruct (negb (PP_DCHECK dcheck (negb (size =? 0)))).
  { cbn. split; [reflexivity|]. eexists. split; [reflexivity | exact Hv]. }
  destruct (size <? 0).
  { cbn. split; [reflexivity|]. eexists. split; [reflexivity | exact Hv]. }
  match goal with |- context [skip_forward K dcheck fuel offset ?s1] =>
    destruct (IH s1) as (Hhr & vs & Hvs & Hall) end.
  split; [rewrite Hhr; reflexivity|].
  exists (((header_read_ s, hint), len) :: vs). split.
  - rewrite Hvs. unfold views. cbn. rewrite <- app_assoc. reflexivity.
  - apply (Forall_app _ [_] vs). split; [exact Hv | exact Hall].
Qed.

Lemma copy_data_views fuel bytes_read left_length (s : MSt) :
  exists vs,
    views (final (copy_data K fuel bytes_read left_length s)) = views s ++ vs
    /\ Forall (fun v => v.1 = view s /\ v.2 <= left_length) vs.
Proof.
  revert bytes_read left_length s.
  induction fuel as [|fuel IH]; intros bytes_read left_length s; cbn [copy_data].
  { exists []. rewrite app_nil_r. auto. }
  unfold read_data. cbn. destruct (archive_read_data _ _ _ _) as [[size data] w].
  assert (Hv : Forall (fun v => v.1 = view s /\ v.2 <= left_length)
                      [(view s, left_length)]).
  { constructor; [|constructor]. cbn. split; [reflexivity | lia]. }
  destruct (size <? 0) eqn:Hneg.
  { cbn. eexists. split; [reflexivity | exact Hv]. }
  destruct ((0 <? left_length - size) && negb (size =? 0)).
  - match goal with |- context [copy_data K fuel ?b ?l ?s1] =>
      destruct (IH b l s1) as (vs & Hvs & Hall) end.
    exists ((view s, left_length) :: vs). split.
    { rewrite Hvs. unfold views. cbn. rewrite <- app_assoc. reflexivity. }
    apply (Forall_app _ [_] vs). split; [exact Hv|].
    apply Z.ltb_ge in Hneg.
    eapply Forall_impl; [exact Hall|]. cbn. intros v [Hview Hl]. split; [exact Hview | lia].
  - cbn. eexists. split; [reflexivity | exact Hv].
Qed.

Lemma decompress_from_cursor_views fuel offset len (s : MSt) :
  exists vs,
    views (final (decompress_from_cursor K dcheck fuel offset len s)) = views s ++ vs
    /\ Forall (fun v => v.1.1 = header_read_ s
                        /\ kMinimumDataChunkSize K <= v.1.2
                        /\ (kMinimumDataChunkSize K <= kMaximumDataChunkSize K ->
                            v.1.2 <= kMaximumDataChunkSize K)
                        /\ v.2 <= Z.max (kDummyBufferSize K)
                                        (Z.min len (kDecompressBufferSize K))) vs.
Proof.
  unfold decompress_from_cursor.
  destruct (skip_forward_views fuel offset s) as (Hhr & vs1 & Hv1 & Hall1).
  assert (Hall1' : Forall (fun v => v.1.1 = header_read_ s
                        /\ kMinimumDataChunkSize K <= v.1.2
                        /\ (kMinimumDataChunkSize K <= kMaximumDataChunkSize K ->
                            v.1.2 <= kMaximumDataChunkSize K)
                        /\ v.2 <= Z.max (kDummyBufferSize K)
                                        (Z.min len (kDecompressBufferSize K))) vs1).
  { eapply Forall_impl; [exact Hall1|]. cbn. intros v (H1 & H2 & H3 & H4).
    repeat split; try assumption. lia. }
  destruct (skip_forward K dcheck fuel offset s) as [go_on s1|s1|s1];
    cbn in Hhr, Hv1 |- *; try (exists vs1; split; assumption).
  destruct go_on; cbn [negb]; [|exists vs1; split; assumption].
  set (left := Z.min len (kDecompressBufferSize K)).
  set (hint := Z.max (Z.min left (kMaximumDataChunkSize K)) (kMinimumDataChunkSize K)).
  set (s2 := set_reader_data_size hint s1).
  destruct (copy_data_views fuel 0 left s2) as (vs2 & Hv2 & Hall2).
  assert (Hall2' : Forall (fun v => v.1.1 = header_read_ s
                        /\ kMinimumDataChunkSize K <= v.1.2
                        /\ (kMinimumDataChunkSize K <= kMaximumDataChunkSize K ->
                            v.1.2 <= kMaximumDataChunkSize K)
                        /\ v.2 <= Z.max (kDummyBufferSize K) left) vs2).
  { eapply Forall_impl; [exact Hall2|]. intros [[hr h] l] [Hview Hl].
    cbn in Hview, Hl |- *. injection Hview as -> ->. rewrite Hhr.
    repeat split; lia. }
  exists (vs1 ++ vs2). split; [|apply Forall_app; split; assumption].
  rewrite app_assoc, <- Hv1.
  change (views s1) with (views s2). rewrite <- Hv2.
  destruct (copy_data K fuel 0 left s2) as [n s3|s3|s3]; try reflexivity.
  destruct n; reflexivity.
Qed.

(** X7. What the read callback sees while data is pulled.  In a
    [DecompressData] that starts at or after the cursor, every
    [archive_read_data] runs outside the header phase, with a chunk size
    between [kMinimumDataChunkSize] and [kMaximumDataChunkSize] (when these are
    in order), and asks for no more than the dummy buffer or the window can
    take.  In a [DecompressData] that starts below the cursor, no data is
    pulled unless the entry is found again, and the header phase, switched on
    by [Init] and [GetNextHeader], is still on during every pull that
    follows. *)
Theorem data_pulls_and_the_header_phase fuel offset len (s : MSt) :
  let s' := final (DecompressData K dcheck fuel offset len s) in
  exists vs,
    views s' = views s ++ vs
    /\ (last_read_data_offset_ s <= offset ->
        Forall (data_view K (Z.max (kDummyBufferSize K)
                                   (Z.min len (kDecompressBufferSize K)))) vs)
    /\ (offset < last_read_data_offset_ s -> Forall (fun v => v.1.1 = true) vs).
Proof.
  unfold DecompressData. set (s0 := set_header_read false s).
  destruct (offset <? last_read_data_offset_ s0) eqn:Hlt.
  - apply Z.ltb_lt in Hlt. cbn in Hlt.
    destruct (rewind_views fuel s0) as [Hv Hhr].
    destruct (rewind K fuel s0) as [go_on s1|s1|s1]; cbn [bind final] in *;
      try (exists []; rewrite app_nil_r; split; [exact Hv|]; split; [lia | auto]).
    destruct go_on; cbn [negb];
      [|exists []; rewrite app_nil_r; split; [exact Hv|]; split; [lia | auto]].
    specialize (Hhr s1 eq_refl).
    destruct (decompress_from_cursor_views fuel offset len s1) as (vs & Hvs & Hall).
    exists vs. split; [rewrite Hvs, Hv; reflexivity|]. split; [lia|]. intros _.
    eapply Forall_impl; [exact Hall|]. cbn. intros v (H1 & _). congruence.
  - apply Z.ltb_ge in Hlt. cbn in Hlt. cbn [bind negb].
    destruct (decompress_from_cursor_views fuel offset len s0) as (vs & Hvs & Hall).
    exists vs. split; [exact Hvs|]. split; [|lia]. intros _.
    eapply Forall_impl; [exact Hall|]. cbn. intros v Hv. exact Hv.
Qed.
End ViewFurther.

Lemma data_pulls_and_the_header_phase_witness :
  (exists vs,
     views (final (DecompressData test_constants false 20 7 2 monitored_after_hello))
     = views monitored_after_hello ++ vs
     /\ Forall (data_view test_constants 8) vs)
  /\ (exists vs,
        views (final (DecompressData test_constants false 20 2 1 monitored_after_hello))
        = views monitored_after_hello ++ vs
        /\ Forall (fun v => v.1.1 = true) vs).
Proof.
  split.
  - destruct (data_pulls_and_the_header_phase test_constants false 20 7 2
                monitored_after_hello) as (vs & Hv & Hforward & _).
    exists vs. split; [exact Hv|]. apply Hforward. vm_compute. discriminate.
  - destruct (data_pulls_and_the_header_phase test_constants false 20 2 1
                monitored_after_hello) as (vs & Hv & _ & Hback).
    exists vs. split; [exact Hv|]. apply Hback. vm_compute. reflexivity.
Defined.

(** ** Listing and sequential reading over the reference codec *)

Section ReferenceFurther.
Variable K : volume_archive_constants.
Variable dcheck : bool.

Abbreviation RSt := (VolumeArchiveLibarchive reference_codec).

#[local] Arguments init_count : simpl never.

Lemma reference_list_entries files :
  Forall (fun f : archive_entry * list byte => archive_entry_pathname f.1 <> None) files ->
  forall n out (s : RSt),
    codec_pending (world s) = files -> (length files < n)%nat ->
    list_entries K n out s = (map header_of files, true).
Proof.
  induction 1 as [|[e d] files Hname Hfiles IH]; intros n out s Hpend Hn;
    (destruct n as [|n]; [cbn in Hn; lia|]);
    cbn [list_entries]; unfold GetNextHeader; cbn; rewrite Hpend; cbn.
  - reflexivity.
  - cbn in Hname. destruct (archive_entry_pathname e) as [name|] eqn:He;
      [|contradiction].
    match goal with |- context [list_entries K n ?o ?s1] =>
      rewrite (IH n o s1) end; [|reflexivity|cbn in Hn; lia].
    unfold header_of. cbn. rewrite He. reflexivity.
Qed.

(** X8. Listing an archive.  Over the reference codec, [Init] succeeds and
    the [GetNextHeader] calls that follow hand out, in the order of the
    archive, the pathname, size, directory bit and modification time of every
    entry, and then report the end of the archive (true, with a null
    pathname), provided every entry has a pathname. *)
Theorem listing_yields_every_entry_in_order n out (s : RSt) :
  Forall (fun f : archive_entry * list byte => archive_entry_pathname f.1 <> None)
         (codec_files (world s)) ->
  (length (codec_files (world s)) < n)%nat ->
  (Init K s).1 = true
  /\ list_entries K n out (Init K s).2 = (map header_of (codec_files (world s)), true).
Proof.
  intros Hnames Hn. split; [reflexivity|].
  apply reference_list_entries; [exact Hnames | reflexivity | exact Hn].
Qed.

Lemma skip_forward_keeps_entry fuel offset (s : RSt) :
  current_archive_entry_ (final (skip_forward K dcheck fuel offset s))
  = current_archive_entry_ s.
Proof.
  revert s. induction fuel as [|fuel IH]; intros s; cbn [skip_forward];
    destruct (last_read_data_offset_ s <? offset); try reflexivity.
  unfold read_data. destruct (archive_read_data _ _ _ _) as [[size data] w].
  destruct (negb (PP_DCHECK dcheck (negb (size =? 0)))); [reflexivity|].
  destruct (size <? 0); [reflexivity|]. rewrite IH. reflexivity.
Qed.

Lemma reference_copy_data fuel want (s : RSt) :
  0 < want -> (2 <= fuel)%nat ->
  let data := codec_data (world s) in
  let n := Z.min want (Z.of_nat (length data)) in
  exists s',
    copy_data K fuel 0 want s = Ret (Some n) s'
    /\ decompressed_data_buffer_ s'
       = write_at (decompressed_data_buffer_ s) 0 (take (Z.to_nat n) data)
    /\ codec_data (world s') = drop (Z.to_nat n) data.
Proof.
  intros Hwant Hfuel data n.
  destruct fuel as [|[|fuel]]; [lia | lia |].
  assert (Hpull : codec_pull want data = Z.to_nat n).
  { unfold codec_pull. destruct (want <? 0) eqn:Hneg; [apply Z.ltb_lt in Hneg; lia|].
    lia. }
  cbn [copy_data]. unfold read_data. cbn. fold data. rewrite Hpull.
  rewrite Z2Nat.id by lia.
  assert (Hpos : (n <? 0) = false) by (apply Z.ltb_ge; lia).
  rewrite Hpos.
  destruct ((0 <? want - n) && negb (n =? 0)) eqn:Hmore.
  - apply andb_true_iff in Hmore as [Hleft Hnz].
    apply Z.ltb_lt in Hleft. apply negb_true_iff, Z.eqb_neq in Hnz.
    assert (Hend : codec_pull (want - n) (drop (Z.to_nat n) data) = 0%nat).
    { unfold codec_pull.
      destruct (want - n <? 0) eqn:Hneg; [apply Z.ltb_lt in Hneg; lia|].
      rewrite length_drop. lia. }
    rewrite Hend. cbn. rewrite write_at_nil. change (Z.of_nat 0) with 0. cbn.
    rewrite andb_false_r, Z.add_0_r. eexists. split; [reflexivity|]. cbn.
    split; [reflexivity|]. rewrite drop_0. reflexivity.
  - eexists. split; [reflexivity|]. cbn. split; reflexivity.
Qed.

(** A [DecompressData] at or after the cursor, when the codec stands at the
    cursor in the bytes [d'] and these reach the offset. *)
Lemma reference_decompress_forward (d' : list byte) fuel offset len (s : RSt) :
  0 <= last_read_data_offset_ s <= offset ->
  offset <= Z.of_nat (length d') ->
  codec_data (world s) = drop (Z.to_nat (last_read_data_offset_ s)) d' ->
  last_read_data_offset_ s = offset \/ 0 < kDummyBufferSize K ->
  0 < len -> 0 < kDecompressBufferSize K ->
  (2 <= fuel)%nat -> (Z.to_nat (offset - last_read_data_offset_ s) <= fuel)%nat ->
  let n := Z.min (Z.min len (kDecompressBufferSize K))
                 (Z.of_nat (length d') - offset) in
  exists s',
    DecompressData K dcheck fuel offset len s = Ret tt s'
    /\ decompressed_data_ s' = Some 0
    /\ decompressed_data_size_ s' = n
    /\ last_read_data_offset_ s' = offset
    /\ decompressed_error_ s' = decompressed_error_ s
    /\ last_read_data_length_ s' = last_read_data_length_ s
    /\ current_archive_entry_ s' = current_archive_entry_ s
    /\ codec_data (world s') = drop (Z.to_nat (offset + n)) d'
    /\ take (Z.to_nat n) (decompressed_data_buffer_ s')
       = take (Z.to_nat n) (drop (Z.to_nat offset) d').
Proof.
  intros Hcur Hoff Hdata Hdummy Hlen Hcap Hfuel2 Hfuel n.
  unfold DecompressData. set (s0 := set_header_read false s).
  assert (Hlt : (offset <? last_read_data_offset_ s0) = false)
    by (apply Z.ltb_ge; cbn; lia).
  rewrite Hlt. cbn [bind negb]. unfold decompress_from_cursor.
  assert (Hskip : exists s1,
             skip_forward K dcheck fuel offset s0 = Ret true s1
             /\ last_read_data_offset_ s1 = offset
             /\ codec_data (world s1) = drop (Z.to_nat offset) d'
             /\ decompressed_error_ s1 = decompressed_error_ s).
  { destruct (Z.eq_dec (last_read_data_offset_ s) offset) as [Heq|Hne].
    - exists s0. rewrite <- Heq.
      rewrite (skip_forward_at_cursor K dcheck fuel s0 : skip_forward K dcheck fuel
                 (last_read_data_offset_ s) s0 = Ret true s0).
      auto.
    - destruct Hdummy as [Heq|Hdummy]; [contradiction|].
      destruct (reference_skip K dcheck d' offset Hdummy ltac:(lia) fuel s0)
        as (s1 & Hs & Hc1 & Hd1 & He1 & _); try assumption.
      exists s1. auto. }
  destruct Hskip as (s1 & Hs & Hc1 & Hd1 & He1).
  pose proof (skip_forward_frame K dcheck fuel offset s0) as (_ & _ & _ & Hl1 & _).
  pose proof (skip_forward_keeps_entry fuel offset s0) as Hent1.
  rewrite Hs in Hl1, Hent1 |- *. cbn [bind negb final] in *.
  set (want := Z.min len (kDecompressBufferSize K)).
  set (s2 := set_reader_data_size _ s1).
  destruct (reference_copy_data fuel want s2 ltac:(lia) Hfuel2)
    as (s3 & Hcp & Hb3 & Hd3).
  pose proof (copy_data_frame K fuel 0 want s2) as (_ & _ & Hl3 & Hc3 & _ & Hent3 & _).
  pose proof (copy_data_named K fuel 0 want s2) as Hrep3.
  cbn in Hcp, Hb3, Hd3. rewrite Hd1 in Hcp, Hb3, Hd3.
  rewrite length_drop in Hcp, Hb3, Hd3.
  assert (En : Z.min want (Z.of_nat (length d' - Z.to_nat offset)) = n) by lia.
  rewrite En in Hcp, Hb3, Hd3.
  rewrite Hcp in Hl3, Hc3, Hent3, Hrep3 |- *. cbn in Hl3, Hc3, Hent3, Hrep3.
  cbn [bind]. eexists. split; [reflexivity|]. cbn.
  split; [reflexivity|]. split; [reflexivity|].
  split; [rewrite Hc3; exact Hc1|].
  split; [destruct Hrep3 as [-> _]; exact He1|].
  split; [rewrite Hl3; exact Hl1|].
  split; [rewrite Hent3; exact Hent1|]. split.
  - rewrite Hd3, drop_drop. f_equal. lia.
  - rewrite Hb3. unfold write_at. change (Z.to_nat 0) with 0%nat.
    rewrite take_0. cbn [app].
    rewrite take_app_length'; [reflexivity|]. rewrite length_take, length_drop. lia.
Qed.

Lemma sync_ahead (d : list byte) fuel (s : RSt) :
  in_sync K d s -> 0 < last_read_data_length_ s ->
  0 < kDecompressBufferSize K -> (2 <= fuel)%nat ->
  exists s',
    MaybeDecompressAhead K dcheck fuel s = Ret tt s'
    /\ in_sync K d s'
    /\ last_read_data_offset_ s' = last_read_data_offset_ s
    /\ last_read_data_length_ s' = last_read_data_length_ s.
Proof.
  intros Hsync Hlast Hcap Hfuel. unfold MaybeDecompressAhead.
  destruct (decompressed_data_size_ s =? 0) eqn:Hw; [|exists s; auto].
  apply Z.eqb_eq in Hw.
  destruct Hsync as ((e & He & Hsize) & Hflag & Hc & _ & Hfit & Hdata & _).
  cbv zeta in *. rewrite Hw, Z.add_0_r in Hdata, Hfit.
  destruct (reference_decompress_forward d fuel (last_read_data_offset_ s)
              (last_read_data_length_ s) s ltac:(lia) ltac:(lia) Hdata
              (or_introl eq_refl) Hlast Hcap Hfuel ltac:(lia))
    as (s' & Hr & Hp & Hn & Hcur & Herr & Hlen & Hent & Hd' & Hbuf).
  exists s'. split; [exact Hr|]. split; [|split; assumption].
  unfold in_sync. cbv zeta. rewrite Hp, Hn, Hcur, Herr, Hent.
  split; [exists e; auto|]. split; [exact Hflag|].
  split; [lia|]. split; [lia|]. split; [lia|]. split; [exact Hd'|].
  right. exists 0. split; [reflexivity|]. split; [lia|]. split; [lia|].
  change (Z.to_nat 0) with 0%nat. rewrite drop_0. exact Hbuf.
Qed.

Lemma sync_read (d : list byte) fuel len (s : RSt) :
  in_sync K d s -> 0 < len ->
  last_read_data_offset_ s < Z.of_nat (length d) ->
  0 < kDecompressBufferSize K -> (2 <= fuel)%nat ->
  exists n p s',
    ReadData K dcheck fuel (last_read_data_offset_ s) len s = Ret (n, Some p) s'
    /\ 0 < n <= len
    /\ delivered (n, Some p) s'
       = take (Z.to_nat n) (drop (Z.to_nat (last_read_data_offset_ s)) d)
    /\ last_read_data_offset_ s' = last_read_data_offset_ s + n
    /\ last_read_data_length_ s' = len
    /\ in_sync K d s'.
Proof.
  intros Hsync Hlen Hin Hcap Hfuel.
  destruct Hsync as ((e & He & Hsize) & Hflag & Hc & Hw0 & Hfit & Hdata & Hwin).
  cbv zeta in *.
  set (c := last_read_data_offset_ s) in *.
  set (w := decompressed_data_size_ s) in *.
  unfold ReadData, PP_DCHECK.
  pose proof Hlen as Hlen'. apply Z.ltb_lt in Hlen'. rewrite Hlen', orb_true_r.
  cbn [negb]. rewrite He.
  assert (Hnot : (archive_entry_size e <=? c) = false) by (apply Z.leb_gt; lia).
  rewrite Hnot.
  destruct (window_invalid c s) eqn:Hinv.
  - (* the window is empty: it is refilled at the cursor *)
    assert (Hw : w = 0).
    { unfold window_invalid in Hinv. fold c in Hinv. rewrite Z.eqb_refl in Hinv.
      destruct Hwin as [Hz|(p & Hp & _)]; [exact Hz|].
      rewrite Hp in Hinv. cbn in Hinv. apply Z.eqb_eq in Hinv. exact Hinv. }
    rewrite Hw, Z.add_0_r in Hdata.
    destruct (reference_decompress_forward d fuel c len s ltac:(lia) ltac:(lia) Hdata
                (or_introl eq_refl) Hlen Hcap Hfuel ltac:(lia))
      as (s1 & Hr & Hp & Hn & Hcur & Herr & _ & Hent & Hd' & Hbuf).
    set (n := Z.min (Z.min len (kDecompressBufferSize K)) (Z.of_nat (length d) - c))
      in *.
    rewrite Hr. cbn [bind]. unfold deliver. rewrite Herr, Hflag. cbn.
    rewrite Hp, Hn.
    assert (Hmin : Z.min n len = n) by lia. rewrite Hmin.
    assert (Hcheck : (0 + n + (n - n) <=? kDecompressBufferSize K) = true)
      by (apply Z.leb_le; lia).
    unfold PP_DCHECK. rewrite Hcheck, orb_true_r. cbn [negb].
    exists n, 0. eexists. split; [reflexivity|]. split; [lia|]. cbn.
    change (Z.to_nat 0) with 0%nat. rewrite drop_0.
    split; [exact Hbuf|]. split; [rewrite Hcur; reflexivity|]. split; [reflexivity|].
    unfold in_sync. cbn. rewrite Herr, Hent, Hcur, Z.sub_diag, Z.add_0_r.
    split; [exists e; auto|]. split; [exact Hflag|].
    split; [lia|]. split; [lia|]. split; [lia|]. split; [exact Hd'|].
    left. reflexivity.
  - (* the window holds the bytes at the cursor *)
    unfold window_invalid in Hinv. apply orb_false_iff in Hinv as [Hinv Hwz].
    apply orb_false_iff in Hinv as [Hptr _]. apply Z.eqb_neq in Hwz. fold w in Hwz.
    destruct Hwin as [Hz|(p & Hp & Hp0 & Hpfit & Hwin)]; [contradiction|].
    cbn [bind]. unfold deliver. rewrite Hflag. cbn. rewrite Hp. fold w. fold c.
    set (n := Z.min w len).
    assert (Hcheck : (p + n + (w - n) <=? kDecompressBufferSize K) = true)
      by (apply Z.leb_le; lia).
    unfold PP_DCHECK. rewrite Hcheck, orb_true_r. cbn [negb].
    exists n, p. eexists. split; [reflexivity|]. split; [lia|]. cbn.
    assert (Hhead : take (Z.to_nat n) (drop (Z.to_nat p) (decompressed_data_buffer_ s))
                    = take (Z.to_nat n) (drop (Z.to_nat c) d)).
    { apply (f_equal (take (Z.to_nat n))) in Hwin.
      rewrite !take_take in Hwin.
      replace (Z.to_nat n `min` Z.to_nat w)%nat with (Z.to_nat n) in Hwin by lia.
      exact Hwin. }
    split; [exact Hhead|]. split; [reflexivity|]. split; [reflexivity|].
    unfold in_sync. cbn. rewrite He, Hflag. fold c. fold w.
    split; [exists e; auto|]. split; [reflexivity|].
    split; [lia|]. split; [lia|]. split; [lia|]. split.
    { rewrite Hdata. f_equal. lia. }
    right. exists (p + n). split; [reflexivity|]. split; [lia|]. split; [lia|].
    replace (Z.to_nat (p + n)) with (Z.to_nat p + Z.to_nat n)%nat by lia.
    replace (Z.to_nat (c + n)) with (Z.to_nat c + Z.to_nat n)%nat by lia.
    rewrite <- !drop_drop, !take_drop_commute.
    replace (Z.to_nat n + Z.to_nat (w - n))%nat with (Z.to_nat w) by lia.
    rewrite !take_drop_commute in Hwin. rewrite Hwin. reflexivity.
Qed.

Lemma selected_in_sync out (s : RSt) e d rest :
  codec_pending (world s) = (e, d) :: rest ->
  archive_entry_size e = Z.of_nat (length d) ->
  decompressed_error_ s = false -> decompressed_data_size_ s = 0 ->
  in_sync K d (GetNextHeader K out s).2
  /\ last_read_data_offset_ (GetNextHeader K out s).2 = 0.
Proof.
  intros Hpend Hsize Hflag Hw. unfold GetNextHeader. cbn. rewrite Hpend. cbn.
  split; [|reflexivity]. unfold in_sync. cbn. rewrite Hflag, Hw.
  split; [exists e; auto|]. split; [reflexivity|].
  split; [lia|]. split; [lia|]. split; [lia|]. split; [reflexivity|].
  left. reflexivity.
Qed.

Lemma read_whole_in_sync (d : list byte) fuel len rounds :
  0 < len -> 0 < kDecompressBufferSize K -> (2 <= fuel)%nat ->
  forall s : RSt,
    in_sync K d s ->
    (Z.to_nat (Z.of_nat (length d) - last_read_data_offset_ s) <= rounds)%nat ->
    read_whole K dcheck rounds fuel len s
    = drop (Z.to_nat (last_read_data_offset_ s)) d.
Proof.
  intros Hlen Hcap Hfuel.
  induction rounds as [|rounds IH]; intros s Hsync Hrounds.
  { destruct Hsync as (_ & _ & Hc & Hw & Hfit & _). cbv zeta in *.
    cbn. symmetry. apply drop_ge. lia. }
  cbn [read_whole].
  destruct (Z_lt_ge_dec (last_read_data_offset_ s) (Z.of_nat (length d))) as [Hin|Hend].
  - destruct (sync_read d fuel len s Hsync Hlen Hin Hcap Hfuel)
      as (n & p & s1 & Hr & Hn & Hd & Hc1 & Hl1 & Hsync1).
    rewrite Hr.
    assert (Hpos : (n <=? 0) = false) by (apply Z.leb_gt; lia). rewrite Hpos.
    destruct (sync_ahead d fuel s1 Hsync1 ltac:(lia) Hcap Hfuel)
      as (s2 & Ha & Hsync2 & Hc2 & _).
    rewrite Ha, Hd, (IH s2 Hsync2) by lia.
    rewrite Hc2, Hc1.
    assert (Hc0 : 0 <= last_read_data_offset_ s) by (apply Hsync).
    replace (Z.to_nat (last_read_data_offset_ s + n))
      with (Z.to_nat (last_read_data_offset_ s) + Z.to_nat n)%nat by lia.
    rewrite <- drop_drop. apply take_drop.
  - destruct Hsync as ((e & He & Hsize) & _ & Hc & Hw & Hfit & _). cbv zeta in *.
    unfold ReadData, PP_DCHECK.
    pose proof Hlen as Hlen'. apply Z.ltb_lt in Hlen'. rewrite Hlen', orb_true_r.
    cbn [negb]. rewrite He.
    assert (Hpast : (archive_entry_size e <=? last_read_data_offset_ s) = true)
      by (apply Z.leb_le; lia).
    rewrite Hpast. cbn. symmetry. apply drop_ge. lia.
Qed.

(** X9. Reading at the cursor.  When the window holds the bytes of the entry
    at the cursor and the reference codec stands right after them, a
    [ReadData] at the cursor inside the entry returns between 1 and [len] of
    the right bytes and moves the cursor past them, and a
    [MaybeDecompressAhead] after it returns; both leave the object in step
    with the codec. *)
Theorem reads_at_the_cursor_are_correct (d : list byte) fuel (s : RSt) :
  in_sync K d s -> 0 < kDecompressBufferSize K -> (2 <= fuel)%nat ->
  (forall len,
      0 < len -> last_read_data_offset_ s < Z.of_nat (length d) ->
      exists n p s',
        ReadData K dcheck fuel (last_read_data_offset_ s) len s = Ret (n, Some p) s'
        /\ 0 < n <= len
        /\ delivered (n, Some p) s'
           = take (Z.to_nat n) (drop (Z.to_nat (last_read_data_offset_ s)) d)
        /\ last_read_data_offset_ s' = last_read_data_offset_ s + n
        /\ in_sync K d s')
  /\ (0 < last_read_data_length_ s ->
      exists s',
        MaybeDecompressAhead K dcheck fuel s = Ret tt s'
        /\ last_read_data_offset_ s' = last_read_data_offset_ s
        /\ in_sync K d s').
Proof.
  intros Hsync Hcap Hfuel. split.
  - intros len Hlen Hin.
    destruct (sync_read d fuel len s Hsync Hlen Hin Hcap Hfuel)
      as (n & p & s' & Hr & Hn & Hd & Hc & _ & Hs).
    exists n, p, s'. auto.
  - intros Hlast.
    destruct (sync_ahead d fuel s Hsync Hlast Hcap Hfuel) as (s' & Hr & Hs & Hc & _).
    exists s'. auto.
Qed.

(** X10. Reading an entry back.  Over the reference codec, once
    [GetNextHeader] has selected an entry whose size is the number of its
    bytes, with an empty window and no error, the caller's loop ([ReadData] at
    the cursor for [len] bytes, then [MaybeDecompressAhead], until no byte
    comes) hands out exactly the bytes of the entry, whatever the chunk
    length. *)
Theorem entry_is_read_back_whole out (s : RSt) e d rest rounds fuel len :
  codec_pending (world s) = (e, d) :: rest ->
  archive_entry_size e = Z.of_nat (length d) ->
  decompressed_error_ s = false -> decompressed_data_size_ s = 0 ->
  0 < len -> 0 < kDecompressBufferSize K ->
  (2 <= fuel)%nat -> (length d <= rounds)%nat ->
  read_whole K dcheck rounds fuel len (GetNextHeader K out s).2 = d.
Proof.
  intros Hpend Hsize Hflag Hw Hlen Hcap Hfuel Hrounds.
  destruct (selected_in_sync out s e d rest Hpend Hsize Hflag Hw) as [Hsync Hc].
  rewrite (read_whole_in_sync d fuel len rounds Hlen Hcap Hfuel _ Hsync)
    by (rewrite Hc; lia).
  rewrite Hc. apply drop_0.
Qed.

(** X11. Jumping forward.  From a state in step with the reference codec, a
    [ReadData] at an offset beyond the cursor skips as many bytes as lie
    between the cursor and the offset, counted from where the codec stands,
    which is past the [w] bytes still in the window: the bytes handed out are
    those of the entry at the offset plus [w].  They are the bytes asked for
    when the window is empty, and lie [w] bytes too far after a read-ahead
    that was not consumed. *)
Theorem forward_jump_reads_past_the_window (d : list byte) fuel offset len (s : RSt) :
  in_sync K d s ->
  last_read_data_offset_ s < offset -> offset < Z.of_nat (length d) ->
  offset + decompressed_data_size_ s <= Z.of_nat (length d) ->
  0 < len -> 0 < kDummyBufferSize K -> 0 < kDecompressBufferSize K ->
  (2 <= fuel)%nat -> (Z.to_nat (offset - last_read_data_offset_ s) <= fuel)%nat ->
  let w := decompressed_data_size_ s in
  let n := Z.min (Z.min len (kDecompressBufferSize K))
                 (Z.of_nat (length d) - w - offset) in
  exists s',
    ReadData K dcheck fuel offset len s = Ret (n, Some 0) s'
    /\ delivered (n, Some 0) s' = take (Z.to_nat n) (drop (Z.to_nat (offset + w)) d).
Proof.
  intros Hsync Hjump Hin Hfit Hlen Hdummy Hcap Hfuel2 Hfuel w n.
  destruct Hsync as ((e & He & Hsize) & Hflag & Hc & Hw0 & _ & Hdata & _).
  cbv zeta in *. fold w in Hw0, Hdata, Hfit.
  rewrite (ReadData_decompresses K dcheck fuel offset len s e Hlen He)
    by (try lia; apply window_invalid_off_cursor; lia).
  assert (Hdata' : codec_data (world s)
                   = drop (Z.to_nat (last_read_data_offset_ s)) (drop (Z.to_nat w) d)).
  { rewrite Hdata, drop_drop. f_equal. lia. }
  destruct (reference_decompress_forward (drop (Z.to_nat w) d) fuel offset len s
              ltac:(lia) ltac:(rewrite length_drop; lia) Hdata'
              (or_intror Hdummy) Hlen Hcap Hfuel2 Hfuel)
    as (s1 & Hr & Hp & Hn & Hcur & Herr & _ & _ & _ & Hbuf).
  rewrite length_drop in Hn, Hbuf.
  assert (En : Z.min (Z.min len (kDecompressBufferSize K))
                     (Z.of_nat (length d - Z.to_nat w) - offset) = n) by lia.
  rewrite En in Hn, Hbuf.
  rewrite Hr. cbn [bind]. unfold deliver. rewrite Herr, Hflag. cbn. rewrite Hp, Hn.
  assert (Hmin : Z.min n len = n) by lia. rewrite Hmin.
  assert (Hcheck : (0 + n + (n - n) <=? kDecompressBufferSize K) = true)
    by (apply Z.leb_le; lia).
  unfold PP_DCHECK. rewrite Hcheck, orb_true_r. cbn [negb].
  eexists. split; [reflexivity|]. cbn. change (Z.to_nat 0) with 0%nat.
  rewrite drop_0, Hbuf, drop_drop. do 2 f_equal. lia.
Qed.
End ReferenceFurther.

Lemma read_ahead_in_sync : in_sync test_constants (bytes_of "Hello World!") read_ahead.
Proof.
  unfold in_sync. cbv zeta.
  split; [eexists; split; reflexivity|].
  split; [reflexivity|].
  split; [cbn; lia|]. split; [cbn; lia|]. split; [cbn; lia|].
  split; [reflexivity|].
  right. eexists. split; [reflexivity|].
  split; [cbn; lia|]. split; [cbn; lia | reflexivity].
Qed.

Lemma listing_yields_every_entry_in_order_witness :
  list_entries test_constants 3 no_out
    (Init test_constants (scenario_new two_files ARCHIVE_OK)).2
  = (map header_of two_files, true).
Proof.
  apply (listing_yields_every_entry_in_order test_constants 3 no_out
           (scenario_new two_files ARCHIVE_OK)).
  - repeat (constructor; [discriminate|]). constructor.
  - cbn. lia.
Defined.

Lemma reads_at_the_cursor_are_correct_witness :
  (exists n p s',
     ReadData test_constants false 20 4 3 read_ahead = Ret (n, Some p) s'
     /\ 0 < n <= 3
     /\ delivered (n, Some p) s'
        = take (Z.to_nat n) (drop 4 (bytes_of "Hello World!")))
  /\ exists s', MaybeDecompressAhead test_constants false 20 read_ahead = Ret tt s'.
Proof.
  destruct (reads_at_the_cursor_are_correct test_constants false
              (bytes_of "Hello World!") 20 read_ahead read_ahead_in_sync)
    as [Hread Hahead]; [cbn; lia | lia |].
  split.
  - destruct (Hread 3) as (n & p & s' & Hr & Hn & Hd & _); [lia | cbn; lia |].
    exists n, p, s'. split; [exact Hr|]. split; [exact Hn | exact Hd].
  - destruct Hahead as (s' & Hr & _); [cbn; lia|].
    exists s'. exact Hr.
Defined.

Lemma entry_is_read_back_whole_witness :
  read_whole test_constants false 12 20 5 at_a_txt = bytes_of "Hello World!".
Proof.
  change at_a_txt
    with (GetNextHeader test_constants no_out
            (Init test_constants (scenario_new two_files ARCHIVE_OK)).2).2.
  apply (entry_is_read_back_whole test_constants false no_out
           (Init test_constants (scenario_new two_files ARCHIVE_OK)).2
           (file_entry "a.txt" "Hello World!").1 (bytes_of "Hello World!")
           [file_entry "b.txt" "Bye!!"] 12 20 5);
    try reflexivity; cbn; lia.
Defined.

Lemma forward_jump_reads_past_the_window_witness :
  exists s',
    ReadData test_constants false 20 6 2 read_ahead = Ret (2, Some 0) s'
    /\ delivered (2, Some 0) s' = bytes_of "d!".
Proof.
  destruct (forward_jump_reads_past_the_window test_constants false
              (bytes_of "Hello World!") 20 6 2 read_ahead read_ahead_in_sync)
    as (s' & Hr & Hd); try (cbn; lia).
  exists s'. split; [exact Hr | exact Hd].
Defined.
